(** * CSMA/CD Ethernet simulation ([lab4/ethernet.py])

    A shallow embedding of the cable cells, the per-cell propagation, the
    transmission state machine, the device scheduler and the round loop of
    [main], followed by the properties of the specification.

    Conventions of the embedding.
    - Python integers are [Z]; [str | None] is [option string]; the
      collision marker is the string ["#"], as in the source.
    - A Python list of objects is a [list]; mutating an attribute of
      [l[i]] is an update of the list at the index [i] resolves to.  Every
      medium of the program is built by a comprehension of fresh
      [CableCell(i)] objects, so its elements are pairwise distinct objects
      and an update through a reference is an update at that index.
    - A raised exception ([IndexError]) is [None] in the option monad.
    - The hidden global generator of [random] is an explicit state
      threaded through the calls that draw from it.
    - [print] and [time.sleep] do not touch the simulation state and are
      left out. *)

From stdpp Require Import base option list list_numbers strings.
From Stdlib Require Import ZArith Lia Permutation.

Local Open Scope Z_scope.

(** ** Python run-time pieces used by the program *)

(** [l[i]] on a list of length [n]: the position an index resolves to.
    Negative indices count from the end; anything else is out of range. *)
Definition py_index (n : nat) (i : Z) : option nat :=
  if decide (0 ≤ i < Z.of_nat n) then Some (Z.to_nat i)
  else if decide (- Z.of_nat n ≤ i < 0) then Some (Z.to_nat (Z.of_nat n + i))
  else None.

Definition getitem {A} (l : list A) (i : Z) : option A :=
  k ← py_index (length l) i; l !! k.

(** [l[i].attr = v], given as the function [f] that rewrites the object. *)
Definition setitem_attr {A} (f : A → A) (l : list A) (i : Z) : option (list A) :=
  k ← py_index (length l) i; Some (alter f k l).

(** The generator behind [random]: an arbitrary sequence of raw draws and
    the number of draws consumed so far. *)
Record Random := mkRandom { gen : nat → nat; drawn : nat }.

Definition next_raw (r : Random) : nat * Random :=
  (gen r (drawn r), mkRandom (gen r) (S (drawn r))).

(** [random.randint(a, b)]: an integer in [a..b]. *)
Definition randint (a b : Z) (r : Random) : Z * Random :=
  let '(x, r') := next_raw r in (a + Z.of_nat x `mod` (b - a + 1), r').

(** [random.choice(seq)]: an element of [seq] ([IndexError] when empty). *)
Definition choice {A} (seq : list A) (r : Random) : option (A * Random) :=
  let '(x, r') := next_raw r in
  v ← seq !! (x `mod` length seq)%nat; Some (v, r').

(** ** Configuration constant *)

Definition ETHERNET_CABLE_LENGHT : Z := 20.

Definition signal := option string.
(** [s != None] *)
Definition present (s : signal) : bool :=
  match s with Some _ => true | None => false end.

(** ** [class CableCell] *)
Module CableCell.

Record t := mk { pos : Z; left : signal; right : signal }.

Definition set_left (v : signal) (c : t) : t := mk (pos c) v (right c).
Definition set_right (v : signal) (c : t) : t := mk (pos c) (left c) v.

(** [__init__] *)
Definition init (_pos_ : Z) : t := mk _pos_ None None.

(** [new_signal] *)
Definition new_signal (sig : string) (self : t) : t :=
  mk (pos self)
     (if present (left self) then Some "#"%string else Some sig)
     (if present (right self) then Some "#"%string else Some sig).

(** The left-neighbour block of [propagate] (lines 75-87). *)
Definition propagate_left (self : t) (cable new_cable : list t) : option (list t) :=
  if decide (pos self ≠ 0) then
    lft ← getitem cable (pos self - 1);
    _ ← getitem new_cable (pos self - 1);
    if present (left self) && present (right lft) then
      nc ← setitem_attr (set_left (Some "#"%string)) new_cable (pos self - 1);
      setitem_attr (set_right (Some "#"%string)) nc (pos self)
    else if present (right lft) then
      setitem_attr (set_right (right lft)) new_cable (pos self)
    else if present (left self) then
      setitem_attr (set_left (left self)) new_cable (pos self - 1)
    else Some new_cable
  else Some new_cable.

(** The right-neighbour block (lines 90-102). *)
Definition propagate_right (self : t) (cable new_cable : list t) : option (list t) :=
  if decide (pos self ≠ ETHERNET_CABLE_LENGHT - 1) then
    rgt ← getitem cable (pos self + 1);
    _ ← getitem new_cable (pos self + 1);
    if present (right self) && present (left rgt) then
      nc ← setitem_attr (set_right (Some "#"%string)) new_cable (pos self + 1);
      setitem_attr (set_left (Some "#"%string)) nc (pos self)
    else if present (left rgt) then
      setitem_attr (set_left (left rgt)) new_cable (pos self)
    else if present (right self) then
      setitem_attr (set_right (right self)) new_cable (pos self + 1)
    else Some new_cable
  else Some new_cable.

(** The collision block on [new_self] (lines 105-107). *)
Definition collapse (c : t) : t :=
  if present (left c) && present (right c)
  then mk (pos c) (Some "#"%string) (Some "#"%string) else c.

(** [propagate]: [new_self] is fetched first, then the two neighbour
    blocks run, then [new_self] is collapsed. *)
Definition propagate (self : t) (cable new_cable : list t) : option (list t) :=
  _ ← getitem new_cable (pos self);
  nc1 ← propagate_left self cable new_cable;
  nc2 ← propagate_right self cable nc1;
  setitem_attr collapse nc2 (pos self).

(** [__str__] *)
Definition str (self : t) : string :=
  match left self, right self with
  | None, None => "_"%string
  | None, Some r => r
  | Some l, _ => l
  end.

End CableCell.

(** ** [class Transmission] *)
Module Transmission.

Record t := mk {
  src : string; pos : Z; len : Z; left : Z; wait : Z; sleep : Z
}.

Definition set_left (v : Z) (s : t) : t := mk (src s) (pos s) (len s) v (wait s) (sleep s).
Definition set_wait (v : Z) (s : t) : t := mk (src s) (pos s) (len s) (left s) v (sleep s).
Definition set_sleep (v : Z) (s : t) : t := mk (src s) (pos s) (len s) (left s) (wait s) v.

(** [__init__] *)
Definition init (_src_ : string) (_pos_ _len_ : Z) : t :=
  mk _src_ _pos_ _len_ _len_ ETHERNET_CABLE_LENGHT 0.

Definition outcome : Type := bool * t * list CableCell.t * Random.

(** [transmit]: the returned flag, the transmission and the cable after
    the call, and the generator. *)
Definition transmit (self : t) (cable : list CableCell.t) (rng : Random)
  : option outcome :=
  if decide (wait self = 0) then Some (true, self, cable, rng)
  else if decide (0 < sleep self) then
    Some (false, set_sleep (sleep self - 1) self, cable, rng)
  else
    c ← getitem cable (pos self);
    if decide (CableCell.left c = Some "#"%string ∨ CableCell.right c = Some "#"%string) then
      '(m, rng') ← choice [1; 2] rng;
      Some (false,
            set_left (len self)
              (set_wait ETHERNET_CABLE_LENGHT
                 (set_sleep (m * ETHERNET_CABLE_LENGHT) self)),
            cable, rng')
    else if decide (left self = 0) then
      Some (false, set_wait (wait self - 1) self, cable, rng)
    else if decide (CableCell.left c = None ∧ CableCell.right c = None) then
      cable' ← setitem_attr (CableCell.new_signal (src self)) cable (pos self);
      Some (false, set_left (left self - 1) self, cable', rng)
    else Some (false, self, cable, rng).

End Transmission.

(** ** [class Device] *)
Module Device.

Record t := mk {
  name : string; pos : Z; round : Z;
  transmission : option Transmission.t;
  transmissions : list (Z * Transmission.t)
}.

Definition set_transmission (v : option Transmission.t) (d : t) : t :=
  mk (name d) (pos d) (round d) v (transmissions d).
Definition set_transmissions (v : list (Z * Transmission.t)) (d : t) : t :=
  mk (name d) (pos d) (round d) (transmission d) v.
Definition set_round (v : Z) (d : t) : t :=
  mk (name d) (pos d) v (transmission d) (transmissions d).

(** The comprehension of [__init__]: one [randint(5, 10)] per round. *)
Fixpoint schedule (_name_ : string) (_pos_ : Z) (_rounds_ : list Z) (rng : Random)
  : list (Z * Transmission.t) * Random :=
  match _rounds_ with
  | [] => ([], rng)
  | r :: rs =>
      let '(l, rng1) := randint 5 10 rng in
      let '(q, rng2) := schedule _name_ _pos_ rs rng1 in
      ((r, Transmission.init _name_ _pos_ l) :: q, rng2)
  end.

(** [__init__] *)
Definition init (_name_ : string) (_pos_ : Z) (_rounds_ : list Z) (rng : Random)
  : t * Random :=
  let '(q, rng') := schedule _name_ _pos_ _rounds_ rng in
  (mk _name_ _pos_ 0 None q, rng').

Definition outcome : Type := bool * t * list CableCell.t * Random.

(** Lines 263-274 of [refresh]: the scheduled-queue block. *)
Definition start_scheduled (self : t) (cable : list CableCell.t) (rng : Random)
  : option outcome :=
  match transmissions self with
  | (r, t0) :: rest =>
      if decide (r ≤ round self) then
        '(_, t1, cable', rng') ← Transmission.transmit t0 cable rng;
        Some (true, set_transmissions rest (set_transmission (Some t1) self),
              cable', rng')
      else Some (true, self, cable, rng)
  | [] => Some (false, self, cable, rng)
  end.

(** [refresh] *)
Definition refresh (self : t) (cable : list CableCell.t) (rng : Random)
  : option outcome :=
  let self := set_round (round self + 1) self in
  match transmission self with
  | Some tr =>
      '(fin, tr', cable', rng') ← Transmission.transmit tr cable rng;
      if fin : bool then start_scheduled (set_transmission None self) cable' rng'
      else Some (true, set_transmission (Some tr') self, cable', rng')
  | None => start_scheduled self cable rng
  end.

(** [__str__] *)
Definition str (self : t) : string := name self.

End Device.

(** ** [main] *)

(** [[CableCell(i) for i in range(ETHERNET_CABLE_LENGHT)]] *)
Definition new_medium : list CableCell.t :=
  CableCell.init <$> seqZ 0 ETHERNET_CABLE_LENGHT.

(** Lines 317-320: one propagation pass, from the current medium to the
    next one: a fresh medium, then [cell.propagate(cable, new_cable)] for
    every cell of [cable] in order. *)
Definition propagate_all (cable : list CableCell.t) : option (list CableCell.t) :=
  foldl (λ acc cell, nc ← acc; CableCell.propagate cell cable nc)
        (Some new_medium) cable.

(** The state of [new_cable] inside that pass, after the calls of the
    first [k] cells. *)
Definition propagate_upto (k : nat) (cable : list CableCell.t)
  : option (list CableCell.t) :=
  foldl (λ acc cell, nc ← acc; CableCell.propagate cell cable nc)
        (Some new_medium) (take k cable).

(** [[d for d in devices if d.refresh(cable)]] *)
Fixpoint refresh_all (devices : list Device.t) (cable : list CableCell.t)
    (rng : Random) : option (list Device.t * list CableCell.t * Random) :=
  match devices with
  | [] => Some ([], cable, rng)
  | d :: ds =>
      '(more, d', cable1, rng1) ← Device.refresh d cable rng;
      '(live, cable2, rng2) ← refresh_all ds cable1 rng1;
      Some (if more : bool then d' :: live else live, cable2, rng2)
  end.

Record Sim := mkSim {
  cable : list CableCell.t;
  devices : list Device.t;
  rng : Random;
  current_round : Z
}.

(** The device table of [main], built in order from the generator. *)
Fixpoint make_devices (table : list (string * Z * list Z)) (rng : Random)
  : list Device.t * Random :=
  match table with
  | [] => ([], rng)
  | (n, p, rs) :: rest =>
      let '(d, rng1) := Device.init n p rs rng in
      let '(ds, rng2) := make_devices rest rng1 in
      (d :: ds, rng2)
  end.

(** Lines 296-311 with the literal device table as a parameter. *)
Definition setup (table : list (string * Z * list Z)) (rng : Random) : option Sim :=
  let '(ds, rng') := make_devices table rng in
  Some (mkSim new_medium ds rng' 0).

Definition main_table : list (string * Z * list Z) :=
  [("A"%string, 3, [1; 40; 41]); ("B"%string, 9, [50]); ("C"%string, 15, [55; 60; 80])].

(** Lines 330-332: the line of the device positions,
    [device_line[dev.pos] = str(dev)] for every live device. *)
Definition device_line (devices : list Device.t) : option (list string) :=
  foldl (λ acc dev,
           line ← acc;
           setitem_attr (λ _, Device.str dev) line (Device.pos dev))
        (Some (replicate (Z.to_nat ETHERNET_CABLE_LENGHT) " "%string))
        devices.

(** One iteration of the body of [while devices] (lines 314-352).  Of the
    display only the line of the device positions is kept: the rest reads
    the state and cannot raise. *)
Definition round (s : Sim) : option Sim :=
  nc ← propagate_all (cable s);
  '(live, cable', rng') ← refresh_all (devices s) nc (rng s);
  _ ← device_line live;
  Some (mkSim cable' live rng' (current_round s + 1)).

(** At most [n] iterations of [while devices]. *)
Fixpoint run (n : nat) (s : Sim) : option Sim :=
  match n with
  | O => Some s
  | S n' =>
      match devices s with
      | [] => Some s
      | _ => s' ← round s; run n' s'
      end
  end.

(** The line printed for the cable (line 327). *)
Definition render (cable : list CableCell.t) : string :=
  String.concat "" (CableCell.str <$> cable).

(** ** Vocabulary of the statements *)

(** A medium as [main] builds it: [ETHERNET_CABLE_LENGHT] cells, the cell
    at index [i] carrying [pos = i]. *)
Definition medium (cable : list CableCell.t) : Prop :=
  CableCell.pos <$> cable = seqZ 0 ETHERNET_CABLE_LENGHT.

(** The two directed signals of the cell at index [j]; [None] outside. *)
Definition leftward (cable : list CableCell.t) (j : nat) : signal :=
  c ← cable !! j; CableCell.left c.
Definition rightward (cable : list CableCell.t) (j : nat) : signal :=
  c ← cable !! j; CableCell.right c.

(** What one neighbour block writes, for the pending signal [S] of the
    cell and the signal [L] coming from the neighbour; [None] is "no
    write".  [inn] lands in the cell itself, [out] in the neighbour. *)
Definition inn (S L : signal) : signal :=
  if present S && present L then Some "#"%string else L.
Definition out (S L : signal) : signal :=
  if present S && present L then Some "#"%string
  else if present L then None else S.

Definition write_left (w : signal) (c : CableCell.t) : CableCell.t :=
  if present w then CableCell.set_left w c else c.
Definition write_right (w : signal) (c : CableCell.t) : CableCell.t :=
  if present w then CableCell.set_right w c else c.

(** The signal of the left neighbour that heads into cell [i]. *)
Definition from_left (cable : list CableCell.t) (i : nat) : signal :=
  match i with O => None | S k => rightward cable k end.

(** What the call [cable[i].propagate(cable, new_cable)] does to the cell
    [c] found at index [j] of [new_cable]. *)
Definition call_effect (cable : list CableCell.t) (i j : nat) (c : CableCell.t)
  : CableCell.t :=
  if decide (j = i) then
    CableCell.collapse
      (write_left (inn (rightward cable i) (leftward cable (S i)))
         (write_right (inn (leftward cable i) (from_left cable i)) c))
  else if decide (S j = i) then
    write_left (out (leftward cable i) (rightward cable j)) c
  else if decide (j = S i) then
    write_right (out (rightward cable i) (leftward cable j)) c
  else c.


Definition collision : signal := Some "#"%string.

(** The signals that reach cell [j] in one pass: from its right neighbour
    (into its left side) and from its left neighbour (into its right
    side). *)
Definition arrive_left (cable : list CableCell.t) (j : nat) : signal :=
  inn (rightward cable j) (leftward cable (S j)).
Definition arrive_right (cable : list CableCell.t) (j : nat) : signal :=
  inn (leftward cable j) (from_left cable j).

Definition resolved (cable : list CableCell.t) (j : nat) : CableCell.t :=
  CableCell.mk (Z.of_nat j) (arrive_left cable j) (arrive_right cable j).

(** Cell [j] of the medium a full pass produces.  The left side is the
    plain arrival: the call of cell [j + 1] writes it again after cell
    [j] was collapsed. *)
Definition next_cell (cable : list CableCell.t) (j : nat) : CableCell.t :=
  CableCell.mk (Z.of_nat j) (arrive_left cable j)
    (CableCell.right (CableCell.collapse (resolved cable j))).

Definition next_medium (cable : list CableCell.t) : list CableCell.t :=
  next_cell cable <$> seq 0 (length cable).

(** Cell [j] of [new_cable] once the cells [0 .. k-1] have propagated. *)
Definition stage (cable : list CableCell.t) (k j : nat) : CableCell.t :=
  if decide (S j < k)%nat then next_cell cable j
  else if decide (S j = k) then CableCell.collapse (resolved cable j)
  else if decide (j = k) then
    CableCell.mk (Z.of_nat j) None (arrive_right cable j)
  else CableCell.init (Z.of_nat j).

(** [k] propagation passes in a row, with no device acting in between. *)
Fixpoint passes (k : nat) (cable : list CableCell.t) : option (list CableCell.t) :=
  match k with
  | O => Some cable
  | S k' => nc ← propagate_all cable; passes k' nc
  end.

(** The number of cells, as a list length. *)
Definition cells : nat := Z.to_nat ETHERNET_CABLE_LENGHT.

(** An idle medium into whose cell [i] the signal [id] was just injected. *)
Definition injected (i : nat) (id : string) : list CableCell.t :=
  alter (CableCell.new_signal id) i new_medium.

(** The two fronts of that signal, [k] cells away from cell [i]. *)
Definition pulse_cell (i k : nat) (id : string) (j : nat) : CableCell.t :=
  CableCell.mk (Z.of_nat j)
    (if decide (j + k = i)%nat then Some id else None)
    (if decide (j = i + k)%nat then Some id else None).

Definition pulse (i k : nat) (id : string) : list CableCell.t :=
  pulse_cell i k id <$> seq 0 cells.

(** The medium with the outward signals of its two end cells replaced. *)
Definition with_ends (v w : signal) (cable : list CableCell.t) : list CableCell.t :=
  alter (CableCell.set_left v) 0%nat
    (alter (CableCell.set_right w) (length cable - 1)%nat cable).

(** The device holds no transmission that is still under way: none at
    all, or one whose [transmit] reports completion ([wait == 0]). *)
Definition nothing_under_way (d : Device.t) : Prop :=
  match Device.transmission d with
  | None => True
  | Some tr => Transmission.wait tr = 0
  end.

Global Arguments ETHERNET_CABLE_LENGHT : simpl never.
Global Arguments cells : simpl never.
Global Arguments new_medium : simpl never.
Global Arguments pulse : simpl never.
Global Arguments next_medium : simpl never.

(** A generator for [main]: every packet is 5 rounds long except the one
    of device B, which is 8 rounds long; the third backoff draw picks the
    multiplier 2 and the others pick 1. *)
Definition late_collision_gen : nat → nat :=
  λ n, match n with 3 => 3 | 8 => 1 | _ => 0 end%nat.

(** The state of [main] after [n] rounds under the generator [g]. *)
Definition main_after (g : nat → nat) (n : nat) : option Sim :=
  s ← setup main_table (mkRandom g 0); run n s.

(** A medium idle but for an ["A"] heading right in cell 4 and an ["A"]
    heading left in cell 6. *)
Definition converging : list CableCell.t :=
  alter (CableCell.set_right (Some "A"%string)) 4%nat
    (alter (CableCell.set_left (Some "A"%string)) 6%nat new_medium).

Global Arguments converging : simpl never.

(** The medium as a lone device at cell [p] leaves it: nothing heads
    towards [p] from either side. *)
Definition lone (p : nat) (cable : list CableCell.t) : Prop :=
  medium cable ∧
  ∀ j, ((j < p)%nat → rightward cable j = None) ∧
       ((p < j)%nat → leftward cable j = None).

(** The live devices of a run with the single device [name] at [p] and a
    single transmission of [l] rounds released at round [r], after [k]
    rounds: queued until round [n0], sending for [l] rounds, waiting for
    [ETHERNET_CABLE_LENGHT] rounds, then gone. *)
Definition lone_devices (name : string) (p r l : Z) (k : nat) : list Device.t :=
  let n0 := Z.to_nat (Z.max r 1) in
  let nl := Z.to_nat l in
  let tr left wait := Transmission.mk name p l left wait 0 in
  if decide (k < n0)%nat then
    [Device.mk name p (Z.of_nat k) None [(r, Transmission.init name p l)]]
  else if decide (k < n0 + nl)%nat then
    [Device.mk name p (Z.of_nat k)
       (Some (tr (l - Z.of_nat (k - n0) - 1) ETHERNET_CABLE_LENGHT)) []]
  else if decide (k < n0 + nl + cells)%nat then
    [Device.mk name p (Z.of_nat k)
       (Some (tr 0 (ETHERNET_CABLE_LENGHT - Z.of_nat (k - n0 - nl) - 1))) []]
  else [].

(** The state of that run after [k] rounds: the devices above, a medium
    with nothing heading towards the device, the generator untouched. *)
Definition lone_state (name : string) (p r l : Z) (rng1 : Random)
    (k : nat) (s : Sim) : Prop :=
  devices s = lone_devices name p r l k ∧
  lone (Z.to_nat p) (cable s) ∧ rng s = rng1.

(** ** Vocabulary for the order of the device pass *)

(** The transmissions of a device sit at the position of the device, as
    [Device.__init__] builds them. *)
Definition coherent (d : Device.t) : Prop :=
  (∀ t, Device.transmission d = Some t → Transmission.pos t = Device.pos d) ∧
  Forall (λ e : Z * Transmission.t, Transmission.pos e.2 = Device.pos d)
         (Device.transmissions d).

Definition on_medium (d : Device.t) : Prop :=
  0 ≤ Device.pos d < ETHERNET_CABLE_LENGHT.

(** Devices attached to pairwise distinct cells of the medium. *)
Definition pass_ready (ds : list Device.t) : Prop :=
  Forall (λ d, coherent d ∧ on_medium d) ds ∧ NoDup (Device.pos <$> ds).

(** The generator after [m] more draws. *)
Definition advance (m : nat) (rng : Random) : Random :=
  mkRandom (gen rng) (drawn rng + m).

(** All the draws still to come are equal. *)
Definition even_draws (rng : Random) : Prop :=
  ∀ a b, (drawn rng ≤ a)%nat → (drawn rng ≤ b)%nat → gen rng a = gen rng b.

(** What every state of a run keeps: devices on pairwise distinct cells
    of a well-formed medium. *)
Definition sound (s : Sim) : Prop :=
  pass_ready (devices s) ∧ medium (cable s).

(** A generator under which B's packet is 8 rounds long, all others 5,
    and every backoff draw picks the multiplier 1. *)
Definition level_gen : nat → nat := λ n, if (n =? 3)%nat then 3%nat else 0%nat.

From Stdlib Require Import Ascii.
From stdpp Require Import pretty.

Local Open Scope Z_scope.

(** * Vocabulary of the further properties *)

(** The counters of a transmission as [transmit] keeps them: within
    their ranges, reset while backing off, and with the collision window
    untouched as long as bits remain to be sent. *)
Definition consistent (t : Transmission.t) : Prop :=
  0 ≤ Transmission.left t ≤ Transmission.len t ∧
  0 ≤ Transmission.wait t ≤ ETHERNET_CABLE_LENGHT ∧
  0 ≤ Transmission.sleep t ≤ 2 * ETHERNET_CABLE_LENGHT ∧
  (0 < Transmission.sleep t →
   Transmission.wait t = ETHERNET_CABLE_LENGHT ∧
   Transmission.left t = Transmission.len t) ∧
  (0 < Transmission.left t → Transmission.wait t = ETHERNET_CABLE_LENGHT).

(** The multiplier [random.choice([1, 2])] returns in the generator state
    [rng]. *)
Definition backoff_draw (rng : Random) : Z :=
  match choice [1; 2] rng with Some (v, _) => v | None => 0 end.

(** A device with the backoff length of its active transmission blanked. *)
Definition forget_sleep (d : Device.t) : Device.t :=
  Device.set_transmission
    (Transmission.set_sleep 0 <$> Device.transmission d) d.

(** The side of a cell of [new_cable] after a write that only happens
    when the signal [w] is present. *)
Definition over (w old : signal) : signal := if present w then w else old.

(** A cable of any length whose cells carry their index. *)
Definition indexed (cable : list CableCell.t) : Prop :=
  CableCell.pos <$> cable = seqZ 0 (Z.of_nat (length cable)).

(** * The frame processor ([lab4/ex1.py])

    A [str] is the list of its characters, a character of the Latin-1
    range is an [ascii].  [ValueError], like [IndexError], is [None]. *)


(** [l[start:stop]]: a bound below zero counts from the end, and both are
    clipped to the list. *)
Definition slice_bound (n i : Z) : Z :=
  if decide (i < 0) then Z.max (i + n) 0 else Z.min i n.

Definition py_slice {A} (l : list A) (start stop : option Z) : list A :=
  let n := Z.of_nat (length l) in
  let a := from_option (slice_bound n) 0 start in
  let b := from_option (slice_bound n) n stop in
  take (Z.to_nat (b - a)) (drop (Z.to_nat a) l).

(** [int(c)] on a one-character string: a decimal digit, [ValueError]
    on anything else. *)
Definition int (c : ascii) : option Z :=
  let n := Z.of_N (N_of_ascii c) in
  if decide (48 ≤ n ≤ 57) then Some (n - 48) else None.

(** [str(d)] for [0 ≤ d ≤ 9], the only values the program passes: the
    exclusive or of a digit with a bit of the divisor. *)
Definition digit (d : Z) : ascii := ascii_of_N (Z.to_N (48 + d)).

(** [class FrameProcessor] *)
Module FrameProcessor.

Definition FLAG : list ascii := Eval cbv in String.list_ascii_of_string "01111110".
Definition CRC_POLY : list ascii := Eval cbv in String.list_ascii_of_string "100000111".

(** The body of the inner loop of [crc_calculate], for one [j]. *)
Definition xor_bit (divisor_bits : list ascii) (i : Z)
    (acc : option (list ascii)) (j : Z) : option (list ascii) :=
  dividend_bits ← acc;
  if decide (i + j < Z.of_nat (length dividend_bits)) then
    a ← getitem dividend_bits (i + j);
    x ← int a;
    d ← getitem divisor_bits j;
    y ← int d;
    setitem_attr (λ _, digit (Z.lxor x y)) dividend_bits (i + j)
  else Some dividend_bits.

(** The body of the outer loop of [crc_calculate], for one [i]. *)
Definition divide_at (divisor_bits : list ascii)
    (acc : option (list ascii)) (i : Z) : option (list ascii) :=
  dividend_bits ← acc;
  b ← getitem dividend_bits i;
  if decide (b = "1"%char) then
    foldl (xor_bit divisor_bits i) (Some dividend_bits)
          (seqZ 0 (Z.of_nat (length divisor_bits)))
  else Some dividend_bits.

(** [crc_calculate] *)
Definition crc_calculate (data : list ascii) : option (list ascii) :=
  let dividend := data ++ replicate 8 "0"%char in
  let divisor := CRC_POLY in
  dividend_bits ← foldl (divide_at divisor) (Some dividend)
                        (seqZ 0 (Z.of_nat (length data)));
  Some (py_slice dividend_bits (Some (-8)) None).

(** The body of the loop of [bit_stuffing], on the pair of [result] and
    [count_ones]. *)
Definition stuff_bit (st : list ascii * Z) (bit : ascii) : list ascii * Z :=
  let '(result, count_ones) := st in
  let result := result ++ [bit] in
  if decide (bit = "1"%char) then
    let count_ones := count_ones + 1 in
    if decide (count_ones = 5) then (result ++ ["0"%char], 0)
    else (result, count_ones)
  else (result, 0).

(** [bit_stuffing] *)
Definition bit_stuffing (data : list ascii) : list ascii :=
  (foldl stuff_bit ([], 0) data).1.

(** The [while] loop of [bit_destuffing], on the part [data[i:]] that is
    still to be read. *)
Fixpoint destuff_loop (rest : list ascii) (count_ones : Z)
    (result : list ascii) : list ascii :=
  match rest with
  | [] => result
  | bit :: rest =>
    let result := result ++ [bit] in
    if decide (bit = "1"%char) then
      let count_ones := count_ones + 1 in
      if decide (count_ones = 5) then
        match rest with
        | next :: rest' =>
          if decide (next = "0"%char) then destuff_loop rest' 0 result
          else destuff_loop rest 0 result
        | [] => destuff_loop rest 0 result
        end
      else destuff_loop rest count_ones result
    else destuff_loop rest 0 result
  end.

(** [bit_destuffing] *)
Definition bit_destuffing (data : list ascii) : list ascii :=
  destuff_loop data 0 [].

(** [create_frame] *)
Definition create_frame (data : list ascii) : option (list ascii) :=
  crc ← crc_calculate data;
  let data_with_crc := data ++ crc in
  let stuffed_data := bit_stuffing data_with_crc in
  Some (FLAG ++ stuffed_data ++ FLAG).

(** [parse_frame] *)
Definition parse_frame (frame : list ascii) : option (bool * list ascii) :=
  if negb (bool_decide (FLAG `prefix_of` frame) &&
           bool_decide (FLAG `suffix_of` frame))
  then Some (false, [])
  else
    let data_stuffed :=
      py_slice frame (Some (Z.of_nat (length FLAG)))
                     (Some (- Z.of_nat (length FLAG))) in
    let data_with_crc := bit_destuffing data_stuffed in
    if decide (Z.of_nat (length data_with_crc) < 8) then Some (false, [])
    else
      let data := py_slice data_with_crc None (Some (-8)) in
      let received_crc := py_slice data_with_crc (Some (-8)) None in
      calculated_crc ← crc_calculate data;
      if decide (received_crc = calculated_crc) then Some (true, data)
      else Some (false, []).

End FrameProcessor.

(** A string of the characters ['0'] and ['1']. *)
Definition bit_string (s : list ascii) : Prop :=
  Forall (λ c, c = "0"%char ∨ c = "1"%char) s.

(** No run of ['1'] in [s] is longer than [5 - count] at its start and
    than [5] elsewhere. *)
Fixpoint runs_below (count : Z) (s : list ascii) : bool :=
  match s with
  | [] => true
  | c :: s =>
    if decide (c = "1"%char)
    then bool_decide (count + 1 ≤ 5) && runs_below (count + 1) s
    else runs_below 0 s
  end.

(** ** The long division of [crc_calculate] on bits *)

(** The bit a character stands for, and the character of a bit. *)
Definition bit_of (c : ascii) : bool := bool_decide (c = "1"%char).
Definition char_of (b : bool) : ascii := if b then "1"%char else "0"%char.

(** The [j]-th bit of the divisor. *)
Definition poly_bit (j : nat) : bool :=
  from_option bit_of false (FrameProcessor.CRC_POLY !! j).

(** The first [m] bits of the divisor, aligned at [i], added to [w]. *)
Definition subtract_upto (i m : nat) (w : list bool) : list bool :=
  imap (λ k b, if decide (i ≤ k < i + m)%nat
               then xorb b (poly_bit (k - i)) else b) w.

Definition subtract_at (i : nat) (w : list bool) : list bool :=
  subtract_upto i (length FrameProcessor.CRC_POLY) w.

(** One turn of the outer loop, and its first [n] turns. *)
Definition divide_step (w : list bool) (i : nat) : list bool :=
  match w !! i with Some true => subtract_at i w | _ => w end.

Definition divide (n : nat) (w : list bool) : list bool :=
  foldl divide_step w (seq 0 n).

(** The remainder the division leaves behind the data. *)
Definition crc_bits (d : list bool) : list bool :=
  drop (length d) (divide (length d) (d ++ replicate 8 false)).

(** [y] added to [w] from the position [n] on. *)
Definition xor_tail (n : nat) (y w : list bool) : list bool :=
  imap (λ k b, if decide (n ≤ k)%nat
               then xorb b (default false (y !! (k - n)%nat)) else b) w.

(** * The second CSMA/CD simulator ([lab4/ex2.py])

    The conventions are those above.  A frame is a [str] held as a
    [string], and [len] counts its characters.  [random.random()] is a
    53-bit draw [k] standing for the float [k / 2^53]; the float
    [probability] it is compared with enters as the least integer not
    below [probability * 2^53], which decides the same comparison.  The
    functions that only print are left out. *)


(** [class SignalType] *)
Module SignalType.

Inductive t := IDLE | DATA | COLLISION | JAM.

#[global] Instance signal_eq_dec : EqDecision t := ltac:(solve_decision).

End SignalType.

(** [class NodeState] *)
Module NodeState.

Inductive t :=
  IDLE | LISTENING | TRANSMITTING | COLLISION_DETECTED | BACKOFF | JAMMING.

#[global] Instance state_eq_dec : EqDecision t := ltac:(solve_decision).

End NodeState.

(** [random.random()], as the numerator over [2^53]. *)
Definition random (r : Random) : Z * Random :=
  let '(x, r') := next_raw r in (Z.of_nat x `mod` 2 ^ 53, r').

(** [len(s)] on a frame or [None] ([TypeError]). *)
Definition len (s : option string) : option Z :=
  s ← s; Some (Z.of_nat (String.length s)).

(** [class EthernetNode] *)
Module EthernetNode.

Record t := mk {
  node_id : Z;
  position : Z;
  state : NodeState.t;
  data_to_send : list (option string);
  current_frame : option string;
  transmission_time : Z;
  backoff_time : Z;
  collision_count : Z;
  successful_transmissions : Z;
  total_attempts : Z;
  jam_duration : Z }.

Definition set_state (v : NodeState.t) (n : t) : t :=
  mk (node_id n) (position n) v (data_to_send n) (current_frame n)
     (transmission_time n) (backoff_time n) (collision_count n)
     (successful_transmissions n) (total_attempts n) (jam_duration n).
Definition set_data_to_send (v : list (option string)) (n : t) : t :=
  mk (node_id n) (position n) (state n) v (current_frame n)
     (transmission_time n) (backoff_time n) (collision_count n)
     (successful_transmissions n) (total_attempts n) (jam_duration n).
Definition set_current_frame (v : option string) (n : t) : t :=
  mk (node_id n) (position n) (state n) (data_to_send n) v
     (transmission_time n) (backoff_time n) (collision_count n)
     (successful_transmissions n) (total_attempts n) (jam_duration n).
Definition set_transmission_time (v : Z) (n : t) : t :=
  mk (node_id n) (position n) (state n) (data_to_send n) (current_frame n)
     v (backoff_time n) (collision_count n)
     (successful_transmissions n) (total_attempts n) (jam_duration n).
Definition set_backoff_time (v : Z) (n : t) : t :=
  mk (node_id n) (position n) (state n) (data_to_send n) (current_frame n)
     (transmission_time n) v (collision_count n)
     (successful_transmissions n) (total_attempts n) (jam_duration n).
Definition set_collision_count (v : Z) (n : t) : t :=
  mk (node_id n) (position n) (state n) (data_to_send n) (current_frame n)
     (transmission_time n) (backoff_time n) v
     (successful_transmissions n) (total_attempts n) (jam_duration n).
Definition set_successful_transmissions (v : Z) (n : t) : t :=
  mk (node_id n) (position n) (state n) (data_to_send n) (current_frame n)
     (transmission_time n) (backoff_time n) (collision_count n)
     v (total_attempts n) (jam_duration n).
Definition set_total_attempts (v : Z) (n : t) : t :=
  mk (node_id n) (position n) (state n) (data_to_send n) (current_frame n)
     (transmission_time n) (backoff_time n) (collision_count n)
     (successful_transmissions n) v (jam_duration n).
Definition set_jam_duration (v : Z) (n : t) : t :=
  mk (node_id n) (position n) (state n) (data_to_send n) (current_frame n)
     (transmission_time n) (backoff_time n) (collision_count n)
     (successful_transmissions n) (total_attempts n) v.

(** [__init__] *)
Definition init (node_id position : Z) : t :=
  mk node_id position NodeState.IDLE [] None 0 0 0 0 0 0.

(** [has_data_to_send] *)
Definition has_data_to_send (self : t) : bool :=
  bool_decide (Z.of_nat (length (data_to_send self)) > 0).

(** [add_data] *)
Definition add_data (frame_data : string) (self : t) : t :=
  set_data_to_send (data_to_send self ++ [Some frame_data]) self.

(** [calculate_backoff].  With a negative [collision_count] the power is
    a float that is no integer, and [random.randint] raises. *)
Definition calculate_backoff (self : t) (rng : Random)
    : option (Z * t * Random) :=
  let self := if decide (collision_count self > 10)
              then set_collision_count 10 self else self in
  if decide (collision_count self < 0) then None
  else
    let max_slots := 2 ^ collision_count self in
    let '(v, rng) := randint 0 (max_slots - 1) rng in
    Some (v, self, rng).

End EthernetNode.

(** The dictionary [statistics], whose four keys are fixed. *)
Module Statistics.

Record t := mk {
  total_transmissions : Z;
  successful_transmissions : Z;
  collisions : Z;
  channel_utilization : Z }.

End Statistics.

(** [class EthernetSimulator] *)
Module EthernetSimulator.

Record t := mk {
  cable : list SignalType.t;
  cable_length : Z;
  propagation_delay : Z;
  slot_time : Z;
  time_step : Z;
  nodes : list EthernetNode.t;
  statistics : Statistics.t }.

Definition set_cable (v : list SignalType.t) (s : t) : t :=
  mk v (cable_length s) (propagation_delay s) (slot_time s) (time_step s)
     (nodes s) (statistics s).
Definition set_time_step (v : Z) (s : t) : t :=
  mk (cable s) (cable_length s) (propagation_delay s) (slot_time s) v
     (nodes s) (statistics s).
Definition set_nodes (v : list EthernetNode.t) (s : t) : t :=
  mk (cable s) (cable_length s) (propagation_delay s) (slot_time s)
     (time_step s) v (statistics s).
Definition set_statistics (v : Statistics.t) (s : t) : t :=
  mk (cable s) (cable_length s) (propagation_delay s) (slot_time s)
     (time_step s) (nodes s) v.

(** The body of the loop of [__init__], for one [i]. *)
Definition place (positions : list Z)
    (acc : option (list EthernetNode.t)) (i : Z)
    : option (list EthernetNode.t) :=
  nodes ← acc;
  p ← getitem positions i;
  Some (nodes ++ [EthernetNode.init i p]).

(** [__init__] *)
Definition init (cable_length num_nodes propagation_delay slot_time : Z)
    : option t :=
  let positions :=
    (λ i, i * (cable_length `div` (num_nodes + 1))) <$> seqZ 1 num_nodes in
  nodes ← foldl (place positions) (Some []) (seqZ 0 num_nodes);
  Some (mk (replicate (Z.to_nat cable_length) SignalType.IDLE)
           cable_length propagation_delay slot_time 0 nodes
           (Statistics.mk 0 0 0 0)).

(** [sense_carrier] *)
Definition sense_carrier (self : t) (node : EthernetNode.t) : option bool :=
  s ← getitem (cable self) (EthernetNode.position node);
  Some (bool_decide (s = SignalType.IDLE)).

(** [detect_collision] *)
Definition detect_collision (self : t) (node : EthernetNode.t)
    : option bool :=
  s ← getitem (cable self) (EthernetNode.position node);
  Some (bool_decide (s = SignalType.COLLISION)).

(** The body of the loop of [propagate_signal] over the offsets, for the
    position [i] and one [offset]. *)
Definition hear (self : t) (i : Z)
    (acc : option (list SignalType.t)) (offset : Z)
    : option (list SignalType.t) :=
  signals ← acc;
  let pos := i + offset in
  if decide (0 ≤ pos < cable_length self) then
    s ← getitem (cable self) pos;
    if decide (s ≠ SignalType.IDLE) then Some (signals ++ [s])
    else Some signals
  else Some signals.

Definition heard (self : t) (i : Z) : option (list SignalType.t) :=
  foldl (hear self i) (Some [])
        [- propagation_delay self; 0; propagation_delay self].

(** The body of its loop over the nodes, and that loop. *)
Definition drive (i : Z) (signals : list SignalType.t)
    (node : EthernetNode.t) : list SignalType.t :=
  if decide (EthernetNode.position node = i ∧
             EthernetNode.state node = NodeState.TRANSMITTING)
  then signals ++ [SignalType.DATA]
  else if decide (EthernetNode.position node = i ∧
                  EthernetNode.state node = NodeState.JAMMING)
  then signals ++ [SignalType.JAM]
  else signals.

Definition driven (self : t) (i : Z) (signals : list SignalType.t)
    : list SignalType.t :=
  foldl (drive i) signals (nodes self).

(** The state of the medium for the signals found. *)
Definition settled (signals : list SignalType.t) : SignalType.t :=
  match signals with
  | [] => SignalType.IDLE
  | [s] => s
  | _ => SignalType.COLLISION
  end.

(** The body of the outer loop of [propagate_signal], for one [i]. *)
Definition propagate_cell (self : t)
    (acc : option (list SignalType.t)) (i : Z)
    : option (list SignalType.t) :=
  new_cable ← acc;
  signals ← heard self i;
  let signals := driven self i signals in
  setitem_attr (λ _, settled signals) new_cable i.

(** [propagate_signal] *)
Definition propagate_signal (self : t) : option t :=
  new_cable ←
    foldl (propagate_cell self)
          (Some (replicate (Z.to_nat (cable_length self)) SignalType.IDLE))
          (seqZ 0 (cable_length self));
  Some (set_cable new_cable self).

(** The five statements that start a transmission, the same in the
    branches for [IDLE] and for [LISTENING]. *)
Definition start (node : EthernetNode.t) (stats : Statistics.t)
    : option (EthernetNode.t * Statistics.t) :=
  let node := EthernetNode.set_state NodeState.TRANSMITTING node in
  match EthernetNode.data_to_send node with
  | [] => None
  | frame :: rest =>
    let node := EthernetNode.set_current_frame frame
                  (EthernetNode.set_data_to_send rest node) in
    n ← len (EthernetNode.current_frame node);
    let node := EthernetNode.set_transmission_time n node in
    let node := EthernetNode.set_total_attempts
                  (EthernetNode.total_attempts node + 1) node in
    Some (node,
          Statistics.mk (Statistics.total_transmissions stats + 1)
                        (Statistics.successful_transmissions stats)
                        (Statistics.collisions stats)
                        (Statistics.channel_utilization stats))
  end.

(** [calculate_backoff_time] *)
Definition calculate_backoff_time (self : t) (node : EthernetNode.t)
    (rng : Random) : option (Z * EthernetNode.t * Random) :=
  '(v, node, rng) ← EthernetNode.calculate_backoff node rng;
  Some (v * slot_time self, node, rng).

(** The body of the loop of [update_node_states], for one node. *)
Definition update_node (self : t) (node : EthernetNode.t)
    (stats : Statistics.t) (rng : Random)
    : option (EthernetNode.t * Statistics.t * Random) :=
  match EthernetNode.state node with
  | NodeState.IDLE =>
    if EthernetNode.has_data_to_send node then
      free ← sense_carrier self node;
      if free : bool then
        '(node, stats) ← start node stats; Some (node, stats, rng)
      else Some (EthernetNode.set_state NodeState.LISTENING node, stats, rng)
    else Some (node, stats, rng)
  | NodeState.LISTENING =>
    free ← sense_carrier self node;
    if free : bool then
      '(node, stats) ← start node stats; Some (node, stats, rng)
    else Some (node, stats, rng)
  | NodeState.TRANSMITTING =>
    hit ← detect_collision self node;
    if hit : bool then
      let node := EthernetNode.set_state NodeState.JAMMING node in
      let node := EthernetNode.set_jam_duration 5 node in
      let node := EthernetNode.set_collision_count
                    (EthernetNode.collision_count node + 1) node in
      let node := EthernetNode.set_data_to_send
                    (EthernetNode.current_frame node ::
                     EthernetNode.data_to_send node) node in
      Some (node,
            Statistics.mk (Statistics.total_transmissions stats)
                          (Statistics.successful_transmissions stats)
                          (Statistics.collisions stats + 1)
                          (Statistics.channel_utilization stats),
            rng)
    else
      let node := EthernetNode.set_transmission_time
                    (EthernetNode.transmission_time node - 1) node in
      if decide (EthernetNode.transmission_time node ≤ 0) then
        let node := EthernetNode.set_state NodeState.IDLE node in
        let node := EthernetNode.set_collision_count 0 node in
        let node := EthernetNode.set_successful_transmissions
                      (EthernetNode.successful_transmissions node + 1) node in
        Some (node,
              Statistics.mk (Statistics.total_transmissions stats)
                            (Statistics.successful_transmissions stats + 1)
                            (Statistics.collisions stats)
                            (Statistics.channel_utilization stats),
              rng)
      else Some (node, stats, rng)
  | NodeState.JAMMING =>
    let node := EthernetNode.set_jam_duration
                  (EthernetNode.jam_duration node - 1) node in
    if decide (EthernetNode.jam_duration node ≤ 0) then
      let node := EthernetNode.set_state NodeState.BACKOFF node in
      '(v, node, rng) ← calculate_backoff_time self node rng;
      Some (EthernetNode.set_backoff_time v node, stats, rng)
    else Some (node, stats, rng)
  | NodeState.BACKOFF =>
    let node := EthernetNode.set_backoff_time
                  (EthernetNode.backoff_time node - 1) node in
    if decide (EthernetNode.backoff_time node ≤ 0) then
      Some (EthernetNode.set_state NodeState.IDLE node, stats, rng)
    else Some (node, stats, rng)
  | NodeState.COLLISION_DETECTED => Some (node, stats, rng)
  end.

(** [update_node_states]: the nodes are updated in place, one after the
    other, against the cable of this step. *)
Definition update_one (self : t)
    (acc : option (list EthernetNode.t * Statistics.t * Random))
    (node : EthernetNode.t)
    : option (list EthernetNode.t * Statistics.t * Random) :=
  '(done, stats, rng) ← acc;
  '(node, stats, rng) ← update_node self node stats rng;
  Some (done ++ [node], stats, rng).

Definition update_node_states (self : t) (rng : Random)
    : option (t * Random) :=
  '(nodes, stats, rng) ←
    foldl (update_one self) (Some ([], statistics self, rng)) (nodes self);
  Some (set_statistics stats (set_nodes nodes self), rng).

(** The body of the loop of [add_random_traffic], with [threshold] for
    [probability]. *)
Definition add_traffic (threshold : Z) (self : t)
    (acc : list EthernetNode.t * Random) (node : EthernetNode.t)
    : list EthernetNode.t * Random :=
  let '(done, rng) := acc in
  let '(k, rng) := random rng in
  if bool_decide (k < threshold) &&
     bool_decide (Z.of_nat (length (EthernetNode.data_to_send node)) < 5)
  then
    let '(frame_size, rng) := randint 10 50 rng in
    let frame_data :=
      ("Frame_" +:+ pretty (time_step self) +:+ "_" +:+
       pretty (EthernetNode.node_id node))%string in
    (done ++ [EthernetNode.add_data frame_data node], rng)
  else (done ++ [node], rng).

(** [add_random_traffic] *)
Definition add_random_traffic (threshold : Z) (self : t) (rng : Random)
    : t * Random :=
  let '(nodes, rng) := foldl (add_traffic threshold self) ([], rng) (nodes self) in
  (set_nodes nodes self, rng).

(** [simulate_step] *)
Definition simulate_step (self : t) (rng : Random) : option (t * Random) :=
  self ← propagate_signal self;
  '(self, rng) ← update_node_states self rng;
  Some (set_time_step (time_step self + 1) self, rng).

(** The body of the loop of [run_simulation], and that loop. *)
Definition run_step (threshold : Z) (acc : option (t * Random)) (step : Z)
    : option (t * Random) :=
  '(self, rng) ← acc;
  let '(self, rng) := add_random_traffic threshold self rng in
  simulate_step self rng.

Definition run_simulation (steps threshold : Z) (self : t) (rng : Random)
    : option (t * Random) :=
  foldl (run_step threshold) (Some (self, rng)) (seqZ 0 steps).

End EthernetSimulator.

(** ** Vocabulary of the properties of the second simulator *)

(** A frame of two characters or more. *)
Definition long_frame (f : option string) : Prop :=
  match f with
  | Some s => 2 ≤ Z.of_nat (String.length s)
  | None => False
  end.

(** What a step of the simulation keeps true of a node, on the cable
    [cable] of the simulator: it sits on the cable, queues frames of two
    characters or more, waits only with a frame to send, and while it
    transmits has time left on such a frame, two steps of it when its
    cell is still idle. *)
Definition node_ok (cable : list SignalType.t) (n : EthernetNode.t) : Prop :=
  0 ≤ EthernetNode.position n < Z.of_nat (length cable) ∧
  Forall long_frame (EthernetNode.data_to_send n) ∧
  0 ≤ EthernetNode.collision_count n ∧
  (EthernetNode.state n = NodeState.LISTENING →
   EthernetNode.data_to_send n ≠ []) ∧
  (EthernetNode.state n = NodeState.TRANSMITTING →
   1 ≤ EthernetNode.transmission_time n ∧
   long_frame (EthernetNode.current_frame n) ∧
   (cable !! Z.to_nat (EthernetNode.position n) = Some SignalType.IDLE →
    2 ≤ EthernetNode.transmission_time n)).

Definition sim_ok (s : EthernetSimulator.t) : Prop :=
  Z.of_nat (length (EthernetSimulator.cable s)) =
    EthernetSimulator.cable_length s ∧
  Forall (node_ok (EthernetSimulator.cable s)) (EthernetSimulator.nodes s).

(** The same between [propagate_signal] and [update_node_states]: the
    cell of a transmitting node is busy, and its transmission has two
    steps left unless the cell shows a collision. *)
Definition node_heard (cable : list SignalType.t) (n : EthernetNode.t)
    : Prop :=
  0 ≤ EthernetNode.position n < Z.of_nat (length cable) ∧
  Forall long_frame (EthernetNode.data_to_send n) ∧
  0 ≤ EthernetNode.collision_count n ∧
  (EthernetNode.state n = NodeState.LISTENING →
   EthernetNode.data_to_send n ≠ []) ∧
  (EthernetNode.state n = NodeState.TRANSMITTING →
   1 ≤ EthernetNode.transmission_time n ∧
   long_frame (EthernetNode.current_frame n) ∧
   cable !! Z.to_nat (EthernetNode.position n) ≠ Some SignalType.IDLE ∧
   (cable !! Z.to_nat (EthernetNode.position n) ≠ Some SignalType.COLLISION →
    2 ≤ EthernetNode.transmission_time n)).

(** The counters of delivered frames: that of the statistics and those of
    the nodes. *)
Definition deliveries (s : EthernetSimulator.t) : Z * list Z :=
  (Statistics.successful_transmissions (EthernetSimulator.statistics s),
   EthernetNode.successful_transmissions <$> EthernetSimulator.nodes s).
(** * Properties *)

(** ** Indexing inside the medium *)

Lemma cable_length_pos : 0 < ETHERNET_CABLE_LENGHT.
Proof. reflexivity. Qed.

Lemma py_index_nat (n k : nat) : (k < n)%nat → py_index n (Z.of_nat k) = Some k.
Proof.
  intros Hk. unfold py_index.
  rewrite decide_True by lia. by rewrite Nat2Z.id.
Qed.

Lemma py_index_out (n : nat) (i : Z) :
  i < - Z.of_nat n ∨ Z.of_nat n ≤ i → py_index n i = None.
Proof.
  intros Hi. unfold py_index. rewrite !decide_False by lia. done.
Qed.

Lemma getitem_nat {A} (l : list A) (k : nat) (x : A) :
  l !! k = Some x → getitem l (Z.of_nat k) = Some x.
Proof.
  intros Hx. unfold getitem.
  rewrite py_index_nat by (by eapply lookup_lt_Some). done.
Qed.

Lemma setitem_attr_nat {A} (f : A → A) (l : list A) (k : nat) :
  (k < length l)%nat → setitem_attr f l (Z.of_nat k) = Some (alter f k l).
Proof. intros Hk. unfold setitem_attr. by rewrite py_index_nat. Qed.

Lemma py_index_lt (n : nat) (i : Z) (k : nat) :
  py_index n i = Some k → (k < n)%nat.
Proof.
  unfold py_index. repeat case_decide; intros ?; simplify_eq; lia.
Qed.

Lemma setitem_attr_length {A} (f : A → A) (l l' : list A) (i : Z) :
  setitem_attr f l i = Some l' → length l' = length l.
Proof.
  unfold setitem_attr. destruct (py_index _ _); simpl; [|done].
  intros ?; simplify_eq. by rewrite length_alter.
Qed.

Lemma medium_spec (cable : list CableCell.t) :
  medium cable ↔
  Z.of_nat (length cable) = ETHERNET_CABLE_LENGHT ∧
  ∀ i c, cable !! i = Some c → CableCell.pos c = Z.of_nat i.
Proof.
  pose proof cable_length_pos as HN. unfold medium. split.
  - intros Hm.
    assert (Hlen : Z.of_nat (length cable) = ETHERNET_CABLE_LENGHT).
    { rewrite <- (length_fmap CableCell.pos), Hm, length_seqZ. lia. }
    split; [done|]. intros i c Hc.
    assert (Hi : (CableCell.pos <$> cable) !! i = Some (CableCell.pos c))
      by (by rewrite list_lookup_fmap, Hc).
    rewrite Hm in Hi. apply lookup_seqZ in Hi. lia.
  - intros [Hlen Hpos]. apply list_eq. intros i.
    rewrite list_lookup_fmap.
    destruct (cable !! i) as [c|] eqn:Hc; simpl.
    + pose proof (lookup_lt_Some _ _ _ Hc).
      rewrite lookup_seqZ_lt by lia. f_equal. rewrite (Hpos _ _ Hc). lia.
    + apply lookup_ge_None in Hc. by rewrite lookup_seqZ_ge by lia.
Qed.

Lemma alter_out_of_range {A} (f : A → A) (l : list A) (i : nat) :
  (length l ≤ i)%nat → alter f i l = l.
Proof.
  intros Hi. rewrite <- (list_alter_id id l i) at 2 by done.
  apply list_alter_ext; [|done].
  intros x Hx. apply lookup_lt_Some in Hx. lia.
Qed.

Lemma inn_out (S L : signal) : inn S L = out L S.
Proof. by destruct S, L. Qed.

(** ** The line of the device positions *)

Lemma device_line_fold (ds : list Device.t) (line : list string) :
  Z.of_nat (length line) = ETHERNET_CABLE_LENGHT →
  Forall on_medium ds →
  is_Some (foldl (λ acc dev,
                    line ← acc;
                    setitem_attr (λ _, Device.str dev) line (Device.pos dev))
                 (Some line) ds).
Proof.
  revert line. induction ds as [|d ds IH]; intros line Hlen Hds; [done|].
  apply Forall_cons in Hds as [Hd Hds]. cbn [foldl mbind option_bind].
  unfold on_medium in Hd.
  rewrite <- (Z2Nat.id (Device.pos d)) by lia.
  rewrite setitem_attr_nat by lia.
  apply IH; [by rewrite length_alter|done].
Qed.

Lemma device_line_total (ds : list Device.t) :
  Forall on_medium ds → is_Some (device_line ds).
Proof.
  intros Hds. apply device_line_fold; [reflexivity|done].
Qed.

Lemma device_line_fold_None (ds : list Device.t) :
  foldl (λ acc dev,
           line ← acc;
           setitem_attr (λ _, Device.str dev) line (Device.pos dev))
        None ds = None.
Proof. induction ds as [|d ds IH]; [done|]. apply IH. Qed.

Lemma device_line_fold_off (ds : list Device.t) (d : Device.t)
    (acc : option (list string)) :
  (∀ line, acc = Some line → Z.of_nat (length line) = ETHERNET_CABLE_LENGHT) →
  d ∈ ds →
  Device.pos d < - ETHERNET_CABLE_LENGHT ∨ ETHERNET_CABLE_LENGHT ≤ Device.pos d →
  foldl (λ acc dev,
           line ← acc;
           setitem_attr (λ _, Device.str dev) line (Device.pos dev))
        acc ds = None.
Proof.
  revert acc. induction ds as [|d0 ds IH]; intros acc Hacc Hin Hoff.
  - by apply elem_of_nil in Hin.
  - cbn [foldl]. apply elem_of_cons in Hin as [<-|Hin].
    + replace (acc ≫= _) with (@None (list string));
        [apply device_line_fold_None|].
      destruct acc as [line|]; [|done]. cbn [mbind option_bind].
      unfold setitem_attr. rewrite py_index_out; [done|].
      rewrite (Hacc line eq_refl). lia.
    + apply IH; [|done..].
      intros line' Hl. destruct acc as [line|]; [|done].
      cbn [mbind option_bind] in Hl.
      apply setitem_attr_length in Hl. rewrite Hl. by apply Hacc.
Qed.

Lemma device_line_off (ds : list Device.t) (d : Device.t) :
  d ∈ ds →
  Device.pos d < - ETHERNET_CABLE_LENGHT ∨ ETHERNET_CABLE_LENGHT ≤ Device.pos d →
  device_line ds = None.
Proof.
  intros Hin Hoff. apply (device_line_fold_off ds d); [|done..].
  intros line [= <-]. reflexivity.
Qed.

Section one_call.
Context (cable : list CableCell.t) (i : nat) (self : CableCell.t).
Hypothesis Hlen : Z.of_nat (length cable) = ETHERNET_CABLE_LENGHT.
Hypothesis Hself : cable !! i = Some self.
Hypothesis Hpos : CableCell.pos self = Z.of_nat i.

Local Lemma i_lt : (i < length cable)%nat.
Proof. by eapply lookup_lt_Some. Qed.

Lemma propagate_left_effect (new_cable : list CableCell.t) :
  length new_cable = length cable →
  CableCell.propagate_left self cable new_cable =
  Some (alter (write_right (inn (leftward cable i) (from_left cable i))) i
          (match i with
           | O => new_cable
           | S k => alter (write_left (out (leftward cable i) (rightward cable k)))
                      k new_cable
           end)).
Proof.
  intros Hnew. pose proof i_lt as Hi.
  unfold CableCell.propagate_left. rewrite Hpos.
  destruct i as [|k].
  - rewrite decide_False by lia. simpl. unfold inn.
    rewrite andb_false_r. simpl. unfold write_right. simpl.
    by rewrite list_alter_id.
  - rewrite decide_True by lia.
    replace (Z.of_nat (S k) - 1) with (Z.of_nat k) by lia.
    destruct (cable !! k) as [lft|] eqn:Hl;
      [|apply lookup_ge_None in Hl; lia].
    rewrite (getitem_nat _ _ _ Hl). simpl.
    destruct (new_cable !! k) as [nl|] eqn:Hnl;
      [|apply lookup_ge_None in Hnl; lia].
    rewrite (getitem_nat _ _ _ Hnl). simpl.
    unfold leftward, rightward, inn, out, write_left, write_right.
    rewrite Hself, Hl. simpl.
    destruct (CableCell.left self) as [s|], (CableCell.right lft) as [l|]; simpl.
    + rewrite setitem_attr_nat by lia. simpl.
      rewrite setitem_attr_nat by (rewrite length_alter; lia). done.
    + rewrite setitem_attr_nat by lia.
      f_equal. symmetry. by apply list_alter_id.
    + rewrite setitem_attr_nat by lia.
      f_equal. f_equal. symmetry. by apply list_alter_id.
    + f_equal. symmetry. rewrite list_alter_id by done. by rewrite list_alter_id.
Qed.

Lemma propagate_right_effect (new_cable : list CableCell.t) :
length new_cable = length cable →
CableCell.propagate_right self cable new_cable =
Some (alter (write_left (inn (rightward cable i) (leftward cable (S i)))) i
        (alter (write_right (out (rightward cable i) (leftward cable (S i))))
           (S i) new_cable)).
Proof.
intros Hnew. pose proof i_lt as Hi.
unfold CableCell.propagate_right. rewrite Hpos.
destruct (cable !! S i) as [rgt|] eqn:Hr.
- pose proof (lookup_lt_Some _ _ _ Hr) as Hlt.
  rewrite decide_True by lia.
  replace (Z.of_nat i + 1) with (Z.of_nat (S i)) by lia.
  rewrite (getitem_nat _ _ _ Hr). simpl.
  destruct (new_cable !! S i) as [nr|] eqn:Hnr;
    [|apply lookup_ge_None in Hnr; lia].
  rewrite (getitem_nat _ _ _ Hnr). simpl.
  unfold leftward, rightward, inn, out, write_left, write_right.
  rewrite Hself, Hr. simpl.
  destruct (CableCell.right self) as [s|], (CableCell.left rgt) as [l|]; simpl.
  + rewrite setitem_attr_nat by lia. simpl.
    rewrite setitem_attr_nat by (rewrite length_alter; lia). done.
  + rewrite setitem_attr_nat by lia.
    f_equal. symmetry. by apply list_alter_id.
  + rewrite setitem_attr_nat by lia.
    f_equal. f_equal. symmetry. by apply list_alter_id.
  + f_equal. symmetry. rewrite list_alter_id by done. by rewrite list_alter_id.
- apply lookup_ge_None in Hr.
  rewrite decide_False by lia. unfold leftward, inn, out.
  rewrite (lookup_ge_None_2 cable (S i)) by lia. simpl.
  rewrite !andb_false_r. simpl. unfold write_left, write_right.
  rewrite (list_alter_id _ _ i) by done.
  rewrite alter_out_of_range by lia. done.
Qed.

(** The whole call, cell by cell of [new_cable]. *)
Lemma propagate_effect (new_cable : list CableCell.t) :
  length new_cable = length cable →
  CableCell.propagate self cable new_cable =
  Some (imap (call_effect cable i) new_cable).
Proof.
  intros Hnew. pose proof i_lt as Hi.
  unfold CableCell.propagate.
  destruct (new_cable !! i) as [ns|] eqn:Hns;
    [|apply lookup_ge_None in Hns; lia].
  rewrite Hpos, (getitem_nat _ _ _ Hns). simpl.
  rewrite <- Hpos, propagate_left_effect by done. simpl.
  rewrite propagate_right_effect
    by (rewrite length_alter; destruct i; rewrite ?length_alter; done).
  simpl. rewrite Hpos, setitem_attr_nat
    by (rewrite !length_alter; destruct i; rewrite ?length_alter; lia).
  f_equal. apply list_eq. intros j.
  rewrite list_lookup_imap. unfold call_effect.
  rewrite !list_lookup_alter.
  destruct i as [|k]; simpl; rewrite ?list_lookup_alter;
    repeat case_decide; try lia; subst;
    clear Hns;
    repeat match goal with
           | |- context [new_cable !! ?x] => destruct (new_cable !! x)
           end; done.
Qed.
End one_call.


(** ** C1: the three-way rule and the collapse of a cell *)

Lemma leftward_imap (f : nat → CableCell.t → CableCell.t)
    (nc : list CableCell.t) (j : nat) (c : CableCell.t) :
  nc !! j = Some c → leftward (imap f nc) j = CableCell.left (f j c).
Proof. intros H. unfold leftward. by rewrite list_lookup_imap, H. Qed.

Lemma rightward_imap (f : nat → CableCell.t → CableCell.t)
    (nc : list CableCell.t) (j : nat) (c : CableCell.t) :
  nc !! j = Some c → rightward (imap f nc) j = CableCell.right (f j c).
Proof. intros H. unfold rightward. by rewrite list_lookup_imap, H. Qed.

Ltac by_cases :=
  unfold collision, inn, out, write_left, write_right, CableCell.collapse,
    CableCell.set_left, CableCell.set_right;
  simpl; auto; done.

Lemma new_medium_seq (n : nat) :
  Z.of_nat n = ETHERNET_CABLE_LENGHT →
  new_medium = (λ j, CableCell.init (Z.of_nat j)) <$> seq 0 n.
Proof.
  intros Hn. unfold new_medium. rewrite <- Hn.
  apply list_eq. intros j. rewrite !list_lookup_fmap.
  destruct (decide (j < n)%nat) as [Hj|Hj].
  - rewrite lookup_seqZ_lt by lia. rewrite lookup_seq_lt by done. simpl.
    do 2 f_equal. 
  - rewrite lookup_seqZ_ge by lia. rewrite lookup_seq_ge by lia. done.
Qed.

Ltac name_signals :=
  repeat match goal with
    | |- context [leftward ?c ?j] =>
        let x := fresh "l" in generalize (leftward c j); intros x
    | |- context [rightward ?c ?j] =>
        let x := fresh "r" in generalize (rightward c j); intros x
    | |- context [from_left ?c ?j] =>
        let x := fresh "r" in generalize (from_left c j); intros x
    end.

Ltac destruct_signals :=
  repeat match goal with x : signal |- _ => destruct x end.

Lemma stage_step (cable : list CableCell.t) (k j : nat) :
  call_effect cable k j (stage cable k j) = stage cable (S k) j.
Proof.
  unfold call_effect, stage, next_cell, resolved, arrive_left, arrive_right.
  repeat case_decide; try lia; subst; simpl;
    name_signals; destruct_signals; by_cases.
Qed.

Lemma propagate_upto_S (k : nat) (cable : list CableCell.t) (self : CableCell.t) :
  cable !! k = Some self →
  propagate_upto (S k) cable =
  nc ← propagate_upto k cable; CableCell.propagate self cable nc.
Proof.
  intros Hk. unfold propagate_upto.
  by rewrite (take_S_r _ _ _ Hk), foldl_snoc.
Qed.

Lemma imap_fmap_seq {A} (f : nat → A → A) (g : nat → A) (n : nat) :
  imap f (g <$> seq 0 n) = (λ j, f j (g j)) <$> seq 0 n.
Proof.
  apply list_eq. intros j.
  rewrite list_lookup_imap, !list_lookup_fmap.
  destruct (decide (j < n)%nat).
  - by rewrite lookup_seq_lt.
  - by rewrite lookup_seq_ge by lia.
Qed.

(** The state of [new_cable] after [k] calls, in closed form. *)
Lemma propagate_upto_stage (cable : list CableCell.t) (k : nat) :
  medium cable → (k ≤ length cable)%nat →
  propagate_upto k cable = Some (stage cable k <$> seq 0 (length cable)).
Proof.
  intros [Hlen Hpos]%medium_spec. induction k as [|k IH]; intros Hk.
  - unfold propagate_upto. simpl. f_equal.
    rewrite (new_medium_seq _ Hlen).
    apply list_fmap_ext. intros i j Hj. apply lookup_seq in Hj as [-> ?].
    simpl. unfold stage. repeat case_decide; try lia; try done.
    subst. unfold arrive_right, inn. simpl. by rewrite andb_false_r.
  - destruct (cable !! k) as [self|] eqn:Hself;
      [|apply lookup_ge_None in Hself; lia].
    rewrite (propagate_upto_S _ _ _ Hself), IH by lia. simpl.
    rewrite (propagate_effect cable k self Hlen Hself (Hpos _ _ Hself))
      by (by rewrite length_fmap, length_seq).
    rewrite imap_fmap_seq. f_equal.
    apply list_fmap_ext. intros i j _. apply stage_step.
Qed.

Lemma propagate_upto_all (cable : list CableCell.t) :
  propagate_upto (length cable) cable = propagate_all cable.
Proof. unfold propagate_upto, propagate_all. by rewrite firstn_all. Qed.

(** One full pass, in closed form. *)
Lemma propagate_all_next (cable : list CableCell.t) :
  medium cable → propagate_all cable = Some (next_medium cable).
Proof.
  intros Hm. rewrite <- propagate_upto_all.
  rewrite propagate_upto_stage by done. f_equal.
  apply list_fmap_ext. intros i j Hj. apply lookup_seq in Hj as [-> Hj].
  simpl. unfold stage. repeat case_decide; try lia; try done.
  unfold next_cell, resolved, arrive_left, leftward.
  rewrite (lookup_ge_None_2 cable (S i)) by lia.
  unfold inn. simpl. rewrite andb_false_r. done.
Qed.

(** The three-way rule read off the medium a whole pass produces: for a
    cell [S k] and its left neighbour [k], with [S] and [L] as in
    [propagate].  The neighbour's left side is exactly what the rule
    writes; the cell's right side is what the rule writes unless the
    cell was collapsed. *)
Lemma three_way_rule_after_pass (cable : list CableCell.t) (k : nat) :
  medium cable → (S k < length cable)%nat →
  let S := leftward cable (S k) in
  let L := rightward cable k in
  leftward (next_medium cable) k = out S L ∧
  (rightward (next_medium cable) (Datatypes.S k) = inn S L ∨
   rightward (next_medium cable) (Datatypes.S k) = collision).
Proof.
  intros Hm Hk. simpl. unfold leftward at 1, rightward at 2 4.
  unfold next_medium. rewrite !list_lookup_fmap, !lookup_seq_lt by lia.
  simpl. unfold arrive_left, resolved, arrive_right, CableCell.collapse.
  simpl. rewrite inn_out. split; [done|].
  generalize (arrive_left cable (Datatypes.S k)). intros a.
  name_signals; destruct_signals; unfold inn, collision; simpl; auto.
Qed.

Lemma length_next_medium (cable : list CableCell.t) :
  length (next_medium cable) = length cable.
Proof. unfold next_medium. by rewrite length_fmap, length_seq. Qed.

Lemma lookup_next_medium (cable : list CableCell.t) (j : nat) :
  (j < length cable)%nat → next_medium cable !! j = Some (next_cell cable j).
Proof.
  intros Hj. unfold next_medium.
  by rewrite list_lookup_fmap, lookup_seq_lt.
Qed.

Lemma next_medium_medium (cable : list CableCell.t) :
  medium cable → medium (next_medium cable).
Proof.
  intros [Hlen Hpos]%medium_spec. apply medium_spec. split.
  - by rewrite length_next_medium.
  - intros i c Hc.
    pose proof (lookup_lt_Some _ _ _ Hc) as Hi.
    rewrite length_next_medium in Hi.
    rewrite lookup_next_medium in Hc by done. by inversion Hc.
Qed.
Lemma cells_length (cable : list CableCell.t) :
  medium cable → length cable = cells.
Proof. intros [Hlen _]%medium_spec. unfold cells. lia. Qed.

(** C1 fails on the code in its last clause.  The three cases of the
    rule hold in the medium a pass produces ([three_way_rule_after_pass]),
    but a cell that ends with both sides present is not always at
    collision on both: when cell [j] sends nothing to the right, its
    right neighbour sends [c] to the left and its left neighbour sends
    something to the right, the pass ends with the plain [c] on the left
    side of cell [j] and the collision marker on its right side only.
    The call of cell [j] did collapse the cell; the call of cell [j + 1]
    wrote [c] over its left side afterwards. *)
Theorem collapse_lost_in_pass
    (cable : list CableCell.t) (j : nat) (c : string) :
  medium cable → (S j < cells)%nat →
  rightward cable j = None →
  leftward cable (S j) = Some c → c ≠ "#"%string →
  from_left cable j ≠ None →
  ∃ nc,
    propagate_all cable = Some nc ∧
    leftward nc j = Some c ∧ rightward nc j = collision ∧
    leftward nc j ≠ collision.
Proof.
  intros Hm Hj Hr Hl Hc Hf.
  pose proof (cells_length _ Hm) as Hlen.
  exists (next_medium cable). split; [by apply propagate_all_next|].
  assert (HL : leftward (next_medium cable) j = Some c).
  { unfold leftward at 1. rewrite lookup_next_medium by lia.
    cbn [mbind option_bind next_cell CableCell.left].
    unfold arrive_left. by rewrite Hr, Hl. }
  assert (HR : rightward (next_medium cable) j = collision).
  { unfold rightward at 1. rewrite lookup_next_medium by lia.
    cbn [mbind option_bind next_cell CableCell.right].
    unfold resolved, arrive_left, arrive_right. rewrite Hr, Hl.
    destruct (from_left cable j) as [f|]; [|done].
    unfold CableCell.collapse, inn, collision.
    by destruct (leftward cable j). }
  rewrite HL, HR. split; [done|]. split; [done|].
  unfold collision. by intros [= ->].
Qed.

Lemma collapse_lost_in_pass_witness :
  ∃ s nc,
    main_after late_collision_gen 70 = Some s ∧
    propagate_all (cable s) = Some nc ∧
    leftward nc 9 = Some "C"%string ∧ rightward nc 9 = collision ∧
    leftward nc 9 ≠ collision.
Proof.
  assert (Hs : ∃ s, main_after late_collision_gen 70 = Some s ∧
                medium (cable s) ∧ rightward (cable s) 9 = None ∧
                leftward (cable s) 10 = Some "C"%string ∧
                from_left (cable s) 9 ≠ None).
  { eexists. split; [vm_compute; reflexivity|].
    split; [vm_compute; reflexivity|].
    split; [vm_compute; reflexivity|].
    split; [vm_compute; reflexivity|].
    vm_compute. discriminate. }
  destruct Hs as (s & Hs & Hm & Hr & Hl & Hf).
  destruct (collapse_lost_in_pass (cable s) 9 "C" Hm) as (nc & Hnc & Hrest);
    [vm_compute; lia|exact Hr|exact Hl|discriminate|exact Hf|].
  exists s, nc. exact (conj Hs (conj Hnc Hrest)).
Defined.

(** ** C10: the ends of the medium absorb *)

Lemma cells_pos : (0 < cells)%nat.
Proof. unfold cells. pose proof cable_length_pos. lia. Qed.

Lemma alter_medium (f : CableCell.t → CableCell.t) (i : nat)
    (cable : list CableCell.t) :
  (∀ c, CableCell.pos (f c) = CableCell.pos c) →
  medium cable → medium (alter f i cable).
Proof.
  intros Hf [Hlen Hpos]%medium_spec. apply medium_spec. split.
  - by rewrite length_alter.
  - intros j c. rewrite list_lookup_alter.
    case_decide; subst; [|by apply Hpos].
    destruct (cable !! j) as [c0|] eqn:E; simpl; [|done].
    intros [= <-]. rewrite Hf. by apply Hpos.
Qed.

Lemma with_ends_medium (v w : signal) (cable : list CableCell.t) :
  medium cable → medium (with_ends v w cable).
Proof. intros Hm. unfold with_ends. by do 2 (apply alter_medium; [done|]). Qed.

Lemma with_ends_leftward (v w : signal) (cable : list CableCell.t) (j : nat) :
  leftward (with_ends v w cable) (S j) = leftward cable (S j).
Proof.
  unfold leftward, with_ends. rewrite !list_lookup_alter.
  repeat case_decide; try lia; try done.
  rewrite H0. by destruct (cable !! _).
Qed.

Lemma with_ends_rightward (v w : signal) (cable : list CableCell.t) (j : nat) :
  (S j < length cable)%nat →
  rightward (with_ends v w cable) j = rightward cable j.
Proof.
  intros Hj. unfold rightward, with_ends. rewrite !list_lookup_alter.
  repeat case_decide; try lia; try done.
  subst. by destruct (cable !! _).
Qed.

Lemma inn_None (S : signal) : inn S None = None.
Proof. by destruct S. Qed.

Lemma with_ends_next (v w : signal) (cable : list CableCell.t) :
  next_medium (with_ends v w cable) = next_medium cable.
Proof.
  unfold next_medium.
  assert (Hl : length (with_ends v w cable) = length cable)
    by (unfold with_ends; by rewrite !length_alter).
  rewrite Hl. apply list_fmap_ext. intros i j Hj.
  apply lookup_seq in Hj as [-> Hj]. simpl.
  assert (Hal : arrive_left (with_ends v w cable) i = arrive_left cable i).
  { unfold arrive_left. rewrite with_ends_leftward.
    destruct (decide (S i < length cable)%nat).
    - by rewrite with_ends_rightward.
    - unfold leftward. rewrite (lookup_ge_None_2 cable (S i)) by lia.
      simpl. by rewrite !inn_None. }
  assert (Har : arrive_right (with_ends v w cable) i = arrive_right cable i).
  { unfold arrive_right. destruct i as [|i]; simpl.
    - by rewrite !inn_None.
    - rewrite with_ends_leftward, with_ends_rightward by lia. done. }
  unfold next_cell, resolved. by rewrite Hal, Har.
Qed.

(** C10.  Whatever left-bound signal cell 0 and right-bound signal cell
    [N-1] hold, the next medium is the one the pass computes without
    them, and so is every later one: no rule carries them on.  Nothing
    comes back from an end either: the right side of cell 0 and the left
    side of cell [N-1] are empty after the pass. *)
Theorem ends_absorb
    (cable : list CableCell.t) (v w : signal) (k : nat) :
  medium cable → (1 ≤ k)%nat →
  passes k (with_ends v w cable) = passes k cable ∧
  ∃ nc, propagate_all (with_ends v w cable) = Some nc ∧
        rightward nc 0 = None ∧
        leftward nc (length cable - 1) = None.
Proof.
  intros Hm Hk.
  pose proof (with_ends_medium v w _ Hm) as Hm'.
  pose proof (cells_length _ Hm) as Hlen. pose proof cells_pos as Hc.
  split.
  - destruct k as [|k]; [lia|]. simpl.
    by rewrite !propagate_all_next, with_ends_next by done.
  - rewrite propagate_all_next, with_ends_next by done.
    eexists; split; [done|].
    unfold rightward, leftward.
    rewrite !lookup_next_medium by lia. simpl.
    unfold resolved, arrive_right, arrive_left, leftward. simpl.
    rewrite (lookup_ge_None_2 cable (S (length cable - 1))) by lia.
    simpl. rewrite !inn_None.
    split; [|done].
    unfold CableCell.collapse. simpl. by rewrite andb_false_r.
Qed.

Lemma ends_absorb_witness :
  passes 3 (with_ends (Some "A"%string) (Some "B"%string) new_medium)
  = passes 3 new_medium.
Proof.
  apply (ends_absorb new_medium (Some "A"%string) (Some "B"%string) 3).
  - reflexivity.
  - lia.
Defined.
(** ** C6: a lone signal spreads one cell per pass in both directions *)

Lemma length_pulse (i k : nat) (id : string) : length (pulse i k id) = cells.
Proof. unfold pulse. by rewrite length_fmap, length_seq. Qed.

Lemma lookup_pulse (i k : nat) (id : string) (j : nat) :
  (j < cells)%nat → pulse i k id !! j = Some (pulse_cell i k id j).
Proof. intros Hj. unfold pulse. by rewrite list_lookup_fmap, lookup_seq_lt. Qed.

Lemma lookup_pulse_ge (i k : nat) (id : string) (j : nat) :
  (cells ≤ j)%nat → pulse i k id !! j = None.
Proof. intros Hj. apply lookup_ge_None. by rewrite length_pulse. Qed.

Lemma pulse_medium (i k : nat) (id : string) : medium (pulse i k id).
Proof.
  apply medium_spec. rewrite length_pulse. split.
  - unfold cells. pose proof cable_length_pos. lia.
  - intros j c Hc. pose proof (lookup_lt_Some _ _ _ Hc) as Hj.
    rewrite length_pulse in Hj. rewrite lookup_pulse in Hc by done.
    by inversion Hc.
Qed.

Lemma new_medium_medium : medium new_medium.
Proof. reflexivity. Qed.

Lemma injected_pulse (i : nat) (id : string) :
  injected i id = pulse i 0 id.
Proof.
  unfold injected, pulse.
  rewrite (new_medium_seq cells) by (unfold cells; pose proof cable_length_pos; lia).
  apply list_eq. intros j.
  rewrite list_lookup_alter, !list_lookup_fmap.
  case_decide; subst; destruct (decide (j < cells)%nat).
  - rewrite !lookup_seq_lt by lia. simpl. unfold pulse_cell.
    rewrite !decide_True by lia. done.
  - by rewrite !lookup_seq_ge by lia.
  - rewrite !lookup_seq_lt by lia. simpl. unfold pulse_cell.
    rewrite !decide_False by lia. done.
  - by rewrite !lookup_seq_ge by lia.
Qed.

Lemma leftward_pulse (i k : nat) (id : string) (j : nat) :
  leftward (pulse i k id) j =
  if decide (j < cells ∧ j + k = i)%nat then Some id else None.
Proof.
  unfold leftward. destruct (decide (j < cells)%nat).
  - rewrite lookup_pulse by done. simpl.
    repeat case_decide; try lia; done.
  - rewrite lookup_pulse_ge by lia. simpl. rewrite decide_False by lia. done.
Qed.

Lemma rightward_pulse (i k : nat) (id : string) (j : nat) :
  rightward (pulse i k id) j =
  if decide (j < cells ∧ j = i + k)%nat then Some id else None.
Proof.
  unfold rightward. destruct (decide (j < cells)%nat).
  - rewrite lookup_pulse by done. simpl.
    repeat case_decide; try lia; done.
  - rewrite lookup_pulse_ge by lia. simpl. rewrite decide_False by lia. done.
Qed.

Lemma pulse_next (i k : nat) (id : string) :
  (i < cells)%nat → next_medium (pulse i k id) = pulse i (S k) id.
Proof.
  intros Hi. unfold next_medium. rewrite length_pulse. unfold pulse at 2.
  apply list_fmap_ext. intros j ? Hj. apply lookup_seq in Hj as [-> Hj].
  unfold next_cell, resolved, arrive_left, arrive_right, pulse_cell.
  destruct j as [|j]; simpl; rewrite !leftward_pulse, ?rightward_pulse;
    repeat case_decide; try lia; done.
Qed.

Lemma passes_pulse (i k0 k : nat) (id : string) :
  (i < cells)%nat → passes k (pulse i k0 id) = Some (pulse i (k0 + k) id).
Proof.
  intros Hi. revert k0. induction k as [|k IH]; intros k0; cbn [passes].
  - by rewrite Nat.add_0_r.
  - rewrite propagate_all_next by apply pulse_medium. cbn [mbind option_bind].
    rewrite pulse_next, IH by done. do 2 f_equal. lia.
Qed.

(** C6.  With the signal [id] freshly injected into cell [i] of an idle
    medium and no further injection, after [k] passes, for every [k]
    that keeps both fronts on the medium ([k ≤ i] and [i + k < N]), the
    signal is on the left-bound side of cell [i - k] and on the
    right-bound side of cell [i + k], both cells show it, and every
    other cell (farther out or in between) is empty and shows blank. *)
Theorem propagation_symmetry (i k : nat) (id : string) :
  (k ≤ i)%nat → (i + k < cells)%nat →
  ∃ m, passes k (injected i id) = Some m ∧ length m = cells ∧
    ∀ j c, m !! j = Some c →
      CableCell.left c = (if decide (j = i - k)%nat then Some id else None) ∧
      CableCell.right c = (if decide (j = i + k)%nat then Some id else None) ∧
      CableCell.str c =
        (if decide (j = i - k ∨ j = i + k)%nat then id else "_"%string).
Proof.
  intros Hk Hik.
  rewrite injected_pulse, passes_pulse by lia. simpl.
  eexists; split; [done|]. split; [apply length_pulse|].
  intros j c Hc. pose proof (lookup_lt_Some _ _ _ Hc) as Hj.
  rewrite length_pulse in Hj. rewrite lookup_pulse in Hc by done.
  inversion Hc; subst c. unfold CableCell.str, pulse_cell. simpl.
  repeat case_decide; try lia; try done; naive_solver lia.
Qed.

Lemma propagation_symmetry_witness :
  ∃ m, passes 4 (injected 9 "B") = Some m ∧
       render m = "_____B_______B______"%string.
Proof.
  destruct (propagation_symmetry 9 4 "B"%string) as (m & Hm & Hlen & Hcells).
  - lia.
  - vm_compute. lia.
  - exists m. split; [done|]. vm_compute in Hm. by inversion Hm.
Defined.
(** ** C3: the response to a detected collision and the backoff period *)

Lemma choice_1_2 (rng : Random) :
  ∃ m, choice [1; 2] rng =
         Some (m, mkRandom (gen rng) (S (drawn rng))) ∧
       (m = 1 ∨ m = 2).
Proof.
  unfold choice, next_raw. cbn [length].
  pose proof (Nat.mod_upper_bound (gen rng (drawn rng)) 2) as Hb.
  destruct (gen rng (drawn rng) `mod` 2)%nat as [|[|n]] eqn:E; simpl.
  - eexists; split; [done|]. by left.
  - eexists; split; [done|]. by right.
  - lia.
Qed.

(** C3.  A transmission with [wait > 0] and [sleep = 0] whose cell shows
    the collision marker on either side sets [sleep] to [m] times the
    medium length, where [m] is the element of [[1, 2]] the generator
    picks, sets [wait] to the medium length and [left] to [len], leaves
    the cable alone and returns false.  With [wait > 0] and [sleep > 0],
    [transmit] only decrements [sleep]: the cable is untouched (it is not
    even read), nothing is drawn, and false is returned. *)
Theorem collision_backoff
    (t : Transmission.t) (cable : list CableCell.t) (rng : Random) :
  0 < Transmission.wait t →
  (Transmission.sleep t = 0 →
   ∀ c, getitem cable (Transmission.pos t) = Some c →
     CableCell.left c = collision ∨ CableCell.right c = collision →
     ∃ m rng',
       choice [1; 2] rng = Some (m, rng') ∧ (m = 1 ∨ m = 2) ∧
       Transmission.transmit t cable rng =
       Some (false,
             Transmission.mk (Transmission.src t) (Transmission.pos t)
               (Transmission.len t) (Transmission.len t)
               ETHERNET_CABLE_LENGHT (m * ETHERNET_CABLE_LENGHT),
             cable, rng')) ∧
  (0 < Transmission.sleep t →
   Transmission.transmit t cable rng =
   Some (false, Transmission.set_sleep (Transmission.sleep t - 1) t, cable, rng)).
Proof.
  intros Hw. unfold Transmission.transmit.
  rewrite decide_False by lia. split.
  - intros Hs c Hc Hcol.
    rewrite decide_False by lia. rewrite Hc. simpl.
    rewrite decide_True by done.
    destruct (choice_1_2 rng) as (m & Hm & Hm12).
    exists m, (mkRandom (gen rng) (S (drawn rng))).
    rewrite Hm. simpl. done.
  - intros Hs. by rewrite decide_True by lia.
Qed.

Lemma collision_backoff_witness :
  let t := Transmission.init "A" 3 7 in
  let cable := alter (CableCell.set_left collision) 3%nat new_medium in
  let rng := mkRandom (λ _, 1%nat) 0 in
  Transmission.transmit t cable rng =
    Some (false, Transmission.mk "A" 3 7 7 20 40, cable, mkRandom (λ _, 1%nat) 1) ∧
  Transmission.transmit (Transmission.mk "A" 3 7 7 20 40) cable rng =
    Some (false, Transmission.mk "A" 3 7 7 20 39, cable, rng).
Proof.
  intros t cable rng. split.
  - destruct (collision_backoff t cable rng) as [H _]; [reflexivity|].
    destruct (H eq_refl (CableCell.mk 3 collision None))
      as (m & rng' & Hc & _ & Ht); [reflexivity | by left |].
    vm_compute in Hc. inversion Hc; subst. exact Ht.
  - destruct (collision_backoff (Transmission.mk "A" 3 7 7 20 40) cable rng)
      as [_ H]; [reflexivity|].
    apply H. reflexivity.
Defined.
(** ** C4: what [refresh] returns and when it starts the next entry *)

Lemma start_scheduled_flag (d d' : Device.t) (cable cable' : list CableCell.t)
    (rng rng' : Random) (b : bool) :
  Device.transmission d = None →
  Device.start_scheduled d cable rng = Some (b, d', cable', rng') →
  b = false ↔ Device.transmissions d' = [] ∧ Device.transmission d' = None.
Proof.
  intros Hnone. unfold Device.start_scheduled.
  destruct (Device.transmissions d) as [|[r t0] rest] eqn:Hq.
  - intros ?; simplify_eq. by rewrite Hq, Hnone.
  - case_decide.
    + destruct (Transmission.transmit t0 cable rng) as [[[[? t1] ?] ?]|];
        simpl; [|done].
      intros ?; simplify_eq. simpl. split; [done | by intros [??]].
    + intros ?; simplify_eq. rewrite Hq. split; [done | by intros [??]].
Qed.



(** ** C2: a collision mark written during a pass can be overwritten *)

(** C2 fails on the code.  In the run of [main] under
    [late_collision_gen], devices A and C both start sending in round 65
    and their fronts reach cell 9 together in round 71.  In the pass of
    that round the call of cell 9 collapses the cell, both sides at
    collision; the call of cell 10 then writes the plain ["C"] over the
    left side, and the pass ends with it. *)
Lemma collision_overwritten_in_pass :
  ∃ s nc10 nc,
    main_after late_collision_gen 70 = Some s ∧
    propagate_upto 10 (cable s) = Some nc10 ∧
    propagate_all (cable s) = Some nc ∧
    leftward nc10 9 = collision ∧ rightward nc10 9 = collision ∧
    leftward nc 9 = Some "C"%string ∧ rightward nc 9 = collision.
Proof.
  eexists _, _, _.
  split; [vm_compute; reflexivity|].
  split; [vm_compute; reflexivity|].
  split; [vm_compute; reflexivity|].
  vm_compute. done.
Qed.

(** ** C9: collapsing and rendering *)

Lemma propagate_left_length (self : CableCell.t) (cable nc nc' : list CableCell.t) :
  CableCell.propagate_left self cable nc = Some nc' → length nc' = length nc.
Proof.
  unfold CableCell.propagate_left. case_decide; [|by intros ?; simplify_eq].
  destruct (getitem cable _); simpl; [|done].
  destruct (getitem nc _); simpl; [|done].
  repeat case_match; try (by intros ?; simplify_eq);
    try (by apply setitem_attr_length).
  destruct (setitem_attr _ nc _) as [nc1|] eqn:E; simpl; [|done].
  intros E'%setitem_attr_length. apply setitem_attr_length in E. congruence.
Qed.

Lemma propagate_right_length (self : CableCell.t) (cable nc nc' : list CableCell.t) :
  CableCell.propagate_right self cable nc = Some nc' → length nc' = length nc.
Proof.
  unfold CableCell.propagate_right. case_decide; [|by intros ?; simplify_eq].
  destruct (getitem cable _); simpl; [|done].
  destruct (getitem nc _); simpl; [|done].
  repeat case_match; try (by intros ?; simplify_eq);
    try (by apply setitem_attr_length).
  destruct (setitem_attr _ nc _) as [nc1|] eqn:E; simpl; [|done].
  intros E'%setitem_attr_length. apply setitem_attr_length in E. congruence.
Qed.



(** ** C8: nothing is validated at construction *)

Lemma randint_range (a b : Z) (rng : Random) :
  a ≤ b → a ≤ (randint a b rng).1 ≤ b.
Proof.
  intros Hab. unfold randint, next_raw. simpl.
  pose proof (Z.mod_pos_bound (Z.of_nat (gen rng (drawn rng))) (b - a + 1)).
  lia.
Qed.

Lemma make_devices_positions (table : list (string * Z * list Z)) (rng : Random) :
  (λ d, (Device.name d, Device.pos d)) <$> (make_devices table rng).1 =
  (λ e, (e.1.1, e.1.2)) <$> table.
Proof.
  revert rng. induction table as [|[[n p] rs] rest IH]; intros rng; [done|].
  cbn [make_devices]. unfold Device.init.
  destruct (Device.schedule n p rs rng) as [q rng1].
  specialize (IH rng1). destruct (make_devices rest rng1) as [ds rng2].
  simpl in *. by f_equal.
Qed.

Lemma schedule_spec (name : string) (p : Z) (rounds : list Z) (rng : Random) :
  (Device.schedule name p rounds rng).1.*1 = rounds ∧
  Forall (λ q : Z * Transmission.t, 5 ≤ Transmission.len q.2 ≤ 10)
         (Device.schedule name p rounds rng).1.
Proof.
  revert rng. induction rounds as [|r rs IH]; intros rng; [by split|].
  cbn [Device.schedule].
  pose proof (randint_range 5 10 rng ltac:(lia)) as Hl.
  destruct (randint 5 10 rng) as [l rng1]. cbn [fst] in Hl.
  destruct (IH rng1) as [Hr Hq].
  destruct (Device.schedule name p rs rng1) as [q rng2]. cbn [fst] in *.
  split; [by rewrite fmap_cons, Hr|]. by apply Forall_cons.
Qed.

(** What [setup] makes of an entry of the table. *)
Lemma make_devices_spec (table : list (string * Z * list Z)) (rng : Random) :
  Forall2 (λ d e,
             Device.name d = e.1.1 ∧ Device.pos d = e.1.2 ∧
             Device.round d = 0 ∧ Device.transmission d = None ∧
             (Device.transmissions d).*1 = e.2 ∧
             Forall (λ q : Z * Transmission.t, 5 ≤ Transmission.len q.2 ≤ 10)
                    (Device.transmissions d))
          (make_devices table rng).1 table.
Proof.
  revert rng. induction table as [|[[n p] rs] rest IH]; intros rng;
    [by constructor|].
  cbn [make_devices]. unfold Device.init.
  destruct (schedule_spec n p rs rng) as [Hr Hq].
  destruct (Device.schedule n p rs rng) as [q rng1]. cbn [fst] in *.
  specialize (IH rng1). destruct (make_devices rest rng1) as [ds rng2].
  cbn [fst] in *. by constructor.
Qed.

(** A device with nothing under way and something scheduled stays in the
    list, where it is. *)
Lemma refresh_stays (d d' : Device.t) (cable cable' : list CableCell.t)
    (rng rng' : Random) (b : bool) :
  Device.transmission d = None → Device.transmissions d ≠ [] →
  Device.refresh d cable rng = Some (b, d', cable', rng') →
  b = true ∧ Device.pos d' = Device.pos d.
Proof.
  intros Ht Hq. destruct d as [n p rd tr q].
  cbn [Device.transmission Device.transmissions] in Ht, Hq. subst tr.
  unfold Device.refresh, Device.start_scheduled, Device.set_round.
  cbn [Device.transmission Device.transmissions Device.round Device.name
       Device.pos].
  destruct q as [|[r t0] rest]; [done|].
  match goal with |- context [decide ?P] => destruct (decide P) end.
  - destruct (Transmission.transmit _ _ _) as [[[[fin t1] c1] r1]|];
      cbn [mbind option_bind]; [|done].
    by intros [= <- <- <- <-].
  - by intros [= <- <- <- <-].
Qed.

Lemma refresh_all_stays (ds : list Device.t) (d : Device.t) :
  ∀ cable rng live c g,
    refresh_all ds cable rng = Some (live, c, g) →
    d ∈ ds → Device.transmission d = None → Device.transmissions d ≠ [] →
    ∃ d', d' ∈ live ∧ Device.pos d' = Device.pos d.
Proof.
  induction ds as [|d0 ds IH]; intros cable rng live c g Hrun Hin Ht Hq.
  - by apply elem_of_nil in Hin.
  - cbn [refresh_all] in Hrun.
    destruct (Device.refresh d0 cable rng) as [[[[b d1] c1] g1]|] eqn:Hd0;
      cbn [mbind option_bind] in Hrun; [|done].
    destruct (refresh_all ds c1 g1) as [[[live1 c2] g2]|] eqn:Hrest;
      cbn [mbind option_bind] in Hrun; [|done].
    injection Hrun as <- <- <-.
    apply elem_of_cons in Hin as [<-|Hin].
    + destruct (refresh_stays _ _ _ _ _ _ _ Ht Hq Hd0) as [-> Hp].
      exists d1. split; [apply list_elem_of_here|done].
    + destruct (IH _ _ _ _ _ Hrest Hin Ht Hq) as (d' & Hd' & Hp).
      exists d'. split; [|done].
      destruct b; [by apply list_elem_of_further|done].
Qed.

(** C8 as the code has it.  Construction never fails and validates
    nothing: for every device table, empty or with positions off the
    medium, [setup] returns a simulation on an idle medium whose devices
    carry the names and positions of the table unchanged and queue the
    release rounds as given, each with a packet length drawn in 5..10,
    and [Transmission] stores any length as it is given.  With no device
    the loop of [main] ends at once.  A position outside the index range
    of the medium surfaces in the first round: when such a device has a
    transmission scheduled, round 1 raises [IndexError]; for a device
    alone in the table it is raised by [cable[self.pos]] in [transmit]
    when the first release is due in round 1 and by
    [device_line[dev.pos]] when it is due later; and a device alone with
    nothing scheduled is dropped in round 1, its position unused. *)
Theorem construction_never_fails :
  (∀ table rng, ∃ s,
     setup table rng = Some s ∧ cable s = new_medium ∧
     (λ d, (Device.name d, Device.pos d)) <$> devices s =
     (λ e, (e.1.1, e.1.2)) <$> table ∧
     Forall2 (λ d e,
                (Device.transmissions d).*1 = e.2 ∧
                Forall (λ q : Z * Transmission.t,
                          5 ≤ Transmission.len q.2 ≤ 10)
                       (Device.transmissions d))
             (devices s) table) ∧
  (∀ src p l,
     Transmission.len (Transmission.init src p l) = l ∧
     Transmission.left (Transmission.init src p l) = l ∧
     Transmission.pos (Transmission.init src p l) = p) ∧
  (∀ rng n s, setup [] rng = Some s → run n s = Some s) ∧
  (∀ table rng s e,
     setup table rng = Some s → e ∈ table →
     e.1.2 < - ETHERNET_CABLE_LENGHT ∨ ETHERNET_CABLE_LENGHT ≤ e.1.2 →
     e.2 ≠ [] →
     round s = None) ∧
  (∀ name p r rs seed s,
     p < - ETHERNET_CABLE_LENGHT ∨ ETHERNET_CABLE_LENGHT ≤ p →
     setup [(name, p, r :: rs)] seed = Some s →
     ∃ nc,
       propagate_all (cable s) = Some nc ∧
       (r ≤ 1 → refresh_all (devices s) nc (rng s) = None) ∧
       (1 < r → ∃ live c g,
          refresh_all (devices s) nc (rng s) = Some (live, c, g) ∧
          device_line live = None)) ∧
  (∀ name p rng s,
     setup [(name, p, [])] rng = Some s →
     ∃ s', round s = Some s' ∧ devices s' = []).
Proof.
  split; [|split; [|split; [|split; [|split]]]].
  - intros table rng. unfold setup.
    pose proof (make_devices_positions table rng) as H.
    pose proof (make_devices_spec table rng) as H2.
    destruct (make_devices table rng) as [ds rng']. cbn [fst] in H, H2.
    eexists; split; [done|]. cbn [cable devices].
    split; [done|]. split; [done|].
    eapply Forall2_impl; [exact H2|]. by intros d e (_ & _ & _ & _ & ? & ?).
  - done.
  - intros rng n s. unfold setup. simpl. intros ?; simplify_eq.
    by destruct n.
  - intros table seed s e Hs He Hoff Hq. unfold setup in Hs.
    pose proof (make_devices_spec table seed) as H2.
    destruct (make_devices table seed) as [ds rng']. cbn [fst] in H2.
    injection Hs as <-.
    apply list_elem_of_lookup in He as [k He].
    destruct (Forall2_lookup_r _ _ _ _ _ H2 He)
      as (d & Hd & _ & Hp & _ & Ht & Hr & _).
    assert (Hin : d ∈ ds) by (by eapply list_elem_of_lookup_2).
    unfold round. cbn [cable devices rng].
    rewrite propagate_all_next by apply new_medium_medium.
    cbn [mbind option_bind].
    destruct (refresh_all ds _ rng') as [[[live c] g]|] eqn:Hrun;
      cbn [mbind option_bind]; [|done].
    destruct (refresh_all_stays ds d _ _ _ _ _ Hrun Hin Ht)
      as (d' & Hd' & Hp'); [by rewrite <- Hr in Hq; destruct (Device.transmissions d)|].
    rewrite (device_line_off live d'); [done|done|]. by rewrite Hp', Hp.
  - intros name p r rs seed s Hoff. unfold setup. cbn [make_devices].
    unfold Device.init. cbn [Device.schedule].
    destruct (randint 5 10 seed) as [l rng1].
    destruct (Device.schedule name p rs rng1) as [q rng2].
    intros [= <-]. cbn [cable devices rng].
    exists (next_medium new_medium).
    split; [by apply propagate_all_next, new_medium_medium|].
    pose proof cable_length_pos. split.
    + intros Hr. cbn [refresh_all]. unfold Device.refresh.
      cbn [Device.transmission Device.set_round Device.start_scheduled
           Device.transmissions Device.round].
      rewrite decide_True by lia.
      unfold Transmission.transmit, Transmission.init.
      cbn [Transmission.wait Transmission.sleep Transmission.pos].
      rewrite decide_False by lia. rewrite decide_False by lia.
      unfold getitem. rewrite py_index_out; [done|].
      rewrite length_next_medium, (cells_length _ new_medium_medium).
      unfold cells. lia.
    + intros Hr. cbn [refresh_all]. unfold Device.refresh.
      cbn [Device.transmission Device.set_round Device.start_scheduled
           Device.transmissions Device.round].
      rewrite decide_False by lia. cbn [mbind option_bind].
      eexists _, _, _. split; [done|].
      eapply device_line_off; [apply list_elem_of_here|done].
  - intros name p seed s. unfold setup. cbn [make_devices].
    unfold Device.init. cbn [Device.schedule]. intros [= <-].
    unfold round. cbn [cable devices rng].
    rewrite propagate_all_next by apply new_medium_medium.
    cbn [mbind option_bind refresh_all]. unfold Device.refresh.
    cbn [Device.transmission Device.set_round Device.start_scheduled
         Device.transmissions mbind option_bind].
    by eexists.
Qed.

Lemma construction_never_fails_witness :
  (∃ s, setup [("A"%string, 25, [1])] (mkRandom (λ _, 0%nat) 0) = Some s ∧
        round s = None) ∧
  (∃ s, setup [("A"%string, 3, [1]); ("B"%string, 25, [5])]
          (mkRandom (λ _, 0%nat) 0) = Some s ∧
        round s = None).
Proof.
  destruct construction_never_fails as (H1 & _ & _ & H4 & _).
  split.
  - destruct (H1 [("A"%string, 25, [1])] (mkRandom (λ _, 0%nat) 0))
      as (s & Hs & _).
    exists s. split; [done|].
    apply (H4 _ _ _ ("A"%string, 25, [1]) Hs);
      [apply list_elem_of_here| |done].
    right. vm_compute. discriminate.
  - destruct (H1 [("A"%string, 3, [1]); ("B"%string, 25, [5])]
                (mkRandom (λ _, 0%nat) 0)) as (s & Hs & _).
    exists s. split; [done|].
    apply (H4 _ _ _ ("B"%string, 25, [5]) Hs);
      [apply list_elem_of_further, list_elem_of_here| |done].
    right. vm_compute. discriminate.
Defined.

(** C8 as stated fails: a table with its only device at position 25 of a
    20-cell medium, and an empty table, are both set up without error. *)
Lemma invalid_configuration_counterexample :
  ¬ (∀ table rng,
       table = [] ∨
       (∃ e, e ∈ table ∧ ¬ (0 ≤ e.1.2 < ETHERNET_CABLE_LENGHT)) →
       setup table rng = None).
Proof.
  intros H.
  specialize (H [("A"%string, 25, [1])] (mkRandom (λ _, 0%nat) 0)).
  unfold setup in H.
  destruct (make_devices _ _) as [ds rng'].
  assert (Some (mkSim new_medium ds rng' 0) = None) as Hnone; [|done].
  apply H. right. exists ("A"%string, 25, [1]). split.
  - apply list_elem_of_here.
  - simpl. unfold ETHERNET_CABLE_LENGHT. lia.
Qed.
(** ** C5: a lone device never sees a collision and completes *)

Lemma lone_next (p : nat) (cable : list CableCell.t) :
  (p < cells)%nat → lone p cable →
  lone p (next_medium cable) ∧
  next_medium cable !! p = Some (CableCell.init (Z.of_nat p)).
Proof.
  intros Hp [Hm Hl].
  pose proof (cells_length _ Hm) as Hlen.
  assert (Hfrom : ∀ j, (j ≤ p)%nat → from_left cable j = None).
  { intros [|j] Hj; [done|]. simpl. apply Hl. lia. }
  assert (Har : ∀ j, (j ≤ p)%nat → arrive_right cable j = None).
  { intros j Hj. unfold arrive_right. by rewrite Hfrom, inn_None. }
  assert (Hal : ∀ j, (p ≤ j)%nat → arrive_left cable j = None).
  { intros j Hj. unfold arrive_left.
    rewrite (proj2 (Hl (S j))) by lia. by rewrite inn_None. }
  split; [split|].
  - by apply next_medium_medium.
  - intros j. unfold leftward, rightward.
    destruct (decide (j < length cable)%nat) as [Hj|Hj].
    + rewrite lookup_next_medium by done. simpl. split; intros Hjp.
      * unfold resolved, CableCell.collapse. simpl.
        rewrite Har by lia. by rewrite andb_false_r.
      * apply Hal. lia.
    + rewrite (lookup_ge_None_2 (next_medium cable))
        by (rewrite length_next_medium; lia). done.
  - rewrite lookup_next_medium by lia. f_equal.
    unfold next_cell, resolved, CableCell.collapse, CableCell.init. simpl.
    rewrite Har, Hal by lia. done.
Qed.

Lemma lone_inject (p : nat) (id : string) (cable : list CableCell.t) :
  lone p cable → lone p (alter (CableCell.new_signal id) p cable).
Proof.
  intros [Hm Hl]. split; [by apply alter_medium|].
  intros j. unfold leftward, rightward.
  split; intros Hj; rewrite list_lookup_alter_ne by lia; by apply Hl.
Qed.

Lemma lone_new_medium (p : nat) : lone p new_medium.
Proof.
  split; [apply new_medium_medium|].
  intros j. unfold leftward, rightward.
  rewrite (new_medium_seq cells)
    by (unfold cells; pose proof cable_length_pos; lia).
  rewrite list_lookup_fmap.
  by destruct (seq 0 cells !! j).
Qed.

(** Resolve a [decide] of the goal whose proposition is settled by
    linear arithmetic or by inspection. *)
Ltac settle := first [lia | done | (intros [?|?]; done) | (split; done)].
Ltac dec_lia :=
  match goal with
  | |- context [decide ?P] =>
      first [ assert P by settle; destruct (decide P); [|done]
            | assert (¬ P) by settle; destruct (decide P); [done|] ]
  end.

Ltac same_fields :=
  repeat match goal with
    | |- @eq Z _ _ => lia
    | |- @eq nat _ _ => lia
    | |- _ => done
    | |- _ => f_equal
    end.

Ltac unfold_setters :=
  unfold Transmission.set_left, Transmission.set_wait, Transmission.set_sleep,
    Device.set_transmissions, Device.set_transmission, Device.set_round;
  cbn [Transmission.src Transmission.pos Transmission.len Transmission.left
       Transmission.wait Transmission.sleep Device.name Device.pos
       Device.round Device.transmission Device.transmissions].

Section lone_run.
Context (name : string) (p r l : Z) (rng1 : Random).
Hypothesis Hp : 0 ≤ p < ETHERNET_CABLE_LENGHT.
Hypothesis Hl : 0 < l.

Local Abbreviation pn := (Z.to_nat p).
Local Abbreviation n0 := (Z.to_nat (Z.max r 1)).
Local Abbreviation nl := (Z.to_nat l).
Local Abbreviation lone_state_k := (lone_state name p r l rng1).

Lemma getitem_idle (nc : list CableCell.t) :
  medium nc → nc !! pn = Some (CableCell.init p) →
  getitem nc p = Some (CableCell.init p).
Proof.
  intros Hm Hc. rewrite <- (Z2Nat.id p) at 1 by lia. by apply getitem_nat.
Qed.

Lemma setitem_idle {f} (nc : list CableCell.t) :
  medium nc → setitem_attr f nc p = Some (alter f pn nc).
Proof.
  intros Hm. rewrite <- (Z2Nat.id p) at 1 by lia.
  apply setitem_attr_nat. rewrite (cells_length _ Hm).
  unfold cells. lia.
Qed.

Lemma setitem_line {f : string → string} :
  setitem_attr f (replicate (Z.to_nat ETHERNET_CABLE_LENGHT) " "%string) p =
  Some (alter f pn (replicate (Z.to_nat ETHERNET_CABLE_LENGHT) " "%string)).
Proof.
  rewrite <- (Z2Nat.id p) at 1 by lia.
  apply setitem_attr_nat. rewrite length_replicate. lia.
Qed.

Lemma lone_round (k : nat) (s : Sim) :
  (k < n0 + nl + cells)%nat → lone_state_k k s →
  ∃ nc s',
    propagate_all (cable s) = Some nc ∧
    getitem nc p = Some (CableCell.init p) ∧
    round s = Some s' ∧ lone_state_k (S k) s'.
Proof.
  intros Hk (Hd & Hc & Hr).
  assert (Hpn : (pn < cells)%nat) by (unfold cells; lia).
  destruct (lone_next pn _ Hpn Hc) as [Hc' Hcell].
  rewrite Z2Nat.id in Hcell by lia.
  pose proof (getitem_idle _ (proj1 Hc') Hcell) as Hget.
  pose proof (setitem_idle (f := CableCell.new_signal name) _ (proj1 Hc'))
    as Hset.
  pose proof cable_length_pos as HN.
  exists (next_medium (cable s)).
  unfold round. rewrite propagate_all_next by apply Hc.
  cbn [mbind option_bind]. rewrite Hd, Hr.
  unfold lone_state, lone_devices.
  remember n0 as m0 eqn:Em0. remember nl as ml eqn:Eml.
  assert (Hcells : Z.of_nat cells = ETHERNET_CABLE_LENGHT)
    by (unfold cells; lia).
  destruct (decide (k < m0)%nat), (decide (S k < m0)%nat),
    (decide (k < m0 + ml)%nat), (decide (S k < m0 + ml)%nat),
    (decide (k < m0 + ml + cells)%nat),
    (decide (S k < m0 + ml + cells)%nat); try lia;
    cbn [refresh_all]; unfold Device.refresh, Device.start_scheduled;
    unfold_setters; unfold Transmission.transmit, Transmission.init;
    unfold_setters; repeat dec_lia;
    rewrite ?Hget;
    cbn [mbind option_bind CableCell.init CableCell.left CableCell.right];
    repeat dec_lia;
    rewrite ?Hset; cbn [mbind option_bind]; unfold_setters;
    unfold device_line; cbn [foldl mbind option_bind Device.pos];
    rewrite ?setitem_line; cbn [mbind option_bind];
    eexists; (do 3 (split; [done|])); cbn [devices cable rng];
    (split; [same_fields | split; [by auto using lone_inject | done]]).
Qed.
End lone_run.
Lemma run_snoc (k : nat) (s0 : Sim) :
  run (S k) s0 =
  s ← run k s0; match devices s with [] => Some s | _ => round s end.
Proof.
  revert s0. induction k as [|k IH]; intros s0.
  - simpl. destruct (devices s0); [done|]. by destruct (round s0).
  - change (run (S (S k)) s0) with
      (match devices s0 with
       | [] => Some s0
       | _ => s' ← round s0; run (S k) s'
       end).
    change (run (S k) s0) with
      (match devices s0 with
       | [] => Some s0
       | _ => s' ← round s0; run k s'
       end).
    destruct (devices s0) eqn:Hd; simpl; [by rewrite Hd|].
    destruct (round s0) as [s'|]; simpl; [|done]. apply IH.
Qed.

Lemma lone_devices_live (name : string) (p r l : Z) (k : nat) :
  (k < Z.to_nat (Z.max r 1) + Z.to_nat l + cells)%nat →
  lone_devices name p r l k ≠ [].
Proof. intros Hk. unfold lone_devices. repeat case_decide; try done; lia. Qed.

Lemma lone_run (name : string) (p r l : Z) (rng1 : Random) (s0 : Sim) (k : nat) :
  0 ≤ p < ETHERNET_CABLE_LENGHT → 0 < l →
  lone_state name p r l rng1 0 s0 →
  (k ≤ Z.to_nat (Z.max r 1) + Z.to_nat l + cells)%nat →
  ∃ s, run k s0 = Some s ∧ lone_state name p r l rng1 k s.
Proof.
  intros Hp Hl H0. induction k as [|k IH]; intros Hk.
  - by exists s0.
  - destruct IH as (s & Hs & Hst); [lia|].
    destruct (lone_round name p r l rng1 Hp Hl k s) as (nc & s' & _ & _ & Hr & Hst');
      [lia|done|].
    exists s'. split; [|done].
    rewrite run_snoc, Hs. simpl.
    destruct Hst as (Hd & _).
    pose proof (lone_devices_live name p r l k) as Hlive.
    destruct (devices s); [|done]. exfalso. apply Hlive; [lia|done].
Qed.

Lemma run_done (k m : nat) (s0 s : Sim) :
  run k s0 = Some s → devices s = [] → run (k + m) s0 = Some s.
Proof.
  intros Hs Hd. induction m as [|m IH].
  - by rewrite Nat.add_0_r.
  - replace (k + S m)%nat with (S (k + m)) by lia.
    rewrite run_snoc, IH. simpl. by rewrite Hd.
Qed.

(** C5.  In the run of a single device [name] at a cell [p] of the
    medium with one scheduled transmission (released at round [r], its
    length [l] drawn by [randint(5, 10)]): in every round up to the end
    the cell at [p] that [transmit] reads is idle, so no collision
    marker is ever observed; from the starting round [n0 = max r 1] the
    remaining count goes down by one per round and reaches 0 after [l]
    rounds; then [wait] goes down by one per round from the medium
    length to 0; in the round after that [transmit] reports completion
    and the device leaves the live set, which ends the loop. *)
Theorem lone_transmission (name : string) (p r : Z) (seed : Random) :
  0 ≤ p < ETHERNET_CABLE_LENGHT →
  let l := (randint 5 10 seed).1 in
  let n0 := Z.to_nat (Z.max r 1) in
  let nl := Z.to_nat l in
  ∃ s0,
    setup [(name, p, [r])] seed = Some s0 ∧
    (∀ k, (k < n0 + nl + cells)%nat →
       ∃ s nc, run k s0 = Some s ∧ propagate_all (cable s) = Some nc ∧
               getitem nc p = Some (CableCell.init p)) ∧
    (∀ j, (j < nl)%nat →
       ∃ s, run (n0 + j) s0 = Some s ∧
            Device.transmission <$> devices s =
            [Some (Transmission.mk name p l (l - Z.of_nat j - 1)
                     ETHERNET_CABLE_LENGHT 0)]) ∧
    (∀ j, (j < cells)%nat →
       ∃ s, run (n0 + nl + j) s0 = Some s ∧
            Device.transmission <$> devices s =
            [Some (Transmission.mk name p l 0
                     (ETHERNET_CABLE_LENGHT - Z.of_nat j - 1) 0)]) ∧
    (∃ s t nc,
       run (n0 + nl + cells - 1) s0 = Some s ∧
       Device.transmission <$> devices s = [Some t] ∧
       propagate_all (cable s) = Some nc ∧
       Transmission.transmit t nc (rng s) = Some (true, t, nc, rng s)) ∧
    (∀ k, (n0 + nl + cells ≤ k)%nat →
       ∃ s, run k s0 = Some s ∧ devices s = []).
Proof.
  intros Hp. cbv zeta.
  pose proof (randint_range 5 10 seed) as Hl.
  pose proof cells_pos as Hc. pose proof cable_length_pos as HN.
  assert (Hcells : Z.of_nat cells = ETHERNET_CABLE_LENGHT)
    by (unfold cells; lia).
  unfold setup. cbn [make_devices]. unfold Device.init.
  cbn [Device.schedule].
  destruct (randint 5 10 seed) as [l rng1] eqn:Hrand.
  cbn [fst] in *.
  assert (Hl0 : 0 < l) by lia.
  set (n0 := Z.to_nat (Z.max r 1)). set (nl := Z.to_nat l).
  set (s0 := mkSim new_medium _ rng1 0).
  assert (H0 : lone_state name p r l rng1 0 s0).
  { split; [|split; [apply lone_new_medium|done]].
    unfold lone_devices. fold n0. rewrite decide_True by lia. done. }
  pose proof (λ k, lone_run name p r l rng1 s0 k Hp Hl0 H0) as Hrun.
  fold n0 nl in Hrun.
  exists s0. split; [done|]. split; [|split; [|split; [|split]]].
  - intros k Hk. destruct (Hrun k) as (s & Hs & Hst); [lia|].
    destruct (lone_round name p r l rng1 Hp Hl0 k s)
      as (nc & s' & Hnc & Hget & _); [done|done|].
    by exists s, nc.
  - intros j Hj. destruct (Hrun (n0 + j)%nat) as (s & Hs & Hd & _); [lia|].
    exists s. split; [done|]. rewrite Hd. unfold lone_devices. fold n0 nl.
    repeat dec_lia. simpl. same_fields.
  - intros j Hj.
    destruct (Hrun (n0 + nl + j)%nat) as (s & Hs & Hd & _); [lia|].
    exists s. split; [done|]. rewrite Hd. unfold lone_devices. fold n0 nl.
    repeat dec_lia. simpl. same_fields.
  - destruct (Hrun (n0 + nl + cells - 1)%nat) as (s & Hs & Hst); [lia|].
    destruct (lone_round name p r l rng1 Hp Hl0 (n0 + nl + cells - 1) s)
      as (nc & s' & Hnc & Hget & _); [fold n0 nl; lia|done|].
    destruct Hst as (Hd & _).
    eexists s, _, nc. split; [done|]. rewrite Hd.
    unfold lone_devices. fold n0 nl. repeat dec_lia.
    split; [done|]. split; [done|].
    unfold Transmission.transmit. simpl. by repeat dec_lia.
  - intros k Hk.
    destruct (Hrun (n0 + nl + cells)%nat) as (s & Hs & Hd & _); [lia|].
    exists s. replace k with (n0 + nl + cells + (k - (n0 + nl + cells)))%nat
      by lia.
    unfold lone_devices in Hd. fold n0 nl in Hd.
    rewrite !decide_False in Hd by lia.
    split; [by apply run_done|done].
Qed.

Lemma lone_transmission_witness :
  ∃ s0 s,
    setup [("B"%string, 9, [3])] (mkRandom (λ _, 2%nat) 0) = Some s0 ∧
    run 30 s0 = Some s ∧ devices s = [].
Proof.
  destruct (lone_transmission "B"%string 9 3 (mkRandom (λ _, 2%nat) 0))
    as (s0 & Hs0 & _ & _ & _ & _ & Hend); [done|].
  destruct (Hend 30%nat) as (s & Hs & Hd); [vm_compute; lia|].
  by exists s0, s.
Defined.
(** ** C7: the order of the device pass *)

Lemma advance_0 (rng : Random) : advance 0 rng = rng.
Proof. destruct rng. unfold advance. simpl. by rewrite Nat.add_0_r. Qed.

Lemma advance_advance (m n : nat) (rng : Random) :
  advance n (advance m rng) = advance (m + n) rng.
Proof. unfold advance. simpl. f_equal. lia. Qed.

Lemma choice_even (rng : Random) (m : nat) :
  even_draws rng →
  ∃ v, ∀ m, choice [1; 2] (advance m rng) = Some (v, advance (m + 1) rng).
Proof.
  intros He. destruct (choice_1_2 rng) as (v & Hv & _). exists v.
  intros m'. unfold choice, next_raw, advance in *. cbn [gen drawn length] in *.
  rewrite (He (drawn rng + m')%nat (drawn rng)) by lia.
  destruct ([1; 2] !! _) as [x|]; simpl in *; [|done].
  simplify_eq. do 3 f_equal. lia.
Qed.

(** What [transmit] does depends on the transmission, on the cell at its
    position and, when all coming draws are equal, on nothing else. *)
Lemma transmit_effect (t : Transmission.t) (c0 : CableCell.t) (rng : Random) :
  0 ≤ Transmission.pos t < ETHERNET_CABLE_LENGHT → even_draws rng →
  ∃ b t' f n,
    Transmission.pos t' = Transmission.pos t ∧
    (b = true → Transmission.wait t = 0) ∧
    (∀ c, CableCell.pos (f c) = CableCell.pos c) ∧
    ∀ cable m,
      medium cable → cable !! Z.to_nat (Transmission.pos t) = Some c0 →
      Transmission.transmit t cable (advance m rng) =
      Some (b, t', alter f (Z.to_nat (Transmission.pos t)) cable,
            advance (m + n) rng).
Proof.
  intros Hp He.
  assert (Hget : ∀ cable, cable !! Z.to_nat (Transmission.pos t) = Some c0 →
                 getitem cable (Transmission.pos t) = Some c0).
  { intros cable Hc. rewrite <- (Z2Nat.id (Transmission.pos t)) at 1 by lia.
    by apply getitem_nat. }
  assert (Hset : ∀ f cable, medium cable →
                 setitem_attr f cable (Transmission.pos t) =
                 Some (alter f (Z.to_nat (Transmission.pos t)) cable)).
  { intros f cable Hm. rewrite <- (Z2Nat.id (Transmission.pos t)) at 1 by lia.
    apply setitem_attr_nat. rewrite (cells_length _ Hm). unfold cells. lia. }
  destruct (choice_even rng 0 He) as [v Hv].
  unfold Transmission.transmit.
  destruct (decide (Transmission.wait t = 0)) as [Hw|Hw].
  { exists true, t, id, 0%nat. repeat split; try done.
    intros cable m _ _. by rewrite list_alter_id, Nat.add_0_r. }
  destruct (decide (0 < Transmission.sleep t)) as [Hs|Hs].
  { exists false, (Transmission.set_sleep (Transmission.sleep t - 1) t), id, 0%nat.
    repeat split; try done.
    intros cable m _ _. by rewrite list_alter_id, Nat.add_0_r. }
  destruct (decide (CableCell.left c0 = Some "#"%string ∨
                    CableCell.right c0 = Some "#"%string)) as [Hcol|Hcol].
  { eexists false, _, id, 1%nat. split; [|split; [done|split; [done|]]];
      [|intros cable m Hm Hc; rewrite (Hget _ Hc); cbn [mbind option_bind];
        repeat dec_lia; rewrite Hv; cbn [mbind option_bind];
        rewrite list_alter_id by done; reflexivity].
    done. }
  destruct (decide (Transmission.left t = 0)) as [Hl|Hl].
  { eexists false, _, id, 0%nat. split; [|split; [done|split; [done|]]];
      [|intros cable m Hm Hc; rewrite (Hget _ Hc); cbn [mbind option_bind];
        repeat dec_lia;
        rewrite list_alter_id, Nat.add_0_r by done; reflexivity].
    done. }
  destruct (decide (CableCell.left c0 = None ∧ CableCell.right c0 = None))
    as [Hidle|Hidle].
  { eexists false, _, (CableCell.new_signal (Transmission.src t)), 0%nat.
    split; [|split; [done|split; [done|]]];
      [|intros cable m Hm Hc; rewrite (Hget _ Hc); cbn [mbind option_bind];
        repeat dec_lia; rewrite (Hset _ _ Hm);
        cbn [mbind option_bind]; rewrite Nat.add_0_r; reflexivity].
    done. }
  eexists false, _, id, 0%nat. split; [|split; [done|split; [done|]]];
    [|intros cable m Hm Hc; rewrite (Hget _ Hc); cbn [mbind option_bind];
      repeat dec_lia;
      rewrite list_alter_id, Nat.add_0_r by done; reflexivity].
  done.
Qed.

Lemma start_scheduled_effect (d : Device.t) (c0 : CableCell.t) (rng : Random) :
  coherent d → on_medium d → even_draws rng →
  ∃ b d' f n,
    coherent d' ∧ Device.pos d' = Device.pos d ∧
    (∀ c, CableCell.pos (f c) = CableCell.pos c) ∧
    ∀ cable m,
      medium cable → cable !! Z.to_nat (Device.pos d) = Some c0 →
      Device.start_scheduled d cable (advance m rng) =
      Some (b, d', alter f (Z.to_nat (Device.pos d)) cable,
            advance (m + n) rng).
Proof.
  intros [Hact Hq] Hon He. unfold Device.start_scheduled.
  destruct (Device.transmissions d) as [|[r t0] rest] eqn:Hd.
  { exists false, d, id, 0%nat. split; [|split; [done|split; [done|]]].
    - split; [done|]. by rewrite Hd.
    - intros cable m _ _. by rewrite list_alter_id, Nat.add_0_r. }
  apply Forall_cons in Hq as [Ht0 Hrest]. simpl in Ht0.
  destruct (decide (r ≤ Device.round d)) as [Hr|Hr].
  - destruct (transmit_effect t0 c0 rng) as (b & t1 & f & n & Hp & _ & Hf & Ht);
      [by rewrite Ht0|done|].
    rewrite Ht0 in Ht.
    eexists true, _, f, n. split; [|split; [|split; [done|]]];
      [| |intros cable m Hm Hc; rewrite (Ht _ _ Hm Hc); reflexivity].
    + split; simpl; [|done]. intros t ?; simplify_eq. congruence.
    + done.
  - exists true, d, id, 0%nat. split; [|split; [done|split; [done|]]].
    + split; [done|]. rewrite Hd. by apply Forall_cons.
    + intros cable m _ _. by rewrite list_alter_id, Nat.add_0_r.
Qed.

(** The same for [refresh]: its outcome is a function of the device and
    of the cell at the position of the device. *)
Lemma refresh_effect (d : Device.t) (c0 : CableCell.t) (rng : Random) :
  coherent d → on_medium d → even_draws rng →
  ∃ b d' f n,
    coherent d' ∧ Device.pos d' = Device.pos d ∧
    (∀ c, CableCell.pos (f c) = CableCell.pos c) ∧
    ∀ cable m,
      medium cable → cable !! Z.to_nat (Device.pos d) = Some c0 →
      Device.refresh d cable (advance m rng) =
      Some (b, d', alter f (Z.to_nat (Device.pos d)) cable,
            advance (m + n) rng).
Proof.
  intros [Hact Hq] Hon He. unfold Device.refresh.
  set (d1 := Device.set_round (Device.round d + 1) d).
  assert (Hd1 : coherent d1) by done.
  change (Device.transmission d1) with (Device.transmission d).
  destruct (Device.transmission d) as [tr|] eqn:Htr.
  - pose proof (Hact _ eq_refl) as Hptr.
    destruct (decide (Transmission.wait tr = 0)) as [Hw|Hw].
    + destruct (start_scheduled_effect (Device.set_transmission None d1) c0 rng)
        as (b & d' & f & n & Hc' & Hp' & Hf & Hs); [|done|done|].
      { split; [done|]. apply Hq. }
      exists b, d', f, n. split; [done|]. split; [done|]. split; [done|].
      intros cable m Hm Hc. unfold Transmission.transmit.
      destruct (decide (Transmission.wait tr = 0)); [|done].
      cbn [mbind option_bind]. by apply Hs.
    + destruct (transmit_effect tr c0 rng) as (b & t1 & f & n & Hp & Hb & Hf & Ht);
        [by rewrite Hptr|done|].
      rewrite Hptr in Ht. destruct b; [by destruct Hw; apply Hb|].
      eexists true, _, f, n. split; [|split; [|split; [done|]]];
        [| |intros cable m Hm Hc; rewrite (Ht _ _ Hm Hc); reflexivity].
      * split; simpl; [|done]. intros t ?; simplify_eq. congruence.
      * done.
  - apply (start_scheduled_effect d1 c0 rng); try done.
Qed.

Lemma medium_cell (cable : list CableCell.t) (p : Z) :
  medium cable → 0 ≤ p < ETHERNET_CABLE_LENGHT →
  ∃ c, cable !! Z.to_nat p = Some c.
Proof.
  intros Hm Hp. apply lookup_lt_is_Some.
  rewrite (cells_length _ Hm). unfold cells. lia.
Qed.

Lemma pass_ready_cons (d : Device.t) (ds : list Device.t) :
  pass_ready (d :: ds) →
  coherent d ∧ on_medium d ∧ (Device.pos d ∉ (Device.pos <$> ds)) ∧
  pass_ready ds.
Proof.
  intros [Hall Hnd]. apply Forall_cons in Hall as [[Hc Ho] Hall].
  rewrite fmap_cons in Hnd. apply NoDup_cons in Hnd as [Hin Hnd].
  split; [done|]. split; [done|]. split; [done|]. by split.
Qed.

Lemma pass_ready_perm (ds ds' : list Device.t) :
  ds ≡ₚ ds' → pass_ready ds → pass_ready ds'.
Proof. intros HP [Hall Hnd]. split; by rewrite <- HP. Qed.

Section order.
Context (rng : Random).
Hypothesis He : even_draws rng.

Lemma refresh_all_perm (ds ds' : list Device.t) :
  ds ≡ₚ ds' →
  ∀ cable m live c r,
    pass_ready ds → medium cable →
    refresh_all ds cable (advance m rng) = Some (live, c, r) →
    ∃ live', refresh_all ds' cable (advance m rng) = Some (live', c, r) ∧
             live ≡ₚ live'.
Proof.
  induction 1 as [|x l l' HP IH|x y l|l l' l'' HP1 IH1 HP2 IH2];
    intros cable m live c r Hready Hm Hrun.
  - exists live. by split.
  - apply pass_ready_cons in Hready as (Hco & Hon & _ & Hrest).
    destruct (medium_cell cable _ Hm Hon) as [c0 Hc0].
    destruct (refresh_effect x c0 rng Hco Hon He)
      as (b & x' & f & n & _ & _ & Hf & Hx).
    cbn [refresh_all] in *. rewrite (Hx _ _ Hm Hc0) in *.
    cbn [mbind option_bind] in *.
    destruct (refresh_all l _ _) as [[[live0 c1] r1]|] eqn:Hl;
      cbn [mbind option_bind] in Hrun; [|done].
    simplify_eq.
    destruct (IH _ _ _ _ _ Hrest (alter_medium _ _ _ Hf Hm) Hl)
      as (live0' & -> & HP0).
    cbn [mbind option_bind]. eexists; split; [done|].
    destruct b; by rewrite HP0.
  - apply pass_ready_cons in Hready as (Hcy & Hony & Hny & Hready).
    apply pass_ready_cons in Hready as (Hcx & Honx & _ & Hrest).
    assert (Hk : Z.to_nat (Device.pos y) ≠ Z.to_nat (Device.pos x)).
    { intros Heq. apply Hny. rewrite fmap_cons.
      replace (Device.pos y) with (Device.pos x)
        by (unfold on_medium in *; lia).
      apply list_elem_of_here. }
    destruct (medium_cell cable _ Hm Hony) as [cy Hy0].
    destruct (medium_cell cable _ Hm Honx) as [cx Hx0].
    destruct (refresh_effect y cy rng Hcy Hony He)
      as (by' & y' & fy & ny & _ & _ & Hfy & Hy).
    destruct (refresh_effect x cx rng Hcx Honx He)
      as (bx & x' & fx & nx & _ & _ & Hfx & Hx).
    cbn [refresh_all] in *.
    rewrite (Hy _ _ Hm Hy0) in Hrun. cbn [mbind option_bind] in Hrun.
    rewrite (Hx _ _ (alter_medium _ _ _ Hfy Hm)) in Hrun
      by (by rewrite list_lookup_alter_ne).
    cbn [mbind option_bind] in Hrun.
    rewrite (Hx _ _ Hm Hx0). cbn [mbind option_bind].
    rewrite (Hy _ _ (alter_medium _ _ _ Hfx Hm))
      by (by rewrite list_lookup_alter_ne).
    cbn [mbind option_bind].
    rewrite list_alter_alter_ne by done.
    replace (m + nx + ny)%nat with (m + ny + nx)%nat by lia.
    destruct (refresh_all l _ _) as [[[live0 c1] r1]|];
      cbn [mbind option_bind] in *; [|done].
    simplify_eq. eexists; split; [done|].
    destruct by', bx; try done. apply perm_swap.
  - destruct (IH1 _ _ _ _ _ Hready Hm Hrun) as (live1 & Hrun1 & HPa).
    destruct (IH2 _ _ _ _ _ (pass_ready_perm _ _ HP1 Hready) Hm Hrun1)
      as (live2 & Hrun2 & HPb).
    exists live2. split; [done|]. by rewrite HPa.
Qed.
End order.
Lemma transmit_preserves (t t' : Transmission.t) (cable cable' : list CableCell.t)
    (rng rng' : Random) (b : bool) :
  Transmission.transmit t cable rng = Some (b, t', cable', rng') →
  Transmission.pos t' = Transmission.pos t ∧ (medium cable → medium cable').
Proof.
  unfold Transmission.transmit, setitem_attr, choice. intros H.
  repeat case_decide; simplify_option_eq; repeat case_decide; simplify_eq;
    try done.
  split; [done|]. intros Hm. by apply alter_medium.
Qed.

Lemma start_scheduled_preserves (d d' : Device.t)
    (cable cable' : list CableCell.t) (rng rng' : Random) (b : bool) :
  Device.start_scheduled d cable rng = Some (b, d', cable', rng') →
  coherent d →
  coherent d' ∧ Device.pos d' = Device.pos d ∧ (medium cable → medium cable').
Proof.
  unfold Device.start_scheduled. intros Hs [Hact Hq].
  destruct (Device.transmissions d) as [|[r t0] rest] eqn:Hd.
  { simplify_eq. repeat split; try done. by rewrite Hd. }
  apply Forall_cons in Hq as [Ht0 Hrest]. simpl in Ht0.
  case_decide.
  - destruct (Transmission.transmit t0 cable rng) as [[[[b0 t1] c1] r1]|] eqn:Ht;
      cbn [mbind option_bind] in Hs; [|done].
    simplify_eq. apply transmit_preserves in Ht as [Hp Hm].
    repeat split; try done. simpl. intros t ?; simplify_eq. congruence.
  - simplify_eq. repeat split; try done. rewrite Hd. by apply Forall_cons.
Qed.

Lemma refresh_preserves (d d' : Device.t) (cable cable' : list CableCell.t)
    (rng rng' : Random) (b : bool) :
  Device.refresh d cable rng = Some (b, d', cable', rng') →
  coherent d →
  coherent d' ∧ Device.pos d' = Device.pos d ∧ (medium cable → medium cable').
Proof.
  unfold Device.refresh. intros Hr [Hact Hq].
  cbn [Device.transmission Device.set_round] in Hr.
  destruct (Device.transmission d) as [tr|] eqn:Htr.
  - destruct (Transmission.transmit tr cable rng) as [[[[fin t1] c1] r1]|] eqn:Ht;
      cbn [mbind option_bind] in Hr; [|done].
    apply transmit_preserves in Ht as [Hp Hm]. destruct fin.
    + apply start_scheduled_preserves in Hr as (? & ? & ?); [|done].
      split; [done|]. split; [done|]. auto.
    + simplify_eq. repeat split; try done. simpl.
      intros t ?; simplify_eq. rewrite Hp. by apply Hact.
  - apply start_scheduled_preserves in Hr; [done|]. split; [|done].
    simpl. by rewrite Htr.
Qed.

Lemma refresh_all_preserves (ds live : list Device.t)
    (cable c : list CableCell.t) (rng r : Random) :
  refresh_all ds cable rng = Some (live, c, r) →
  pass_ready ds → medium cable →
  pass_ready live ∧ medium c.
Proof.
  intros Hrun [Hall Hnd] Hm.
  enough (Forall (λ d, coherent d ∧ on_medium d) live ∧
          (Device.pos <$> live) `sublist_of` (Device.pos <$> ds) ∧ medium c)
    as (? & Hsub & ?).
  { repeat split; try done. by eapply sublist_NoDup. }
  clear Hnd. revert live cable c rng r Hrun Hm.
  induction ds as [|d ds IH]; intros live cable c rng r Hrun Hm.
  - simpl in Hrun. simplify_eq. repeat split; try done.
  - apply Forall_cons in Hall as [[Hco Hon] Hall].
    cbn [refresh_all] in Hrun.
    destruct (Device.refresh d cable rng) as [[[[b d'] c1] r1]|] eqn:Hd;
      cbn [mbind option_bind] in Hrun; [|done].
    destruct (refresh_all ds c1 r1) as [[[live0 c2] r2]|] eqn:Hl;
      cbn [mbind option_bind] in Hrun; [|done].
    simplify_eq.
    apply refresh_preserves in Hd as (Hco' & Hp' & Hm'); [|done].
    destruct (IH Hall _ _ _ _ _ Hl (Hm' Hm)) as (Hl1 & Hl2 & Hl3).
    destruct b.
    + repeat split; try done.
      * apply Forall_cons. split; [|done]. split; [done|].
        unfold on_medium. by rewrite Hp'.
      * rewrite !fmap_cons, Hp'. by apply sublist_skip.
    + repeat split; try done. rewrite fmap_cons. by apply sublist_cons.
Qed.

Lemma round_sound (s s' : Sim) : round s = Some s' → sound s → sound s'.
Proof.
  unfold round. intros Hr [Hready Hm].
  rewrite propagate_all_next in Hr by done. cbn [mbind option_bind] in Hr.
  destruct (refresh_all _ _ _) as [[[live c] r]|] eqn:Hl;
    cbn [mbind option_bind] in Hr; [|done].
  destruct (device_line live); cbn [mbind option_bind] in Hr; [|done].
  simplify_eq.
  by apply refresh_all_preserves in Hl; [|done|apply next_medium_medium].
Qed.

Lemma run_sound (n : nat) (s s' : Sim) : run n s = Some s' → sound s → sound s'.
Proof.
  revert s. induction n as [|n IH]; intros s Hrun Hs.
  - simpl in Hrun. by simplify_eq.
  - cbn [run] in Hrun. destruct (devices s) eqn:Hd; [by simplify_eq|].
    destruct (round s) as [s1|] eqn:Hr; cbn [mbind option_bind] in Hrun; [|done].
    eapply IH; [done|]. by eapply round_sound.
Qed.

Lemma schedule_coherent (name : string) (p : Z) (rounds : list Z) (rng : Random) :
  Forall (λ e : Z * Transmission.t, Transmission.pos e.2 = p)
         (Device.schedule name p rounds rng).1.
Proof.
  revert rng. induction rounds as [|r rs IH]; intros rng; [by constructor|].
  cbn [Device.schedule]. destruct (randint 5 10 rng) as [l rng1].
  specialize (IH rng1). destruct (Device.schedule name p rs rng1) as [q rng2].
  simpl in *. by constructor.
Qed.

Lemma init_coherent (name : string) (p : Z) (rounds : list Z) (rng : Random) :
  coherent (Device.init name p rounds rng).1 ∧
  Device.pos (Device.init name p rounds rng).1 = p.
Proof.
  unfold Device.init. pose proof (schedule_coherent name p rounds rng) as H.
  destruct (Device.schedule name p rounds rng) as [q rng']. simpl in *.
  split; [|done]. split; [done|]. done.
Qed.

Lemma main_devices_ready (seed : Random) :
  pass_ready (make_devices main_table seed).1.
Proof.
  unfold main_table. cbn [make_devices].
  pose proof (init_coherent "A" 3 [1; 40; 41] seed) as [HA HpA].
  destruct (Device.init "A" 3 [1; 40; 41] seed) as [dA r1].
  pose proof (init_coherent "B" 9 [50] r1) as [HB HpB].
  destruct (Device.init "B" 9 [50] r1) as [dB r2].
  pose proof (init_coherent "C" 15 [55; 60; 80] r2) as [HC HpC].
  destruct (Device.init "C" 15 [55; 60; 80] r2) as [dC r3].
  simpl in *. split.
  - repeat (apply Forall_cons; split;
              [split; [done|unfold on_medium, ETHERNET_CABLE_LENGHT; lia]|]).
    apply Forall_nil_2.
  - simpl. rewrite HpA, HpB, HpC.
    repeat (apply NoDup_cons; split;
              [rewrite ?not_elem_of_cons; repeat split;
               first [lia | apply not_elem_of_nil]|]).
    apply NoDup_nil_2.
Qed.

(** Every state of a run of [main] is sound. *)
Lemma main_after_sound (g : nat → nat) (n : nat) (s : Sim) :
  main_after g n = Some s → sound s.
Proof.
  unfold main_after, setup.
  pose proof (main_devices_ready (mkRandom g 0)) as Hready.
  destruct (make_devices main_table _) as [ds rng']. simpl in Hready.
  cbn [mbind option_bind]. intros Hrun.
  eapply run_sound; [done|]. split; [done|apply new_medium_medium].
Qed.
Lemma refresh_all_total (seed : Random) (ds : list Device.t) :
  even_draws seed →
  ∀ cable m, pass_ready ds → medium cable →
    is_Some (refresh_all ds cable (advance m seed)).
Proof.
  intros He. induction ds as [|d ds IH]; intros cable m Hready Hm; [done|].
  apply pass_ready_cons in Hready as (Hco & Hon & _ & Hrest).
  destruct (medium_cell cable _ Hm Hon) as [c0 Hc0].
  destruct (refresh_effect d c0 seed Hco Hon He)
    as (b & d' & f & n & _ & _ & Hf & Hd).
  cbn [refresh_all]. rewrite (Hd _ _ Hm Hc0). cbn [mbind option_bind].
  destruct (IH (alter f (Z.to_nat (Device.pos d)) cable) (m + n)%nat)
    as [[[live c] r] ->]; [done|by apply alter_medium|].
  done.
Qed.



(** * Further properties of [lab4/ethernet.py] *)

(** ** The propagation pass as a whole *)

Lemma leftward_next (cable : list CableCell.t) (j : nat) :
  (j < length cable)%nat →
  leftward (next_medium cable) j = arrive_left cable j.
Proof. intros Hj. unfold leftward. by rewrite lookup_next_medium. Qed.

Lemma rightward_next (cable : list CableCell.t) (j : nat) :
  (j < length cable)%nat →
  rightward (next_medium cable) j =
  CableCell.right (CableCell.collapse (resolved cable j)).
Proof. intros Hj. unfold rightward. by rewrite lookup_next_medium. Qed.

(** X1.  On a well-formed medium the pass of [main] never raises; the
    medium it produces is well-formed again, and its cell [j] holds, on
    the left, what the right neighbour sends leftwards (the collision
    marker when cell [j] sends rightwards at the same time) and, on the
    right, what the left neighbour sends rightwards (the collision
    marker when cell [j] sends leftwards at the same time, or when both
    sides of cell [j] are reached in this pass). *)
Theorem pass_closed_form (cable : list CableCell.t) :
  medium cable →
  ∃ nc,
    propagate_all cable = Some nc ∧ medium nc ∧
    ∀ j, (j < cells)%nat →
      leftward nc j = inn (rightward cable j) (leftward cable (S j)) ∧
      rightward nc j =
        (if present (leftward cable (S j)) && present (from_left cable j)
         then collision
         else inn (leftward cable j) (from_left cable j)).
Proof.
  intros Hm. exists (next_medium cable).
  split; [by apply propagate_all_next|].
  split; [by apply next_medium_medium|].
  intros j Hj. rewrite <- (cells_length _ Hm) in Hj.
  rewrite leftward_next, rightward_next by done.
  unfold resolved, arrive_left, arrive_right.
  generalize (from_left cable j). intros fl.
  split; [done|].
  name_signals; destruct_signals; by_cases.
Qed.

Lemma pass_closed_form_witness :
  ∃ nc, propagate_all converging = Some nc ∧
        leftward nc 5 = Some "A"%string ∧ rightward nc 5 = collision.
Proof.
  destruct (pass_closed_form converging) as (nc & Hnc & _ & Hcells);
    [reflexivity|].
  exists nc. split; [exact Hnc|].
  destruct (Hcells 5%nat) as [Hl Hr]; [vm_compute; lia|].
  rewrite Hl, Hr. vm_compute. done.
Defined.

Lemma present_inn (S L : signal) : present (inn S L) = present L.
Proof. by destruct S, L. Qed.

Lemma present_next_left (cable : list CableCell.t) (j : nat) :
  (j < length cable)%nat →
  present (leftward (next_medium cable) j) = present (leftward cable (S j)).
Proof.
  intros Hj. rewrite leftward_next by done. apply present_inn.
Qed.

Lemma present_next_right (cable : list CableCell.t) (j : nat) :
  (j < length cable)%nat →
  present (rightward (next_medium cable) j) = present (from_left cable j).
Proof.
  intros Hj. rewrite rightward_next by done.
  unfold resolved, arrive_left, arrive_right, CableCell.collapse.
  generalize (from_left cable j). intros fl.
  name_signals; destruct_signals; by_cases.
Qed.

(** Where the signals of a medium are after [k] passes without any
    injection: presence moves one cell per pass, leftwards on the left
    sides and rightwards on the right sides. *)
Lemma passes_presence (k : nat) (cable : list CableCell.t) :
  medium cable →
  ∃ m, passes k cable = Some m ∧ medium m ∧
    ∀ j, (j < cells)%nat →
      present (leftward m j) = present (leftward cable (j + k)) ∧
      present (rightward m j) =
        (if decide (k ≤ j)%nat then present (rightward cable (j - k)) else false).
Proof.
  revert cable. induction k as [|k IH]; intros cable Hm.
  - exists cable. split; [done|]. split; [done|]. intros j Hj.
    rewrite Nat.add_0_r, Nat.sub_0_r. by rewrite decide_True by lia.
  - cbn [passes]. rewrite propagate_all_next by done. cbn [mbind option_bind].
    destruct (IH _ (next_medium_medium _ Hm)) as (m & Hp & Hmm & Hsig).
    exists m. split; [done|]. split; [done|]. intros j Hj.
    destruct (Hsig j Hj) as [Hl Hr]. rewrite Hl, Hr.
    pose proof (cells_length _ Hm) as Hlen. split.
    + destruct (decide (j + k < length cable)%nat).
      * rewrite present_next_left by done. do 2 f_equal. lia.
      * unfold leftward.
        rewrite (lookup_ge_None_2 (next_medium cable))
          by (rewrite length_next_medium; lia).
        by rewrite (lookup_ge_None_2 cable) by lia.
    + destruct (decide (k ≤ j)%nat), (decide (S k ≤ j)%nat); try lia.
      * rewrite present_next_right by lia.
        replace (j - k)%nat with (S (j - S k)) by lia. done.
      * rewrite present_next_right by lia.
        by replace (j - k)%nat with 0%nat by lia.
Qed.

(** X2.  Left alone, the medium drains: whatever signals and collision
    marks a well-formed medium holds, after [ETHERNET_CABLE_LENGHT]
    passes without injection it is the idle medium again. *)
Theorem medium_drains (cable : list CableCell.t) :
  medium cable → passes cells cable = Some new_medium.
Proof.
  intros Hm. destruct (passes_presence cells cable Hm) as (m & -> & Hmm & Hsig).
  f_equal. pose proof (cells_length _ Hmm) as Hlen.
  pose proof (cells_length _ new_medium_medium) as Hlen0.
  apply medium_spec in Hmm as [_ Hpos].
  pose proof new_medium_medium as [_ Hpos0]%medium_spec.
  apply list_eq. intros j.
  destruct (decide (j < cells)%nat) as [Hj|Hj].
  - destruct (m !! j) as [c|] eqn:Hc; [|apply lookup_ge_None in Hc; lia].
    destruct (new_medium !! j) as [c0|] eqn:Hc0;
      [|apply lookup_ge_None in Hc0; lia].
    destruct (Hsig j Hj) as [Hl Hr].
    unfold leftward, rightward in Hl, Hr. rewrite Hc in Hl, Hr.
    rewrite (lookup_ge_None_2 cable (j + cells))
      in Hl by (rewrite (cells_length _ Hm); lia).
    rewrite decide_False in Hr by lia. simpl in Hl, Hr.
    pose proof (Hpos _ _ Hc) as Hp. pose proof (Hpos0 _ _ Hc0) as Hp0.
    assert (Hidle : CableCell.left c0 = None ∧ CableCell.right c0 = None).
    { unfold new_medium in Hc0. rewrite list_lookup_fmap in Hc0.
      destruct (seqZ 0 ETHERNET_CABLE_LENGHT !! j); by simplify_eq/=. }
    destruct c as [p [l|] [r|]], c0 as [p0 l0 r0], Hidle; simplify_eq/=.
    done.
  - by rewrite !lookup_ge_None_2 by lia.
Qed.

Lemma medium_drains_witness : passes cells converging = Some new_medium.
Proof. apply medium_drains. reflexivity. Defined.

Lemma lookup_stage (cable : list CableCell.t) (k j : nat) :
  (j < length cable)%nat →
  (stage cable k <$> seq 0 (length cable)) !! j = Some (stage cable k j).
Proof. intros Hj. by rewrite list_lookup_fmap, lookup_seq_lt. Qed.

(** X3.  What does stay of a collision mark during a pass.  Between any
    two moments of the pass (after the calls of the first [k] and of the
    first [k'] cells): a right side of [new_cable] that shows the
    collision marker keeps it; a left side keeps it from the call of
    its right neighbour on. *)
Theorem right_side_sticky (cable : list CableCell.t) (k k' j : nat) :
  medium cable → (k ≤ k')%nat → (k' ≤ cells)%nat →
  ∃ m m',
    propagate_upto k cable = Some m ∧ propagate_upto k' cable = Some m' ∧
    (rightward m j = collision → rightward m' j = collision) ∧
    ((j + 2 ≤ k)%nat → leftward m j = collision → leftward m' j = collision).
Proof.
  intros Hm Hk Hk'. pose proof (cells_length _ Hm) as Hlen.
  rewrite !propagate_upto_stage by (done || lia).
  eexists _, _. split; [done|]. split; [done|].
  unfold leftward, rightward.
  destruct (decide (j < length cable)%nat) as [Hj|Hj].
  - rewrite !lookup_stage by done. cbn [mbind option_bind].
    unfold stage, next_cell, resolved, CableCell.collapse, CableCell.init.
    generalize (arrive_left cable j) (arrive_right cable j). intros l r.
    split.
    + repeat case_decide; try lia; destruct l, r; simpl; try done.
    + intros Hjk. repeat case_decide; try lia; done.
  - rewrite !lookup_ge_None_2 by (rewrite length_fmap, length_seq; lia).
    done.
Qed.

Lemma right_side_sticky_witness :
  ∃ m m',
    propagate_upto 6 converging = Some m ∧
    propagate_upto 20 converging = Some m' ∧
    rightward m 5 = collision ∧ rightward m' 5 = collision.
Proof.
  destruct (right_side_sticky converging 6 20 5) as (m & m' & Hm & Hm' & Hr & _);
    [reflexivity|lia|vm_compute; lia|].
  exists m, m'. split; [exact Hm|]. split; [exact Hm'|].
  assert (Hc : rightward m 5 = collision)
    by (vm_compute in Hm; injection Hm as <-; reflexivity).
  split; [exact Hc|exact (Hr Hc)].
Defined.

(** ** The transmission state machine *)

(** X4.  [transmit] keeps the counters of a transmission consistent:
    [0 ≤ left ≤ len], [0 ≤ wait ≤ ETHERNET_CABLE_LENGHT],
    [0 ≤ sleep ≤ 2 * ETHERNET_CABLE_LENGHT], during a backoff [wait] and
    [left] are at their reset values, and [wait] only counts down once
    nothing is left to send.  A new transmission of non-negative length
    starts consistent, and [src], [pos] and [len] never change. *)
Theorem transmit_keeps_consistent :
  (∀ src p l, 0 ≤ l → consistent (Transmission.init src p l)) ∧
  (∀ t cable rng b t' cable' rng',
     consistent t →
     Transmission.transmit t cable rng = Some (b, t', cable', rng') →
     consistent t' ∧
     Transmission.src t' = Transmission.src t ∧
     Transmission.pos t' = Transmission.pos t ∧
     Transmission.len t' = Transmission.len t).
Proof.
  pose proof cable_length_pos as HN. split.
  - intros src p l Hl. unfold consistent, Transmission.init. simpl. lia.
  - intros t cable rng b t' cable' rng' (Hl & Hw & Hs & Hsl & Hlw).
    unfold Transmission.transmit, setitem_attr. intros H.
    destruct (choice_1_2 rng) as (m & Hm & Hm12).
    repeat case_decide; simplify_option_eq; repeat case_decide; simplify_eq;
      unfold consistent; simpl; (split; [|done]); try lia.
Qed.

Lemma transmit_keeps_consistent_witness :
  consistent (Transmission.mk "A" 3 7 7 20 40).
Proof.
  destruct transmit_keeps_consistent as [Hi Ht].
  destruct (Ht (Transmission.init "A" 3 7)
              (alter (CableCell.set_left collision) 3%nat new_medium)
              (mkRandom (λ _, 1%nat) 0) false
              (Transmission.mk "A" 3 7 7 20 40)
              (alter (CableCell.set_left collision) 3%nat new_medium)
              (mkRandom (λ _, 1%nat) 1)) as [Hc _].
  - apply Hi. lia.
  - reflexivity.
  - exact Hc.
Defined.

(** X5.  The footprint of [transmit].  It reports completion exactly
    when [wait] is 0.  It leaves the cable as it is, or it writes its
    own [src] on both sides of the cell at its position, which it found
    empty on both sides, and counts one bit as sent; it never writes
    over a signal.  It draws from the generator only when it finds the
    collision marker, and then leaves the cable alone. *)
Theorem transmit_footprint
    (t t' : Transmission.t) (cable cable' : list CableCell.t)
    (rng rng' : Random) (b : bool) :
  Transmission.transmit t cable rng = Some (b, t', cable', rng') →
  (b = true ↔ Transmission.wait t = 0) ∧
  (cable' = cable ∨
   ∃ k c, py_index (length cable) (Transmission.pos t) = Some k ∧
          cable !! k = Some c ∧
          CableCell.left c = None ∧ CableCell.right c = None ∧
          cable' = <[k := CableCell.mk (CableCell.pos c)
                            (Some (Transmission.src t))
                            (Some (Transmission.src t))]> cable ∧
          Transmission.left t' = Transmission.left t - 1) ∧
  (rng' = rng ∨
   ∃ c, getitem cable (Transmission.pos t) = Some c ∧
        (CableCell.left c = collision ∨ CableCell.right c = collision) ∧
        cable' = cable ∧ rng' = advance 1 rng).
Proof.
  unfold Transmission.transmit. intros H.
  destruct (decide (Transmission.wait t = 0)) as [Hw|Hw].
  { simplify_eq. split; [done|]. split; by left. }
  assert (Hb : ∀ X : Prop, X → (false = true ↔ Transmission.wait t = 0) ∧ X).
  { intros X HX. split; [|done]. split; [done|]. intros ?. done. }
  destruct (decide (0 < Transmission.sleep t)).
  { simplify_eq. apply Hb. split; by left. }
  destruct (getitem cable (Transmission.pos t)) as [c|] eqn:Hc;
    cbn [mbind option_bind] in H; [|done].
  destruct (decide (CableCell.left c = Some "#"%string ∨
                    CableCell.right c = Some "#"%string)) as [Hcol|Hcol].
  { destruct (choice_1_2 rng) as (m & Hm & _). rewrite Hm in H.
    cbn [mbind option_bind] in H. simplify_eq.
    apply Hb. split; [by left|]. right. exists c.
    do 3 (split; [done|]). unfold advance. f_equal. lia. }
  destruct (decide (Transmission.left t = 0)).
  { simplify_eq. apply Hb. split; by left. }
  destruct (decide (CableCell.left c = None ∧ CableCell.right c = None))
    as [[Hl Hr]|Hbusy].
  - unfold setitem_attr, getitem in *.
    destruct (py_index (length cable) (Transmission.pos t)) as [k|] eqn:Hk;
      cbn [mbind option_bind] in *; [|done].
    simplify_eq. apply Hb. split; [|by left]. right. exists k, c.
    do 4 (split; [done|]). split; [|done].
    rewrite list_insert_alter. apply list_alter_ext; [|done].
    intros c0 ?. simplify_eq. unfold CableCell.new_signal.
    by rewrite Hl, Hr.
  - simplify_eq. apply Hb. split; by left.
Qed.

Lemma transmit_footprint_witness :
  ∃ t',
    Transmission.transmit (Transmission.init "A" 3 7) new_medium
      (mkRandom (λ _, 0%nat) 0) =
    Some (false, t', injected 3 "A", mkRandom (λ _, 0%nat) 0) ∧
    Transmission.left t' = 6.
Proof.
  exists (Transmission.mk "A" 3 7 6 20 0).
  assert (H : Transmission.transmit (Transmission.init "A" 3 7) new_medium
                (mkRandom (λ _, 0%nat) 0) =
              Some (false, Transmission.mk "A" 3 7 6 20 0, injected 3 "A",
                    mkRandom (λ _, 0%nat) 0)) by reflexivity.
  split; [exact H|].
  destruct (transmit_footprint _ _ _ _ _ _ _ H) as (_ & [Hsame|Hw] & _).
  - vm_compute in Hsame. discriminate Hsame.
  - destruct Hw as (k & c & _ & _ & _ & _ & _ & Hl). exact Hl.
Defined.

(** ** The device scheduler and the round loop *)

Lemma start_scheduled_frame (d d' : Device.t) (cable cable' : list CableCell.t)
    (rng rng' : Random) (b : bool) :
  Device.start_scheduled d cable rng = Some (b, d', cable', rng') →
  Device.name d' = Device.name d ∧ Device.pos d' = Device.pos d ∧
  Device.round d' = Device.round d ∧
  ((Device.transmissions d' = Device.transmissions d ∧
    Device.transmission d' = Device.transmission d) ∨
   ∃ r t0, Device.transmissions d = (r, t0) :: Device.transmissions d' ∧
           r ≤ Device.round d ∧ is_Some (Device.transmission d')).
Proof.
  unfold Device.start_scheduled. intros H.
  destruct (Device.transmissions d) as [|[r t0] rest] eqn:Hq.
  { simplify_eq. do 3 (split; [done|]). left. by rewrite Hq. }
  case_decide.
  - destruct (Transmission.transmit t0 cable rng) as [[[[b0 t1] c1] r1]|];
      cbn [mbind option_bind] in H; [|done].
    simplify_eq. do 3 (split; [done|]). right. exists r, t0. simpl.
    split; [done|]. split; [done|]. by eexists.
  - simplify_eq. do 3 (split; [done|]). left. by rewrite Hq.
Qed.



Lemma transmit_total (t : Transmission.t) (cable : list CableCell.t) (rng : Random) :
  0 ≤ Transmission.pos t < ETHERNET_CABLE_LENGHT → medium cable →
  is_Some (Transmission.transmit t cable rng).
Proof.
  intros Hp Hm. unfold Transmission.transmit.
  destruct (medium_cell cable _ Hm Hp) as [c Hc].
  rewrite <- (Z2Nat.id (Transmission.pos t)) by lia.
  rewrite (getitem_nat _ _ _ Hc).
  rewrite setitem_attr_nat
    by (rewrite (cells_length _ Hm); unfold cells; lia).
  destruct (choice_1_2 rng) as (m & -> & _).
  cbn [mbind option_bind]. by repeat case_decide.
Qed.

Lemma refresh_total (d : Device.t) (cable : list CableCell.t) (rng : Random) :
  coherent d → on_medium d → medium cable →
  is_Some (Device.refresh d cable rng).
Proof.
  intros [Hact Hq] Hon Hm.
  assert (Hstart : ∀ d1 c1 r1,
            Device.transmissions d1 = Device.transmissions d →
            medium c1 → is_Some (Device.start_scheduled d1 c1 r1)).
  { intros d1 c1 r1 Hd1 Hm1. unfold Device.start_scheduled. rewrite Hd1.
    destruct (Device.transmissions d) as [|[r t0] rest]; [done|].
    apply Forall_cons in Hq as [Ht0 _]. simpl in Ht0.
    case_decide; [|done].
    destruct (transmit_total t0 c1 r1) as [[[[b0 t1] c2] r2] ->];
      [by rewrite Ht0|done|]. done. }
  unfold Device.refresh. cbn [Device.transmission Device.set_round].
  destruct (Device.transmission d) as [tr|] eqn:Htr; [|by apply Hstart].
  destruct (transmit_total tr cable rng) as [[[[fin t1] c1] r1] Ht];
    [by rewrite (Hact _ eq_refl)|done|].
  rewrite Ht. cbn [mbind option_bind].
  destruct fin; [|done]. apply Hstart; [done|].
  by apply transmit_preserves in Ht as [_ Hm1]; apply Hm1.
Qed.

Lemma refresh_all_never_raises (ds : list Device.t) :
  ∀ cable rng, pass_ready ds → medium cable →
    is_Some (refresh_all ds cable rng).
Proof.
  induction ds as [|d ds IH]; intros cable rng Hready Hm; [done|].
  apply pass_ready_cons in Hready as (Hco & Hon & _ & Hrest).
  destruct (refresh_total d cable rng Hco Hon Hm) as [[[[b d'] c1] r1] Hd].
  cbn [refresh_all]. rewrite Hd. cbn [mbind option_bind].
  apply refresh_preserves in Hd as (_ & _ & Hm1); [|done].
  destruct (IH c1 r1 Hrest (Hm1 Hm)) as [[[live c2] r2] ->]. done.
Qed.

Lemma run_never_raises (n : nat) (s : Sim) :
  sound s → is_Some (run n s).
Proof.
  revert s. induction n as [|n IH]; intros s Hs; [done|].
  cbn [run]. destruct (devices s) eqn:Hd; [done|].
  assert (Hr : is_Some (round s)).
  { destruct Hs as [Hready Hm]. unfold round.
    rewrite propagate_all_next by done. cbn [mbind option_bind].
    destruct (refresh_all_never_raises (devices s) (next_medium (cable s)) (rng s))
      as [[[live c] r] Hl]; [done|by apply next_medium_medium|].
    rewrite Hl. cbn [mbind option_bind].
    apply refresh_all_preserves in Hl as [[Hlive _] _];
      [|done|by apply next_medium_medium].
    destruct (device_line_total live) as [line ->]; [|done].
    eapply Forall_impl; [exact Hlive|]. by intros d [_ ?]. }
  destruct Hr as [s' Hr]. rewrite Hr. cbn [mbind option_bind].
  apply IH. by eapply round_sound.
Qed.

(** X7.  [main] never raises: whatever the generator draws and however
    many rounds are run, every round returns normally, on a medium of
    [ETHERNET_CABLE_LENGHT] cells whose cell [i] carries [pos = i], with
    the live devices on pairwise distinct cells of the medium and their
    transmissions at the position of their device. *)
Theorem main_never_raises (g : nat → nat) (n : nat) :
  ∃ s, main_after g n = Some s ∧ medium (cable s) ∧ pass_ready (devices s).
Proof.
  unfold main_after, setup.
  pose proof (main_devices_ready (mkRandom g 0)) as Hready.
  destruct (make_devices main_table _) as [ds rng']. simpl in Hready.
  cbn [mbind option_bind].
  set (s0 := mkSim new_medium ds rng' 0).
  assert (Hs0 : sound s0) by (split; [done|apply new_medium_medium]).
  destruct (run_never_raises n s0 Hs0) as [s Hs].
  exists s. split; [done|].
  by destruct (run_sound _ _ _ Hs Hs0).
Qed.

(** ** The order of the device pass, in general *)

Lemma choice_draw (rng : Random) :
  choice [1; 2] rng = Some (backoff_draw rng, advance 1 rng).
Proof.
  unfold backoff_draw. destruct (choice_1_2 rng) as (v & -> & _).
  unfold advance. do 3 f_equal. lia.
Qed.

(** What [transmit] does depends on the transmission and on the cell at
    its position; of the generator only the next draw matters, and it
    only decides the backoff length. *)
Lemma transmit_outcome (t : Transmission.t) (c0 : CableCell.t) :
  0 ≤ Transmission.pos t < ETHERNET_CABLE_LENGHT →
  ∃ b f n (t' : Z → Transmission.t),
    (∀ v, Transmission.pos (t' v) = Transmission.pos t) ∧
    (∀ v w, Transmission.set_sleep 0 (t' v) = Transmission.set_sleep 0 (t' w)) ∧
    (b = true → Transmission.wait t = 0) ∧
    (∀ c, CableCell.pos (f c) = CableCell.pos c) ∧
    ∀ cable rng,
      medium cable → cable !! Z.to_nat (Transmission.pos t) = Some c0 →
      Transmission.transmit t cable rng =
      Some (b, t' (backoff_draw rng),
            alter f (Z.to_nat (Transmission.pos t)) cable, advance n rng).
Proof.
  intros Hp.
  assert (Hget : ∀ cable, cable !! Z.to_nat (Transmission.pos t) = Some c0 →
                 getitem cable (Transmission.pos t) = Some c0).
  { intros cable Hc. rewrite <- (Z2Nat.id (Transmission.pos t)) at 1 by lia.
    by apply getitem_nat. }
  assert (Hset : ∀ f cable, medium cable →
                 setitem_attr f cable (Transmission.pos t) =
                 Some (alter f (Z.to_nat (Transmission.pos t)) cable)).
  { intros f cable Hm. rewrite <- (Z2Nat.id (Transmission.pos t)) at 1 by lia.
    apply setitem_attr_nat. rewrite (cells_length _ Hm). unfold cells. lia. }
  unfold Transmission.transmit.
  destruct (decide (Transmission.wait t = 0)) as [Hw|Hw].
  { exists true, id, 0%nat, (λ _, t). do 4 (split; [done|]).
    intros cable rng _ _. by rewrite list_alter_id, advance_0. }
  destruct (decide (0 < Transmission.sleep t)) as [Hs|Hs].
  { exists false, id, 0%nat,
      (λ _, Transmission.set_sleep (Transmission.sleep t - 1) t).
    do 4 (split; [done|]).
    intros cable rng _ _. by rewrite list_alter_id, advance_0. }
  destruct (decide (CableCell.left c0 = Some "#"%string ∨
                    CableCell.right c0 = Some "#"%string)) as [Hcol|Hcol].
  { exists false, id, 1%nat,
      (λ v, Transmission.set_left (Transmission.len t)
              (Transmission.set_wait ETHERNET_CABLE_LENGHT
                 (Transmission.set_sleep (v * ETHERNET_CABLE_LENGHT) t))).
    do 4 (split; [done|]).
    intros cable rng Hm Hc. rewrite (Hget _ Hc). cbn [mbind option_bind].
    repeat dec_lia. rewrite choice_draw. cbn [mbind option_bind].
    by rewrite list_alter_id. }
  destruct (decide (Transmission.left t = 0)) as [Hl|Hl].
  { exists false, id, 0%nat,
      (λ _, Transmission.set_wait (Transmission.wait t - 1) t).
    do 4 (split; [done|]).
    intros cable rng Hm Hc. rewrite (Hget _ Hc). cbn [mbind option_bind].
    repeat dec_lia. by rewrite list_alter_id, advance_0. }
  destruct (decide (CableCell.left c0 = None ∧ CableCell.right c0 = None))
    as [Hidle|Hidle].
  { exists false, (CableCell.new_signal (Transmission.src t)), 0%nat,
      (λ _, Transmission.set_left (Transmission.left t - 1) t).
    do 4 (split; [done|]).
    intros cable rng Hm Hc. rewrite (Hget _ Hc). cbn [mbind option_bind].
    repeat dec_lia. rewrite (Hset _ _ Hm). cbn [mbind option_bind].
    by rewrite advance_0. }
  exists false, id, 0%nat, (λ _, t). do 4 (split; [done|]).
  intros cable rng Hm Hc. rewrite (Hget _ Hc). cbn [mbind option_bind].
  repeat dec_lia. by rewrite list_alter_id, advance_0.
Qed.

Lemma start_scheduled_outcome (d : Device.t) (c0 : CableCell.t) :
  coherent d → on_medium d →
  ∃ b f n (d' : Z → Device.t),
    (∀ v, coherent (d' v) ∧ Device.pos (d' v) = Device.pos d) ∧
    (∀ v w, forget_sleep (d' v) = forget_sleep (d' w)) ∧
    (∀ c, CableCell.pos (f c) = CableCell.pos c) ∧
    ∀ cable rng,
      medium cable → cable !! Z.to_nat (Device.pos d) = Some c0 →
      Device.start_scheduled d cable rng =
      Some (b, d' (backoff_draw rng),
            alter f (Z.to_nat (Device.pos d)) cable, advance n rng).
Proof.
  intros [Hact Hq] Hon. unfold Device.start_scheduled.
  destruct (Device.transmissions d) as [|[r t0] rest] eqn:Hd.
  { exists false, id, 0%nat, (λ _, d). split; [|split; [done|split; [done|]]].
    - intros _. split; [|done]. split; [done|]. by rewrite Hd.
    - intros cable rng _ _. by rewrite list_alter_id, advance_0. }
  apply Forall_cons in Hq as [Ht0 Hrest]. simpl in Ht0.
  destruct (decide (r ≤ Device.round d)) as [Hr|Hr].
  - destruct (transmit_outcome t0 c0) as (b & f & n & t1 & Hp & Hsl & _ & Hf & Ht);
      [by rewrite Ht0|].
    rewrite Ht0 in Ht.
    exists true, f, n,
      (λ v, Device.set_transmissions rest
              (Device.set_transmission (Some (t1 v)) d)).
    split; [|split; [|split; [done|]]].
    + intros v. split; [|done]. split; simpl; [|done].
      intros t ?; simplify_eq. rewrite Hp. done.
    + intros v w. unfold forget_sleep. simpl.
      unfold Device.set_transmission. simpl. by rewrite (Hsl v w).
    + intros cable rng Hm Hc. by rewrite (Ht _ _ Hm Hc).
  - exists true, id, 0%nat, (λ _, d). split; [|split; [done|split; [done|]]].
    + intros _. split; [|done]. split; [done|]. rewrite Hd.
      by apply Forall_cons.
    + intros cable rng _ _. by rewrite list_alter_id, advance_0.
Qed.

(** The same for [refresh]: its outcome is a function of the device, of
    the cell at the position of the device and of the next draw, which
    only decides the backoff length. *)
Lemma refresh_outcome (d : Device.t) (c0 : CableCell.t) :
  coherent d → on_medium d →
  ∃ b f n (d' : Z → Device.t),
    (∀ v, coherent (d' v) ∧ Device.pos (d' v) = Device.pos d) ∧
    (∀ v w, forget_sleep (d' v) = forget_sleep (d' w)) ∧
    (∀ c, CableCell.pos (f c) = CableCell.pos c) ∧
    ∀ cable rng,
      medium cable → cable !! Z.to_nat (Device.pos d) = Some c0 →
      Device.refresh d cable rng =
      Some (b, d' (backoff_draw rng),
            alter f (Z.to_nat (Device.pos d)) cable, advance n rng).
Proof.
  intros [Hact Hq] Hon. unfold Device.refresh.
  set (d1 := Device.set_round (Device.round d + 1) d).
  assert (Hd1 : coherent d1) by done.
  change (Device.transmission d1) with (Device.transmission d).
  destruct (Device.transmission d) as [tr|] eqn:Htr.
  - pose proof (Hact _ eq_refl) as Hptr.
    destruct (decide (Transmission.wait tr = 0)) as [Hw|Hw].
    + destruct (start_scheduled_outcome (Device.set_transmission None d1) c0)
        as (b & f & n & d' & Hc' & Hsl & Hf & Hs); [|done|].
      { split; [done|]. apply Hq. }
      exists b, f, n, d'. do 3 (split; [done|]).
      intros cable rng Hm Hc. unfold Transmission.transmit.
      destruct (decide (Transmission.wait tr = 0)); [|done].
      cbn [mbind option_bind]. by apply Hs.
    + destruct (transmit_outcome tr c0) as (b & f & n & t1 & Hp & Hsl & Hb & Hf & Ht);
        [by rewrite Hptr|].
      rewrite Hptr in Ht. destruct b; [by destruct Hw; apply Hb|].
      exists true, f, n, (λ v, Device.set_transmission (Some (t1 v)) d1).
      split; [|split; [|split; [done|]]].
      * intros v. split; [|done]. split; simpl; [|done].
        intros t ?; simplify_eq. rewrite Hp. done.
      * intros v w. unfold forget_sleep. simpl.
        unfold Device.set_transmission. simpl. by rewrite (Hsl v w).
      * intros cable rng Hm Hc. by rewrite (Ht _ _ Hm Hc).
  - apply (start_scheduled_outcome d1 c0); done.
Qed.

Lemma refresh_all_perm_any (ds ds' : list Device.t) :
  ds ≡ₚ ds' →
  ∀ cable rng live c r,
    pass_ready ds → medium cable →
    refresh_all ds cable rng = Some (live, c, r) →
    ∃ live', refresh_all ds' cable rng = Some (live', c, r) ∧
             forget_sleep <$> live ≡ₚ forget_sleep <$> live'.
Proof.
  induction 1 as [|x l l' HP IH|x y l|l l' l'' HP1 IH1 HP2 IH2];
    intros cable rng live c r Hready Hm Hrun.
  - exists live. by split.
  - apply pass_ready_cons in Hready as (Hco & Hon & _ & Hrest).
    destruct (medium_cell cable _ Hm Hon) as [c0 Hc0].
    destruct (refresh_outcome x c0 Hco Hon)
      as (b & f & n & x' & _ & _ & Hf & Hx).
    cbn [refresh_all] in *. rewrite (Hx _ _ Hm Hc0) in *.
    cbn [mbind option_bind] in *.
    destruct (refresh_all l _ _) as [[[live0 c1] r1]|] eqn:Hl;
      cbn [mbind option_bind] in Hrun; [|done].
    simplify_eq.
    destruct (IH _ _ _ _ _ Hrest (alter_medium _ _ _ Hf Hm) Hl)
      as (live0' & -> & HP0).
    cbn [mbind option_bind]. eexists; split; [done|].
    destruct b; rewrite ?fmap_cons; by rewrite HP0.
  - apply pass_ready_cons in Hready as (Hcy & Hony & Hny & Hready).
    apply pass_ready_cons in Hready as (Hcx & Honx & _ & Hrest).
    assert (Hk : Z.to_nat (Device.pos y) ≠ Z.to_nat (Device.pos x)).
    { intros Heq. apply Hny. rewrite fmap_cons.
      replace (Device.pos y) with (Device.pos x)
        by (unfold on_medium in *; lia).
      apply list_elem_of_here. }
    destruct (medium_cell cable _ Hm Hony) as [cy Hy0].
    destruct (medium_cell cable _ Hm Honx) as [cx Hx0].
    destruct (refresh_outcome y cy Hcy Hony)
      as (by' & fy & ny & y' & _ & Hsy & Hfy & Hy).
    destruct (refresh_outcome x cx Hcx Honx)
      as (bx & fx & nx & x' & _ & Hsx & Hfx & Hx).
    cbn [refresh_all] in *.
    rewrite (Hy _ _ Hm Hy0) in Hrun. cbn [mbind option_bind] in Hrun.
    rewrite (Hx _ _ (alter_medium _ _ _ Hfy Hm)) in Hrun
      by (by rewrite list_lookup_alter_ne).
    cbn [mbind option_bind] in Hrun.
    rewrite (Hx _ _ Hm Hx0). cbn [mbind option_bind].
    rewrite (Hy _ _ (alter_medium _ _ _ Hfx Hm))
      by (by rewrite list_lookup_alter_ne).
    cbn [mbind option_bind].
    rewrite list_alter_alter_ne by done.
    rewrite !advance_advance in *.
    replace (nx + ny)%nat with (ny + nx)%nat by lia.
    destruct (refresh_all l _ _) as [[[live0 c1] r1]|];
      cbn [mbind option_bind] in *; [|done].
    simplify_eq. eexists; split; [done|].
    pose proof (Hsy (backoff_draw rng) (backoff_draw (advance nx rng))) as Ey.
    pose proof (Hsx (backoff_draw (advance ny rng)) (backoff_draw rng)) as Ex.
    destruct by', bx; rewrite ?fmap_cons, ?Ey, ?Ex; try done.
    apply perm_swap.
  - destruct (IH1 _ _ _ _ _ Hready Hm Hrun) as (live1 & Hrun1 & HPa).
    destruct (IH2 _ _ _ _ _ (pass_ready_perm _ _ HP1 Hready) Hm Hrun1)
      as (live2 & Hrun2 & HPb).
    exists live2. split; [done|]. by rewrite HPa.
Qed.

(** X8.  The order of the device pass, for any generator.  For devices
    on pairwise distinct cells of a well-formed medium, the pass returns
    normally, and the pass over any permutation of the device list ends
    with the same medium and the same generator state, keeps the same
    devices and leaves them in the same states but for the backoff
    length a transmission may have drawn. *)
Theorem pass_order_any_generator
    (ds ds' : list Device.t) (cable : list CableCell.t) (seed : Random) :
  pass_ready ds → medium cable → ds ≡ₚ ds' →
  ∃ live live' c r,
    refresh_all ds cable seed = Some (live, c, r) ∧
    refresh_all ds' cable seed = Some (live', c, r) ∧
    forget_sleep <$> live ≡ₚ forget_sleep <$> live'.
Proof.
  intros Hready Hm HP.
  destruct (refresh_all_never_raises ds cable seed Hready Hm)
    as [[[live c] r] Hrun].
  destruct (refresh_all_perm_any ds ds' HP cable seed live c r Hready Hm Hrun)
    as (live' & Hrun' & HP').
  by exists live, live', c, r.
Qed.

Lemma pass_order_any_generator_witness :
  let a := Device.mk "A" 3 0 None [(1, Transmission.init "A" 3 5)] in
  let b := Device.mk "B" 9 0 None [(1, Transmission.init "B" 9 6)] in
  ∃ live live' c r,
    refresh_all [a; b] new_medium (mkRandom (λ _, 0%nat) 0) = Some (live, c, r) ∧
    refresh_all [b; a] new_medium (mkRandom (λ _, 0%nat) 0) = Some (live', c, r) ∧
    forget_sleep <$> live ≡ₚ forget_sleep <$> live'.
Proof.
  intros a b.
  apply (pass_order_any_generator [a; b] [b; a]).
  - split.
    + assert (Ha : coherent a ∧ on_medium a).
      { split; [split; [intros t Ht; discriminate Ht|]|].
        - apply Forall_cons. split; [reflexivity|apply Forall_nil_2].
        - unfold on_medium, ETHERNET_CABLE_LENGHT. simpl. lia. }
      assert (Hb : coherent b ∧ on_medium b).
      { split; [split; [intros t Ht; discriminate Ht|]|].
        - apply Forall_cons. split; [reflexivity|apply Forall_nil_2].
        - unfold on_medium, ETHERNET_CABLE_LENGHT. simpl. lia. }
      apply Forall_cons. split; [exact Ha|].
      apply Forall_cons. split; [exact Hb|apply Forall_nil_2].
    + simpl. repeat (apply NoDup_cons; split;
                       [rewrite ?not_elem_of_cons; repeat split;
                        first [lia | apply not_elem_of_nil]|]).
      apply NoDup_nil_2.
  - reflexivity.
  - apply perm_swap.
Defined.

(** ** The pass and the length of the cable *)

Lemma propagate_length (self : CableCell.t) (cable nc nc' : list CableCell.t) :
  CableCell.propagate self cable nc = Some nc' → length nc' = length nc.
Proof.
  unfold CableCell.propagate. intros H.
  destruct (getitem nc _); cbn [mbind option_bind] in H; [|done].
  destruct (CableCell.propagate_left self cable nc) as [nc1|] eqn:H1;
    cbn [mbind option_bind] in H; [|done].
  destruct (CableCell.propagate_right self cable nc1) as [nc2|] eqn:H2;
    cbn [mbind option_bind] in H; [|done].
  apply propagate_left_length in H1. apply propagate_right_length in H2.
  apply setitem_attr_length in H. congruence.
Qed.

Lemma pass_fold_None (cable l : list CableCell.t) :
  foldl (λ acc cell, nc ← acc; CableCell.propagate cell cable nc) None l = None.
Proof. by induction l. Qed.

Lemma pass_fold_length (cable l nc : list CableCell.t) :
  foldl (λ acc cell, nc ← acc; CableCell.propagate cell cable nc)
        (Some new_medium) l = Some nc →
  length nc = cells.
Proof.
  revert nc. induction l as [|c l IH] using rev_ind; intros nc.
  - simpl. intros ?; simplify_eq. apply (cells_length _ new_medium_medium).
  - rewrite foldl_snoc.
    destruct (foldl _ _ l) as [nc0|]; cbn [mbind option_bind]; [|done].
    intros H%propagate_length. rewrite H. by apply IH.
Qed.

Lemma indexed_pos (cable : list CableCell.t) (i : nat) (c : CableCell.t) :
  indexed cable → cable !! i = Some c → CableCell.pos c = Z.of_nat i.
Proof.
  unfold indexed. intros Hix Hc.
  assert (Hi : (CableCell.pos <$> cable) !! i = Some (CableCell.pos c))
    by (by rewrite list_lookup_fmap, Hc).
  rewrite Hix in Hi. apply lookup_seqZ in Hi. lia.
Qed.

(** X9.  The pass is tied to the constant [ETHERNET_CABLE_LENGHT]: on a
    non-empty cable whose cells carry their index but whose length is
    not that constant, it raises [IndexError], the last cell of a
    shorter cable reaching for a right neighbour that is not there and
    the cell 20 of a longer one for a cell of [new_cable] that is not
    there. *)
Theorem pass_needs_full_length (cable : list CableCell.t) :
  indexed cable → cable ≠ [] →
  Z.of_nat (length cable) ≠ ETHERNET_CABLE_LENGHT →
  propagate_all cable = None.
Proof.
  intros Hix Hne Hlen. unfold propagate_all.
  pose proof cable_length_pos as HN.
  destruct (decide (Z.of_nat (length cable) < ETHERNET_CABLE_LENGHT)) as [Hs|Hs].
  - (* shorter: the last cell has no right neighbour to read *)
    destruct cable as [|c0 cable0] using rev_ind; [done|]. clear IHcable0.
    rewrite foldl_snoc.
    destruct (foldl _ _ cable0) as [nc|]; cbn [mbind option_bind]; [|done].
    assert (Hp : CableCell.pos c0 = Z.of_nat (length cable0)).
    { apply (indexed_pos _ _ _ Hix). by rewrite lookup_app_r, Nat.sub_diag. }
    rewrite length_app in Hs, Hlen. simpl in Hs, Hlen.
    unfold CableCell.propagate.
    destruct (getitem nc _); cbn [mbind option_bind]; [|done].
    destruct (CableCell.propagate_left _ _ _) as [nc1|];
      cbn [mbind option_bind]; [|done].
    assert (Hout : getitem (cable0 ++ [c0]) (CableCell.pos c0 + 1) = None).
    { unfold getitem. rewrite py_index_out; [reflexivity|].
      rewrite length_app. simpl. lia. }
    unfold CableCell.propagate_right. rewrite decide_True by lia.
    by rewrite Hout.
  - (* longer: cell 20 has no cell of [new_cable] to write to *)
    destruct (cable !! cells) as [c|] eqn:Hc;
      [|apply lookup_ge_None in Hc; unfold cells in Hc; lia].
    rewrite <- (take_drop_middle _ _ _ Hc), foldl_app. cbn [foldl].
    destruct (foldl _ _ (take cells cable)) as [nc|] eqn:Hfold;
      cbn [mbind option_bind]; [|apply pass_fold_None].
    apply pass_fold_length in Hfold.
    replace (CableCell.propagate c _ nc) with (@None (list CableCell.t));
      [apply pass_fold_None|].
    assert (Hout : getitem nc (CableCell.pos c) = None).
    { unfold getitem. rewrite py_index_out; [reflexivity|].
      rewrite (indexed_pos _ _ _ Hix Hc), Hfold. lia. }
    unfold CableCell.propagate. by rewrite Hout.
Qed.

Lemma pass_needs_full_length_witness :
  propagate_all (CableCell.init <$> seqZ 0 19) = None ∧
  propagate_all (CableCell.init <$> seqZ 0 21) = None.
Proof.
  split; apply pass_needs_full_length; try reflexivity; try discriminate.
Defined.

(** ** Bit stuffing *)

Lemma stuff_bit_acc (r : list ascii) (c : Z) (b : ascii) :
  FrameProcessor.stuff_bit (r, c) b =
  (r ++ (FrameProcessor.stuff_bit ([], c) b).1,
   (FrameProcessor.stuff_bit ([], c) b).2).
Proof.
  unfold FrameProcessor.stuff_bit.
  repeat case_decide; cbn [fst snd]; by rewrite <- ?app_assoc.
Qed.

Lemma stuffing_acc (data r : list ascii) (c : Z) :
  (foldl FrameProcessor.stuff_bit (r, c) data).1 =
  r ++ (foldl FrameProcessor.stuff_bit ([], c) data).1.
Proof.
  revert r c. induction data as [|b data IH]; intros r c; cbn [foldl].
  - cbn [fst]. by rewrite app_nil_r.
  - rewrite stuff_bit_acc.
    destruct (FrameProcessor.stuff_bit ([], c) b) as [r1 c1]; cbn [fst snd].
    rewrite (IH (r ++ r1)), (IH r1). by rewrite app_assoc.
Qed.

Lemma destuff_loop_acc (rest r : list ascii) (c : Z) :
  FrameProcessor.destuff_loop rest c r =
  r ++ FrameProcessor.destuff_loop rest c [].
Proof.
  revert r c. induction rest as [rest IH] using (induction_ltof1 _ length).
  unfold ltof in IH. intros r c.
  destruct rest as [|b rest]; cbn [FrameProcessor.destuff_loop].
  - by rewrite app_nil_r.
  - assert (IH' : ∀ y, (length y ≤ length rest)%nat → ∀ c',
              FrameProcessor.destuff_loop y c' (r ++ [b]) =
              r ++ FrameProcessor.destuff_loop y c' ([] ++ [b])).
    { intros y Hy c'.
      rewrite (IH y) by (simpl; lia).
      rewrite (IH y ltac:(simpl; lia) ([] ++ [b])).
      by rewrite app_assoc. }
    repeat case_decide; try (apply IH'; lia).
    destruct rest as [|n rest']; [apply IH'; lia|].
    case_decide; apply IH'; simpl; lia.
Qed.

Lemma stuff_then_destuff (data r : list ascii) (c : Z) :
  FrameProcessor.destuff_loop
    (foldl FrameProcessor.stuff_bit ([], c) data).1 c r = r ++ data.
Proof.
  revert r c. induction data as [|b data IH]; intros r c; cbn [foldl].
  - cbn. by rewrite app_nil_r.
  - unfold FrameProcessor.stuff_bit at 2. rewrite app_nil_l.
    destruct (decide (b = "1"%char)) as [Hb|Hb].
    + destruct (decide (c + 1 = 5)) as [Hc|Hc].
      * rewrite stuffing_acc. cbn [app FrameProcessor.destuff_loop].
        rewrite !decide_True by done.
        rewrite IH. by rewrite <- app_assoc.
      * rewrite stuffing_acc. cbn [app FrameProcessor.destuff_loop].
        rewrite decide_True, decide_False by done.
        rewrite IH. by rewrite <- app_assoc.
    + rewrite stuffing_acc. cbn [app FrameProcessor.destuff_loop].
      rewrite decide_False by done.
      rewrite IH. by rewrite <- app_assoc.
Qed.

(** X10.  Destuffing undoes stuffing, on every string: whatever
    characters [data] holds, [bit_destuffing(bit_stuffing(data))] is
    [data]. *)
Theorem destuffing_undoes_stuffing (data : list ascii) :
  FrameProcessor.bit_destuffing (FrameProcessor.bit_stuffing data) = data.
Proof.
  unfold FrameProcessor.bit_destuffing, FrameProcessor.bit_stuffing.
  by rewrite stuff_then_destuff.
Qed.

Lemma runs_below_six (count : Z) (l1 l2 : list ascii) :
  0 ≤ count →
  runs_below count (l1 ++ replicate 6 "1"%char ++ l2) = false.
Proof.
  revert count. induction l1 as [|b l1 IH]; intros count Hc.
  - cbn [app replicate runs_below]. rewrite !decide_True by done.
    rewrite (bool_decide_eq_false_2 (count + 1 + 1 + 1 + 1 + 1 + 1 ≤ 5)) by lia.
    cbn [andb]. by rewrite !andb_false_r.
  - cbn [app runs_below]. case_decide; [|by apply IH].
    rewrite IH by lia. apply andb_false_r.
Qed.

Lemma runs_below_stuffing (data : list ascii) (c : Z) :
  0 ≤ c ≤ 4 →
  runs_below c (foldl FrameProcessor.stuff_bit ([], c) data).1 = true.
Proof.
  revert c. induction data as [|b data IH]; intros c Hc; cbn [foldl].
  - reflexivity.
  - unfold FrameProcessor.stuff_bit at 2. rewrite app_nil_l.
    destruct (decide (b = "1"%char)) as [Hb|Hb].
    + destruct (decide (c + 1 = 5)) as [H5|H5];
        rewrite stuffing_acc; cbn [app runs_below].
      * rewrite decide_True, decide_False by done.
        rewrite bool_decide_eq_true_2 by lia. cbn [andb]. apply IH. lia.
      * rewrite decide_True by done.
        rewrite bool_decide_eq_true_2 by lia. cbn [andb]. apply IH. lia.
    + rewrite stuffing_acc; cbn [app runs_below].
      rewrite decide_False by done. apply IH. lia.
Qed.

(** X11.  Stuffed data never holds six ['1'] in a row, whatever the
    input: the flag [01111110] cannot occur inside the stuffed part of a
    frame. *)
Theorem stuffing_breaks_runs (data l1 l2 : list ascii) :
  FrameProcessor.bit_stuffing data ≠ l1 ++ replicate 6 "1"%char ++ l2 ∧
  FrameProcessor.bit_stuffing data ≠ l1 ++ FrameProcessor.FLAG ++ l2.
Proof.
  assert (Hruns : ∀ l1 l2, FrameProcessor.bit_stuffing data ≠
                           l1 ++ replicate 6 "1"%char ++ l2).
  { intros k1 k2 Heq.
    pose proof (runs_below_stuffing data 0 ltac:(lia)) as Hok.
    unfold FrameProcessor.bit_stuffing in Heq.
    rewrite Heq, runs_below_six in Hok by lia. discriminate. }
  split; [apply Hruns|].
  intros Heq. apply (Hruns (l1 ++ ["0"%char]) ("0"%char :: l2)).
  rewrite Heq. by rewrite <- app_assoc.
Qed.

Lemma stuffing_length (data : list ascii) (c : Z) :
  0 ≤ c ≤ 4 →
  Z.of_nat (length data) ≤
    Z.of_nat (length (foldl FrameProcessor.stuff_bit ([], c) data).1) ≤
    Z.of_nat (length data) + (Z.of_nat (length data) + c) `div` 5.
Proof.
  revert c. induction data as [|b data IH]; intros c Hc; cbn [foldl].
  - cbn [fst length]. rewrite Z.div_small by lia. lia.
  - unfold FrameProcessor.stuff_bit at 2 4. rewrite app_nil_l.
    destruct (decide (b = "1"%char)) as [Hb|Hb].
    + destruct (decide (c + 1 = 5)) as [H5|H5]; rewrite stuffing_acc.
      * specialize (IH 0 ltac:(lia)).
        rewrite length_app. cbn [app length].
        replace (Z.of_nat (S (length data)) + c)
          with (Z.of_nat (length data) + 0 + 1 * 5) by lia.
        rewrite Z.div_add by lia. lia.
      * specialize (IH (c + 1) ltac:(lia)).
        rewrite length_app. cbn [app length].
        replace (Z.of_nat (S (length data)) + c)
          with (Z.of_nat (length data) + (c + 1)) by lia.
        lia.
    + rewrite stuffing_acc. specialize (IH 0 ltac:(lia)).
      rewrite length_app. cbn [app length].
      assert ((Z.of_nat (length data) + 0) `div` 5 ≤
              (Z.of_nat (S (length data)) + c) `div` 5)
        by (apply Z.div_le_mono; lia).
      lia.
Qed.

(** X12.  Stuffing only inserts, and at most one character for every
    five of the input. *)
Theorem stuffing_overhead (data : list ascii) :
  Z.of_nat (length data) ≤
    Z.of_nat (length (FrameProcessor.bit_stuffing data)) ≤
    Z.of_nat (length data) + Z.of_nat (length data) `div` 5.
Proof.
  pose proof (stuffing_length data 0 ltac:(lia)) as H.
  by rewrite Z.add_0_r in H.
Qed.

(** ** The division on bits *)

Lemma length_subtract_upto (i m : nat) (w : list bool) :
  length (subtract_upto i m w) = length w.
Proof. apply length_imap. Qed.

Lemma length_divide_step (w : list bool) (i : nat) :
  length (divide_step w i) = length w.
Proof.
  unfold divide_step. destruct (w !! i) as [[]|]; [|done..].
  apply length_subtract_upto.
Qed.

Lemma length_divide_from (l : list nat) (w : list bool) :
  length (foldl divide_step w l) = length w.
Proof.
  revert w. induction l as [|i l IH]; intros w; cbn [foldl]; [done|].
  by rewrite IH, length_divide_step.
Qed.

Lemma lookup_subtract_upto (i m k : nat) (w : list bool) :
  subtract_upto i m w !! k =
  (λ b, if decide (i ≤ k < i + m)%nat
        then xorb b (poly_bit (k - i)) else b) <$> w !! k.
Proof. unfold subtract_upto. by rewrite list_lookup_imap. Qed.

Lemma lookup_xor_tail (n k : nat) (y w : list bool) :
  xor_tail n y w !! k =
  (λ b, if decide (n ≤ k)%nat
        then xorb b (default false (y !! (k - n)%nat)) else b) <$> w !! k.
Proof. unfold xor_tail. by rewrite list_lookup_imap. Qed.

(** A step leaves alone what lies behind the divisor. *)
Lemma divide_step_app (w t : list bool) (i : nat) :
  (i + 9 ≤ length w)%nat →
  divide_step (w ++ t) i = divide_step w i ++ t.
Proof.
  intros Hi. unfold divide_step.
  rewrite lookup_app_l by lia.
  destruct (w !! i) as [[]|]; [|done..].
  apply list_eq. intros k. unfold subtract_at.
  rewrite lookup_subtract_upto.
  destruct (decide (k < length w)%nat) as [Hk|Hk].
  - rewrite !lookup_app_l by (rewrite ?length_subtract_upto; lia).
    by rewrite lookup_subtract_upto.
  - rewrite !lookup_app_r by (rewrite ?length_subtract_upto; lia).
    rewrite length_subtract_upto.
    destruct (t !! _) as [b|]; [|done]. cbn [fmap option_fmap option_map].
    rewrite decide_False; [done|]. change (length FrameProcessor.CRC_POLY) with 9%nat. lia.
Qed.

Lemma divide_app (n : nat) (w t : list bool) :
  (n + 8 ≤ length w)%nat → divide n (w ++ t) = divide n w ++ t.
Proof.
  unfold divide. induction n as [|n IH]; intros Hn; [done|].
  rewrite seq_S, !foldl_snoc, IH by lia. cbn [plus].
  apply divide_step_app. rewrite length_divide_from. lia.
Qed.

(** A step commutes with an addition behind the bit it reads. *)
Lemma divide_step_xor_tail (n i : nat) (y w : list bool) :
  (i < n)%nat →
  divide_step (xor_tail n y w) i = xor_tail n y (divide_step w i).
Proof.
  intros Hi. unfold divide_step.
  rewrite lookup_xor_tail.
  destruct (w !! i) as [b|] eqn:Hb; cbn [fmap option_fmap option_map]; [|done].
  rewrite decide_False by lia. destruct b; [|done].
  apply list_eq. intros k. unfold subtract_at.
  rewrite lookup_subtract_upto, !lookup_xor_tail, lookup_subtract_upto.
  destruct (w !! k) as [b|]; [|done]. cbn [fmap option_fmap option_map].
  f_equal. repeat case_decide; try done; try lia.
  by destruct b, (poly_bit (k - i)), (default false (y !! (k - n)%nat)).
Qed.

Lemma divide_xor_tail (n m : nat) (y w : list bool) :
  (m ≤ n)%nat →
  divide m (xor_tail n y w) = xor_tail n y (divide m w).
Proof.
  unfold divide. induction m as [|m IH]; intros Hm; [done|].
  rewrite seq_S, !foldl_snoc, IH by lia. cbn [plus].
  apply divide_step_xor_tail. lia.
Qed.

Lemma xor_tail_zero (d y : list bool) (m : nat) :
  length y = m →
  xor_tail (length d) y (d ++ replicate m false) = d ++ y.
Proof.
  intros Hy. apply list_eq. intros k. rewrite lookup_xor_tail.
  destruct (decide (k < length d)%nat) as [Hk|Hk].
  - rewrite !lookup_app_l by lia.
    destruct (d !! k); [|done]. cbn [fmap option_fmap option_map].
    by rewrite decide_False by lia.
  - rewrite !lookup_app_r by lia.
    destruct (decide (k - length d < m)%nat) as [Hm|Hm].
    + rewrite lookup_replicate_2 by lia. cbn [fmap option_fmap option_map].
      rewrite decide_True by lia.
      destruct (lookup_lt_is_Some_2 y (k - length d)) as [b Hb]; [lia|].
      by rewrite Hb.
    + rewrite (lookup_ge_None_2 (replicate m false))
        by (rewrite length_replicate; lia).
      by rewrite (lookup_ge_None_2 y) by lia.
Qed.

Lemma xor_tail_self (z y : list bool) :
  xor_tail (length z) y (z ++ y) = z ++ replicate (length y) false.
Proof.
  apply list_eq. intros k. rewrite lookup_xor_tail.
  destruct (decide (k < length z)%nat) as [Hk|Hk].
  - rewrite !lookup_app_l by lia.
    destruct (z !! k); [|done]. cbn [fmap option_fmap option_map].
    by rewrite decide_False by lia.
  - rewrite !lookup_app_r by lia.
    destruct (y !! (k - length z)%nat) as [b|] eqn:Hb.
    + cbn [fmap option_fmap option_map default]. rewrite decide_True by lia.
      rewrite xorb_nilpotent. symmetry. apply lookup_replicate_2.
      by eapply lookup_lt_Some.
    + symmetry. apply lookup_ge_None_2. rewrite length_replicate.
      by apply lookup_ge_None.
Qed.

(** The division passes over a stretch of zeros. *)
Lemma divide_zeros (w : list bool) (n m : nat) :
  (∀ i, n ≤ i < n + m → w !! i = Some false)%nat →
  foldl divide_step w (seq n m) = w.
Proof.
  revert n. induction m as [|m IH]; intros n Hz; [done|].
  cbn [seq foldl]. unfold divide_step at 2. rewrite Hz by lia.
  apply IH. intros i Hi. apply Hz. lia.
Qed.

Lemma length_crc_bits (d : list bool) : length (crc_bits d) = 8%nat.
Proof.
  unfold crc_bits, divide.
  rewrite length_drop, length_divide_from, length_app, length_replicate. lia.
Qed.

(** The remainder of the data followed by its remainder is zero. *)
Lemma crc_bits_syndrome (d : list bool) :
  crc_bits (d ++ crc_bits d) = replicate 8 false.
Proof.
  pose proof (length_crc_bits d) as Hr.
  set (n := length d). set (r := crc_bits d) in *.
  set (q := divide n (d ++ replicate 8 false)).
  assert (Hq : length q = (n + 8)%nat).
  { unfold q, divide.
    by rewrite length_divide_from, length_app, length_replicate. }
  assert (Hqr : q = take n q ++ r) by (symmetry; apply take_drop).
  assert (Hz : length (take n q) = n) by (rewrite length_take; lia).
  unfold crc_bits at 1. rewrite length_app, Hr. fold n.
  replace ((d ++ r) ++ replicate 8 false)
    with (xor_tail n (r ++ replicate 8 false) (d ++ replicate 16 false)).
  2:{ unfold n. rewrite xor_tail_zero, app_assoc;
        [done|rewrite length_app, length_replicate; lia]. }
  unfold divide. rewrite seq_app, foldl_app.
  change (foldl divide_step ?w (seq 0 n)) with (divide n w).
  rewrite divide_xor_tail by lia.
  change (replicate 16 false) with (replicate 8 false ++ replicate 8 false).
  rewrite app_assoc, divide_app by (rewrite length_app, length_replicate; lia).
  fold q. rewrite Hqr, <- app_assoc.
  pose proof (xor_tail_self (take n q) (r ++ replicate 8 false)) as Hs.
  rewrite Hz in Hs. rewrite Hs. clear Hs.
  rewrite length_app, length_replicate, Hr.
  rewrite divide_zeros.
  - rewrite drop_app_ge by lia. rewrite Hz.
    replace (n + 8 - n)%nat with 8%nat by lia. reflexivity.
  - intros i Hi. rewrite lookup_app_r by lia.
    apply lookup_replicate_2. lia.
Qed.

(** ** [crc_calculate] is that division *)

Lemma seqZ_nat (n : nat) : seqZ 0 (Z.of_nat n) = Z.of_nat <$> seq 0 n.
Proof.
  unfold seqZ. rewrite Nat2Z.id. apply list_fmap_ext. intros; lia.
Qed.

Lemma chars_bits (s : list ascii) :
  bit_string s → char_of <$> (bit_of <$> s) = s.
Proof.
  induction 1 as [|c s [->| ->] _ IH]; [done|..]; cbn [fmap list_fmap];
    fold (fmap (M:=list) bit_of); fold (fmap (M:=list) char_of);
    by rewrite IH.
Qed.

Lemma bits_chars (w : list bool) : bit_of <$> (char_of <$> w) = w.
Proof.
  induction w as [|[] w IH]; [done|..]; cbn [fmap list_fmap];
    fold (fmap (M:=list) bit_of); fold (fmap (M:=list) char_of);
    by rewrite IH.
Qed.

Lemma bit_string_chars (w : list bool) : bit_string (char_of <$> w).
Proof.
  unfold bit_string. apply Forall_fmap, Forall_forall.
  intros [] _; cbn; auto.
Qed.

Lemma int_char_of (b : bool) : int (char_of b) = Some (if b then 1 else 0).
Proof. by destruct b. Qed.

Lemma digit_xor (a b : bool) :
  digit (Z.lxor (if a then 1 else 0) (if b then 1 else 0)) =
  char_of (xorb a b).
Proof. by destruct a, b. Qed.

Lemma poly_getitem (j : nat) :
  (j < 9)%nat →
  getitem FrameProcessor.CRC_POLY (Z.of_nat j) = Some (char_of (poly_bit j)).
Proof.
  intros Hj. do 9 (destruct j as [|j]; [reflexivity|]). lia.
Qed.

Lemma subtract_upto_0 (i : nat) (w : list bool) : subtract_upto i 0 w = w.
Proof.
  apply list_eq. intros k. rewrite lookup_subtract_upto.
  destruct (w !! k); [|done]. cbn [fmap option_fmap option_map].
  by rewrite decide_False by lia.
Qed.

Lemma xor_bit_turn (w : list bool) (i j : nat) :
  (j < 9)%nat → (i + j < length w)%nat →
  FrameProcessor.xor_bit FrameProcessor.CRC_POLY (Z.of_nat i)
    (Some (char_of <$> subtract_upto i j w)) (Z.of_nat j) =
  Some (char_of <$> subtract_upto i (S j) w).
Proof.
  intros Hj Hi. unfold FrameProcessor.xor_bit. cbn [mbind option_bind].
  rewrite length_fmap, length_subtract_upto, decide_True by lia.
  replace (Z.of_nat i + Z.of_nat j) with (Z.of_nat (i + j)) by lia.
  destruct (lookup_lt_is_Some_2 w (i + j)%nat) as [b Hb]; [lia|].
  assert (Hc : (char_of <$> subtract_upto i j w) !! (i + j)%nat =
               Some (char_of b)).
  { rewrite list_lookup_fmap, lookup_subtract_upto, Hb.
    cbn [fmap option_fmap option_map]. by rewrite decide_False by lia. }
  rewrite (getitem_nat _ _ _ Hc). cbn [mbind option_bind].
  rewrite int_char_of. cbn [mbind option_bind].
  rewrite poly_getitem by lia. cbn [mbind option_bind].
  rewrite int_char_of. cbn [mbind option_bind].
  rewrite digit_xor.
  rewrite setitem_attr_nat by (rewrite length_fmap, length_subtract_upto; lia).
  f_equal. apply list_eq. intros k.
  destruct (decide (k = (i + j)%nat)) as [->|Hk].
  - rewrite list_lookup_alter, Hc.
    rewrite list_lookup_fmap, lookup_subtract_upto, Hb.
    cbn [fmap option_fmap option_map].
    replace (i + j - i)%nat with j by lia.
    destruct (decide (i ≤ i + j < i + S j)%nat) as [?|Hn];
      [|exfalso; apply Hn; lia].
    destruct (decide ((i + j)%nat = (i + j)%nat)); done.
  - rewrite list_lookup_alter_ne by done.
    rewrite !list_lookup_fmap, !lookup_subtract_upto.
    destruct (w !! k); [|done]. cbn [fmap option_fmap option_map].
    repeat case_decide; try done; lia.
Qed.

Lemma xor_bits_spec (w : list bool) (i m : nat) :
  (m ≤ 9)%nat → (i + 9 ≤ length w)%nat →
  foldl (FrameProcessor.xor_bit FrameProcessor.CRC_POLY (Z.of_nat i))
        (Some (char_of <$> w)) (Z.of_nat <$> seq 0 m) =
  Some (char_of <$> subtract_upto i m w).
Proof.
  intros Hm Hi. induction m as [|m IH].
  - by rewrite subtract_upto_0.
  - rewrite seq_S, fmap_app, foldl_app, IH by lia.
    apply xor_bit_turn; lia.
Qed.

Lemma divide_at_spec (w : list bool) (i : nat) :
  (i + 9 ≤ length w)%nat →
  FrameProcessor.divide_at FrameProcessor.CRC_POLY
    (Some (char_of <$> w)) (Z.of_nat i) =
  Some (char_of <$> divide_step w i).
Proof.
  intros Hi. unfold FrameProcessor.divide_at, divide_step.
  cbn [mbind option_bind].
  destruct (lookup_lt_is_Some_2 w i) as [b Hb]; [lia|].
  rewrite (getitem_nat _ i (char_of b)) by (by rewrite list_lookup_fmap, Hb).
  cbn [mbind option_bind]. rewrite Hb. destruct b.
  - rewrite decide_True by done.
    rewrite seqZ_nat. by apply xor_bits_spec.
  - by rewrite decide_False by done.
Qed.

Lemma divide_loop_spec (w : list bool) (n : nat) :
  (n + 8 ≤ length w)%nat →
  foldl (FrameProcessor.divide_at FrameProcessor.CRC_POLY)
        (Some (char_of <$> w)) (Z.of_nat <$> seq 0 n) =
  Some (char_of <$> divide n w).
Proof.
  intros Hn. induction n as [|n IH]; [done|].
  unfold divide. rewrite seq_S, fmap_app, foldl_app, foldl_snoc, IH by lia.
  apply divide_at_spec. unfold divide. rewrite length_divide_from. lia.
Qed.

Lemma py_slice_last {A} (l : list A) (k : nat) :
  (k ≤ length l)%nat → (0 < k)%nat →
  py_slice l (Some (- Z.of_nat k)) None = drop (length l - k) l.
Proof.
  intros Hk H0. unfold py_slice, slice_bound. cbn [from_option].
  rewrite decide_True by lia.
  replace (Z.to_nat (Z.max _ 0)) with (length l - k)%nat by lia.
  apply take_ge. rewrite length_drop. lia.
Qed.

Lemma py_slice_but_last {A} (l : list A) (k : nat) :
  (k ≤ length l)%nat → (0 < k)%nat →
  py_slice l None (Some (- Z.of_nat k)) = take (length l - k) l.
Proof.
  intros Hk H0. unfold py_slice, slice_bound. cbn [from_option].
  rewrite decide_True by lia. cbn [Z.to_nat drop]. f_equal. lia.
Qed.

Lemma crc_calculate_chars (d : list bool) :
  FrameProcessor.crc_calculate (char_of <$> d) =
  Some (char_of <$> crc_bits d).
Proof.
  unfold FrameProcessor.crc_calculate.
  change (replicate 8 "0"%char) with (char_of <$> replicate 8 false).
  rewrite <- fmap_app, length_fmap, seqZ_nat.
  rewrite divide_loop_spec by (rewrite length_app, length_replicate; lia).
  cbn [mbind option_bind]. f_equal.
  assert (Hlen : length (char_of <$> divide (length d) (d ++ replicate 8 false))
                 = (length d + 8)%nat).
  { unfold divide.
    by rewrite length_fmap, length_divide_from, length_app, length_replicate. }
  rewrite (py_slice_last _ 8) by lia. rewrite Hlen.
  replace (length d + 8 - 8)%nat with (length d) by lia.
  by rewrite <- fmap_drop.
Qed.

Lemma crc_calculate_bits (data : list ascii) :
  bit_string data →
  FrameProcessor.crc_calculate data =
  Some (char_of <$> crc_bits (bit_of <$> data)).
Proof.
  intros Hd. rewrite <- (chars_bits data Hd) at 1. apply crc_calculate_chars.
Qed.

(** X13.  On a string of bits [crc_calculate] returns, and what it
    returns is a string of eight bits. *)
Theorem crc_is_eight_bits (data : list ascii) :
  bit_string data →
  ∃ crc, FrameProcessor.crc_calculate data = Some crc ∧
         length crc = 8%nat ∧ bit_string crc.
Proof.
  intros Hd. eexists. split; [by apply crc_calculate_bits|]. split.
  - by rewrite length_fmap, length_crc_bits.
  - apply bit_string_chars.
Qed.

Lemma crc_is_eight_bits_witness :
  ∃ crc, FrameProcessor.crc_calculate
           (String.list_ascii_of_string "110100111") = Some crc ∧
         length crc = 8%nat ∧ bit_string crc.
Proof.
  apply crc_is_eight_bits. unfold bit_string. cbn.
  repeat (apply Forall_cons; split; [first [by left|by right]|]).
  constructor.
Defined.

(** X14.  The checksum is a remainder: the data followed by its own
    checksum has the checksum [00000000]. *)
Theorem crc_of_checked_data_is_zero (data : list ascii) :
  bit_string data →
  ∃ crc, FrameProcessor.crc_calculate data = Some crc ∧
         FrameProcessor.crc_calculate (data ++ crc) =
         Some (replicate 8 "0"%char).
Proof.
  intros Hd. eexists. split; [by apply crc_calculate_bits|].
  rewrite <- (chars_bits data Hd) at 1.
  rewrite <- fmap_app, crc_calculate_chars, crc_bits_syndrome. done.
Qed.

Lemma crc_of_checked_data_is_zero_witness :
  ∃ crc, FrameProcessor.crc_calculate
           (String.list_ascii_of_string "110100111") = Some crc ∧
         FrameProcessor.crc_calculate
           (String.list_ascii_of_string "110100111" ++ crc) =
         Some (replicate 8 "0"%char).
Proof.
  apply crc_of_checked_data_is_zero. unfold bit_string. cbn.
  repeat (apply Forall_cons; split; [first [by left|by right]|]).
  constructor.
Defined.

(** ** Frames *)

Lemma py_slice_middle {A} (a m b : list A) :
  (0 < length b)%nat →
  py_slice (a ++ m ++ b) (Some (Z.of_nat (length a)))
           (Some (- Z.of_nat (length b))) = m.
Proof.
  intros Hb. unfold py_slice, slice_bound. cbv zeta. cbn [from_option].
  rewrite !length_app.
  destruct (decide (Z.of_nat (length a) < 0)); [lia|].
  destruct (decide (- Z.of_nat (length b) < 0)); [|lia].
  replace (Z.to_nat (Z.min _ _)) with (length a) by lia.
  rewrite drop_app_length.
  replace (Z.to_nat _) with (length m) by lia.
  apply take_app_length.
Qed.

Lemma length_py_slice {A} (l : list A) (a b : Z) :
  0 ≤ a → 0 < b →
  Z.of_nat (length (py_slice l (Some a) (Some (- b)))) ≤
  Z.max 0 (Z.of_nat (length l) - a - b).
Proof.
  intros Ha Hb. unfold py_slice, slice_bound. cbv zeta. cbn [from_option].
  destruct (decide (a < 0)); [lia|].
  destruct (decide (- b < 0)); [|lia].
  rewrite length_take. lia.
Qed.

Lemma length_destuff_loop (rest r : list ascii) (c : Z) :
  (length (FrameProcessor.destuff_loop rest c r) ≤ length r + length rest)%nat.
Proof.
  revert r c. induction rest as [rest IH] using (induction_ltof1 _ length).
  unfold ltof in IH. intros r c.
  destruct rest as [|b rest]; cbn [FrameProcessor.destuff_loop]; [lia|].
  assert (IH' : ∀ y c', (length y ≤ length rest)%nat →
            (length (FrameProcessor.destuff_loop y c' (r ++ [b])) ≤
             length r + length (b :: rest))%nat).
  { intros y c' Hy. etrans; [apply IH; simpl; lia|].
    rewrite length_app. simpl. lia. }
  destruct (decide (b = "1"%char)); [|by apply IH'].
  destruct (decide (c + 1 = 5)); [|by apply IH'].
  destruct rest as [|n rest']; [by apply IH'|].
  destruct (decide (n = "0"%char)); apply IH'; simpl; lia.
Qed.

Lemma bit_string_destuff_loop (rest r : list ascii) (c : Z) :
  bit_string rest → bit_string r →
  bit_string (FrameProcessor.destuff_loop rest c r).
Proof.
  revert r c. induction rest as [rest IH] using (induction_ltof1 _ length).
  unfold ltof in IH. intros r c Hrest Hr.
  destruct rest as [|b rest]; cbn [FrameProcessor.destuff_loop]; [done|].
  apply Forall_cons in Hrest as [Hb Hrest].
  assert (Hrb : bit_string (r ++ [b])).
  { apply Forall_app. split; [done|]. by apply Forall_singleton. }
  assert (IH' : ∀ y c', (length y ≤ length rest)%nat → bit_string y →
            bit_string (FrameProcessor.destuff_loop y c' (r ++ [b]))).
  { intros y c' Hy Hby. apply IH; [simpl; lia|done..]. }
  destruct (decide (b = "1"%char)); [|by apply IH'].
  destruct (decide (c + 1 = 5)); [|by apply IH'].
  destruct rest as [|n rest']; [by apply IH'|].
  apply Forall_cons in Hrest as [Hn Hrest'].
  destruct (decide (n = "0"%char)); apply IH'; simpl; try lia; try done.
  by apply Forall_cons.
Qed.

Lemma bit_string_py_slice (l : list ascii) (a b : option Z) :
  bit_string l → bit_string (py_slice l a b).
Proof.
  intros Hl. unfold py_slice. by apply Forall_take, Forall_drop.
Qed.

(** X15.  A frame built from a string of bits parses back to these
    bits: [create_frame] returns, and [parse_frame] of its result is
    [(True, data)]. *)
Theorem frame_round_trip (data : list ascii) :
  bit_string data →
  ∃ frame, FrameProcessor.create_frame data = Some frame ∧
           FrameProcessor.parse_frame frame = Some (true, data).
Proof.
  intros Hd. pose proof (crc_calculate_bits data Hd) as Hcrc.
  set (crc := char_of <$> crc_bits (bit_of <$> data)) in Hcrc.
  assert (Hlen : length crc = 8%nat)
    by (unfold crc; by rewrite length_fmap, length_crc_bits).
  unfold FrameProcessor.create_frame. rewrite Hcrc. cbn [mbind option_bind].
  eexists. split; [reflexivity|].
  unfold FrameProcessor.parse_frame.
  rewrite !bool_decide_eq_true_2.
  2:{ exists (FrameProcessor.FLAG ++ FrameProcessor.bit_stuffing (data ++ crc)).
      by rewrite <- app_assoc. }
  2:{ by eexists. }
  cbn [andb negb].
  rewrite py_slice_middle by (cbn; lia).
  unfold FrameProcessor.bit_destuffing, FrameProcessor.bit_stuffing.
  rewrite stuff_then_destuff, app_nil_l.
  rewrite decide_False by (rewrite length_app; lia).
  rewrite (py_slice_but_last _ 8), (py_slice_last _ 8)
    by (rewrite ?length_app; lia).
  rewrite length_app, Hlen.
  replace (length data + 8 - 8)%nat with (length data) by lia.
  rewrite take_app_length, drop_app_length, Hcrc. cbn [mbind option_bind].
  by rewrite decide_True.
Qed.

Lemma frame_round_trip_witness :
  ∃ frame,
    FrameProcessor.create_frame
      (String.list_ascii_of_string "0111111111101") = Some frame ∧
    FrameProcessor.parse_frame frame =
      Some (true, String.list_ascii_of_string "0111111111101").
Proof.
  apply frame_round_trip. unfold bit_string. cbn.
  repeat (apply Forall_cons; split; [first [by left|by right]|]).
  constructor.
Defined.

(** X16.  On a string of bits [parse_frame] always returns: no frame
    of ['0'] and ['1'] makes it raise. *)
Theorem parse_frame_returns_on_bits (frame : list ascii) :
  bit_string frame → ∃ r, FrameProcessor.parse_frame frame = Some r.
Proof.
  intros Hf. unfold FrameProcessor.parse_frame.
  destruct (negb _); [by eexists|].
  destruct (decide _); [by eexists|].
  rewrite crc_calculate_bits.
  - cbn [mbind option_bind]. destruct (decide _); by eexists.
  - apply bit_string_py_slice. unfold FrameProcessor.bit_destuffing.
    apply bit_string_destuff_loop; [|constructor].
    by apply bit_string_py_slice.
Qed.

Lemma parse_frame_returns_on_bits_witness :
  ∃ r, FrameProcessor.parse_frame
         (String.list_ascii_of_string "01111110101010101111011001111110")
       = Some r.
Proof.
  apply parse_frame_returns_on_bits. unfold bit_string. cbn.
  repeat (apply Forall_cons; split; [first [by left|by right]|]).
  constructor.
Defined.

(** X17.  A frame of fewer than 24 characters is rejected without an
    exception, whatever it holds: between its flags there is no room
    for the eight bits of a checksum. *)
Theorem short_frame_rejected (frame : list ascii) :
  Z.of_nat (length frame) < 24 →
  FrameProcessor.parse_frame frame = Some (false, []).
Proof.
  intros Hlen. unfold FrameProcessor.parse_frame.
  destruct (negb _); [done|].
  rewrite decide_True; [done|].
  pose proof (length_py_slice frame
                (Z.of_nat (length FrameProcessor.FLAG))
                (Z.of_nat (length FrameProcessor.FLAG))
                ltac:(lia) ltac:(cbn; lia)) as Hs.
  pose proof (length_destuff_loop
                (py_slice frame (Some (Z.of_nat (length FrameProcessor.FLAG)))
                   (Some (- Z.of_nat (length FrameProcessor.FLAG)))) [] 0) as Hl.
  unfold FrameProcessor.bit_destuffing.
  change (Z.of_nat (length FrameProcessor.FLAG)) with 8 in *.
  cbn [length] in Hl. lia.
Qed.

Lemma short_frame_rejected_witness :
  FrameProcessor.parse_frame
    (String.list_ascii_of_string "011111101111110") = Some (false, []).
Proof. apply short_frame_rejected. cbn. lia. Defined.

(** ** [crc_calculate] on other characters *)

Lemma xor_bit_None (divisor : list ascii) (i : Z) (l : list Z) :
  foldl (FrameProcessor.xor_bit divisor i) None l = None.
Proof. by induction l. Qed.

Lemma divide_at_None (divisor : list ascii) (l : list Z) :
  foldl (FrameProcessor.divide_at divisor) None l = None.
Proof. by induction l. Qed.

Lemma xor_bit_frame (divisor s s' : list ascii) (i j : nat) :
  FrameProcessor.xor_bit divisor (Z.of_nat i) (Some s) (Z.of_nat j) = Some s' →
  length s' = length s ∧ ∀ p, p ≠ (i + j)%nat → s' !! p = s !! p.
Proof.
  unfold FrameProcessor.xor_bit. cbn [mbind option_bind].
  destruct (decide _) as [Hlt|]; [|by intros [= <-]].
  destruct (getitem s _) as [a|]; cbn [mbind option_bind]; [|done].
  destruct (int a) as [x|]; cbn [mbind option_bind]; [|done].
  destruct (getitem divisor _) as [d|]; cbn [mbind option_bind]; [|done].
  destruct (int d) as [y|]; cbn [mbind option_bind]; [|done].
  replace (Z.of_nat i + Z.of_nat j) with (Z.of_nat (i + j)) by lia.
  rewrite setitem_attr_nat by lia. intros [= <-].
  split; [by rewrite length_alter|].
  intros p Hp. by rewrite list_lookup_alter_ne.
Qed.

Lemma xor_bits_frame (divisor s s' : list ascii) (i m : nat) :
  foldl (FrameProcessor.xor_bit divisor (Z.of_nat i)) (Some s)
        (Z.of_nat <$> seq 0 m) = Some s' →
  length s' = length s ∧ ∀ p, (i + m ≤ p)%nat → s' !! p = s !! p.
Proof.
  revert s'. induction m as [|m IH]; intros s'.
  - cbn. by intros [= <-].
  - rewrite seq_S, fmap_app, foldl_app. cbn [fmap list_fmap foldl plus].
    destruct (foldl _ _ _) as [s1|]; [|done].
    destruct (IH s1 eq_refl) as [Hlen Hsame].
    intros [Hlen' Hsame']%xor_bit_frame. split; [congruence|].
    intros p Hp. rewrite Hsame' by lia. apply Hsame. lia.
Qed.

(** X18.  [crc_calculate] raises [ValueError] when the first ['1'] of
    the data is followed, within the eight characters the divisor
    covers, by a character that is not a digit. *)
Theorem crc_raises_on_non_digit (l m : list ascii) (k : nat) (c : ascii) :
  Forall (λ x, x ≠ "1"%char) l →
  m !! k = Some c → (k < 8)%nat → int c = None →
  FrameProcessor.crc_calculate (l ++ "1"%char :: m) = None.
Proof.
  intros Hl Hc Hk Hint. unfold FrameProcessor.crc_calculate.
  set (s := (l ++ "1"%char :: m) ++ replicate 8 "0"%char).
  replace (foldl _ _ _) with (@None (list ascii)); [done|]. symmetry.
  rewrite seqZ_nat, length_app. cbn [length].
  rewrite seq_app, fmap_app, foldl_app.
  (* the turns before the first '1' change nothing *)
  assert (Hfst : ∀ p, (p ≤ length l)%nat →
            foldl (FrameProcessor.divide_at FrameProcessor.CRC_POLY) (Some s)
                  (Z.of_nat <$> seq 0 p) = Some s).
  { induction p as [|p IH]; intros Hp; [done|].
    rewrite seq_S, fmap_app, foldl_app, IH by lia.
    cbn [fmap list_fmap foldl plus]. unfold FrameProcessor.divide_at.
    cbn [mbind option_bind].
    destruct (lookup_lt_is_Some_2 l p) as [x Hx]; [lia|].
    rewrite (getitem_nat s p x)
      by (unfold s; rewrite <- app_assoc; by rewrite lookup_app_l by lia).
    cbn [mbind option_bind]. rewrite decide_False; [done|].
    by apply (Forall_lookup_1 _ _ _ _ Hl Hx). }
  rewrite Hfst by lia. cbn [seq fmap list_fmap foldl plus].
  replace (FrameProcessor.divide_at _ _ _) with (@None (list ascii));
    [apply divide_at_None|]. symmetry.
  (* the turn at the first '1' *)
  unfold FrameProcessor.divide_at. cbn [mbind option_bind].
  assert (Hs : ∀ p, s !! (length l + p)%nat =
                    (("1"%char :: m) ++ replicate 8 "0"%char) !! p).
  { intros p. unfold s. rewrite <- app_assoc.
    rewrite lookup_app_r by lia. f_equal. lia. }
  rewrite (getitem_nat s (length l) "1"%char)
    by (by rewrite <- (Nat.add_0_r (length l)), Hs).
  cbn [mbind option_bind]. rewrite decide_True by done.
  rewrite seqZ_nat. change (length FrameProcessor.CRC_POLY) with 9%nat.
  replace 9%nat with (S k + (1 + (7 - k)))%nat by lia.
  rewrite seq_app, fmap_app, foldl_app.
  destruct (foldl _ _ (Z.of_nat <$> seq 0 (S k))) as [s1|] eqn:Hs1;
    [|apply xor_bit_None].
  apply xor_bits_frame in Hs1 as [Hlen Hsame].
  rewrite seq_app, fmap_app, foldl_app.
  cbn [seq fmap list_fmap foldl plus].
  replace (FrameProcessor.xor_bit _ _ _ _) with (@None (list ascii));
    [apply xor_bit_None|]. symmetry.
  unfold FrameProcessor.xor_bit. cbn [mbind option_bind].
  assert (Hc1 : s1 !! (length l + S k)%nat = Some c).
  { rewrite Hsame by lia. rewrite Hs. cbn [app].
    rewrite lookup_cons. by rewrite lookup_app_l by (by eapply lookup_lt_Some). }
  destruct (decide _) as [_|Hn].
  - replace (Z.of_nat (length l) + Z.of_nat (S k))
      with (Z.of_nat (length l + S k)) by lia.
    rewrite (getitem_nat _ _ _ Hc1). cbn [mbind option_bind].
    by rewrite Hint.
  - exfalso. apply Hn. apply lookup_lt_Some in Hc1. lia.
Qed.

Lemma crc_raises_on_non_digit_witness :
  FrameProcessor.crc_calculate
    (String.list_ascii_of_string "0x0" ++
     "1"%char :: String.list_ascii_of_string "0101 01") = None.
Proof.
  apply (crc_raises_on_non_digit _ _ 4 " "%char); [|done|lia|done].
  cbn. repeat (apply Forall_cons; split; [done|]). constructor.
Defined.

(** ** The second simulator: the medium *)

Lemma hear_spec (self : EthernetSimulator.t) (i offset : Z)
    (signals : list SignalType.t) :
  Z.of_nat (length (EthernetSimulator.cable self)) =
    EthernetSimulator.cable_length self →
  EthernetSimulator.hear self i (Some signals) offset = Some signals ∧
    (0 ≤ i + offset →
     EthernetSimulator.cable self !! Z.to_nat (i + offset) ≠ Some SignalType.IDLE →
     EthernetSimulator.cable self !! Z.to_nat (i + offset) = None) ∨
  ∃ c, EthernetSimulator.hear self i (Some signals) offset =
         Some (signals ++ [c]) ∧
       c ≠ SignalType.IDLE ∧ 0 ≤ i + offset ∧
       EthernetSimulator.cable self !! Z.to_nat (i + offset) = Some c.
Proof.
  intros Hlen.
  destruct (decide (0 ≤ i + offset < EthernetSimulator.cable_length self))
    as [Hin|Hout].
  - destruct (lookup_lt_is_Some_2 (EthernetSimulator.cable self)
                (Z.to_nat (i + offset))) as [c Hc]; [lia|].
    assert (Hg : getitem (EthernetSimulator.cable self) (i + offset) = Some c).
    { rewrite <- (Z2Nat.id (i + offset)) by lia. by apply getitem_nat. }
    destruct (decide (c ≠ SignalType.IDLE)) as [Hbusy|Hidle].
    + right. exists c. split; [|split; [done|split; [lia|done]]].
      unfold EthernetSimulator.hear. cbn [mbind option_bind].
      rewrite decide_True, Hg by done. cbn [mbind option_bind].
      by rewrite decide_True.
    + left. split.
      * unfold EthernetSimulator.hear. cbn [mbind option_bind].
        rewrite decide_True, Hg by done. cbn [mbind option_bind].
        by rewrite decide_False.
      * intros _ Hn. destruct Hn. rewrite Hc. f_equal.
        by destruct (decide (c = SignalType.IDLE)).
  - left. split.
    + unfold EthernetSimulator.hear. cbn [mbind option_bind].
      by rewrite decide_False.
    + intros H0 _. apply lookup_ge_None. lia.
Qed.

Lemma heard_spec (self : EthernetSimulator.t) (i : Z) :
  Z.of_nat (length (EthernetSimulator.cable self)) =
    EthernetSimulator.cable_length self →
  ∃ signals,
    EthernetSimulator.heard self i = Some signals ∧
    Forall (λ c, c ≠ SignalType.IDLE) signals ∧
    (∀ c, 0 ≤ i →
          EthernetSimulator.cable self !! Z.to_nat i = Some c →
          c ≠ SignalType.IDLE → signals ≠ []).
Proof.
  intros Hlen. unfold EthernetSimulator.heard. cbn [foldl].
  set (d := EthernetSimulator.propagation_delay self).
  destruct (hear_spec self i (- d) [] Hlen) as [[-> _]|(c1 & -> & H1 & _)].
  - destruct (hear_spec self i 0 [] Hlen) as [[-> Hn]|(c2 & -> & H2 & _)].
    + destruct (hear_spec self i d [] Hlen) as [[-> _]|(c3 & -> & H3 & _)].
      * eexists. split; [done|]. split; [constructor|].
        intros c Hi Hc Hbusy. rewrite Z.add_0_r in Hn.
        rewrite Hn in Hc; [done|lia|]. rewrite Hc. by intros [= ->].
      * eexists. split; [done|]. split; [by repeat constructor|done].
    + destruct (hear_spec self i d ([] ++ [c2]) Hlen)
        as [[-> _]|(c3 & -> & H3 & _)];
        (eexists; split; [done|]; split; [by repeat constructor|done]).
  - destruct (hear_spec self i 0 ([] ++ [c1]) Hlen)
      as [[-> _]|(c2 & -> & H2 & _)].
    + destruct (hear_spec self i d ([] ++ [c1]) Hlen)
        as [[-> _]|(c3 & -> & H3 & _)];
        (eexists; split; [done|]; split; [by repeat constructor|done]).
    + destruct (hear_spec self i d (([] ++ [c1]) ++ [c2]) Hlen)
        as [[-> _]|(c3 & -> & H3 & _)];
        (eexists; split; [done|]; split; [by repeat constructor|done]).
Qed.

Lemma drive_spec (i : Z) (signals : list SignalType.t)
    (node : EthernetNode.t) :
  ∃ more, EthernetSimulator.drive i signals node = signals ++ more ∧
          Forall (λ c, c ≠ SignalType.IDLE) more ∧
          (EthernetNode.position node = i →
           EthernetNode.state node = NodeState.TRANSMITTING ∨
           EthernetNode.state node = NodeState.JAMMING →
           more ≠ []).
Proof.
  unfold EthernetSimulator.drive.
  destruct (decide _) as [[Hp Hs]|Hn1].
  - exists [SignalType.DATA]. by repeat constructor.
  - destruct (decide _) as [[Hp Hs]|Hn2].
    + exists [SignalType.JAM]. by repeat constructor.
    + exists []. rewrite app_nil_r. split; [done|]. split; [constructor|].
      intros Hp [Hs|Hs]; [destruct Hn1|destruct Hn2]; done.
Qed.

Lemma driven_spec (self : EthernetSimulator.t) (i : Z)
    (signals : list SignalType.t) :
  ∃ more, EthernetSimulator.driven self i signals = signals ++ more ∧
          Forall (λ c, c ≠ SignalType.IDLE) more ∧
          (∀ node, node ∈ EthernetSimulator.nodes self →
                   EthernetNode.position node = i →
                   EthernetNode.state node = NodeState.TRANSMITTING ∨
                   EthernetNode.state node = NodeState.JAMMING →
                   more ≠ []).
Proof.
  unfold EthernetSimulator.driven. revert signals.
  induction (EthernetSimulator.nodes self) as [|n ns IH]; intros signals.
  - exists []. rewrite app_nil_r. split; [done|]. split; [constructor|].
    intros node Hin. by apply elem_of_nil in Hin.
  - cbn [foldl].
    destruct (drive_spec i signals n) as (m1 & -> & Hm1 & Hn).
    destruct (IH (signals ++ m1)) as (m2 & -> & Hm2 & Hns).
    exists (m1 ++ m2). rewrite app_assoc. split; [done|].
    split; [by apply Forall_app|].
    intros node [->|Hin]%elem_of_cons Hp Hs.
    + specialize (Hn Hp Hs). by destruct m1.
    + specialize (Hns node Hin Hp Hs). by destruct m1, m2.
Qed.

Lemma settled_busy (signals : list SignalType.t) :
  Forall (λ c, c ≠ SignalType.IDLE) signals → signals ≠ [] →
  EthernetSimulator.settled signals ≠ SignalType.IDLE.
Proof.
  intros Hs Hne. destruct signals as [|a [|b l]]; [done|..]; cbn; [|done].
  by apply Forall_cons in Hs as [? _].
Qed.

Lemma settled_collision (some more : list SignalType.t) :
  some ≠ [] → more ≠ [] →
  EthernetSimulator.settled (some ++ more) = SignalType.COLLISION.
Proof. intros H1 H2. by destruct some as [|a [|b l]], more. Qed.

Lemma propagate_cells (self : EthernetSimulator.t) (m : nat) :
  Z.of_nat (length (EthernetSimulator.cable self)) =
    EthernetSimulator.cable_length self →
  (m ≤ length (EthernetSimulator.cable self))%nat →
  ∃ new_cable,
    foldl (EthernetSimulator.propagate_cell self)
      (Some (replicate (length (EthernetSimulator.cable self)) SignalType.IDLE))
      (Z.of_nat <$> seq 0 m) = Some new_cable ∧
    length new_cable = length (EthernetSimulator.cable self) ∧
    ∀ i, (i < m)%nat →
      ∃ signals,
        EthernetSimulator.heard self (Z.of_nat i) = Some signals ∧
        new_cable !! i =
          Some (EthernetSimulator.settled
                  (EthernetSimulator.driven self (Z.of_nat i) signals)).
Proof.
  intros Hlen. induction m as [|m IH]; intros Hm.
  - eexists. split; [done|]. split; [by rewrite length_replicate|]. lia.
  - destruct IH as (nc & Hnc & Hl & Hcells); [lia|].
    rewrite seq_S, fmap_app, foldl_app, Hnc. cbn [fmap list_fmap foldl plus].
    unfold EthernetSimulator.propagate_cell. cbn [mbind option_bind].
    destruct (heard_spec self (Z.of_nat m) Hlen) as (sig & Hsig & _).
    rewrite Hsig. cbn [mbind option_bind].
    rewrite setitem_attr_nat by lia.
    eexists. split; [done|]. split; [by rewrite length_alter|].
    intros i Hi. destruct (decide (i = m)) as [->|Hne].
    + exists sig. split; [done|]. rewrite list_lookup_alter.
      destruct (decide (m = m)); [|done].
      destruct (lookup_lt_is_Some_2 nc m) as [x ->]; [lia|]. done.
    + destruct (Hcells i) as (sig' & ? & ?); [lia|]. exists sig'.
      split; [done|]. by rewrite list_lookup_alter_ne.
Qed.

Lemma propagate_signal_spec (self : EthernetSimulator.t) :
  Z.of_nat (length (EthernetSimulator.cable self)) =
    EthernetSimulator.cable_length self →
  ∃ new_cable,
    EthernetSimulator.propagate_signal self =
      Some (EthernetSimulator.set_cable new_cable self) ∧
    length new_cable = length (EthernetSimulator.cable self) ∧
    ∀ i, (i < length new_cable)%nat →
      ∃ signals,
        EthernetSimulator.heard self (Z.of_nat i) = Some signals ∧
        new_cable !! i =
          Some (EthernetSimulator.settled
                  (EthernetSimulator.driven self (Z.of_nat i) signals)).
Proof.
  intros Hlen. unfold EthernetSimulator.propagate_signal.
  destruct (propagate_cells self _ Hlen (Nat.le_refl _))
    as (nc & Hnc & Hl & Hcells).
  rewrite <- Hlen, Nat2Z.id, seqZ_nat, Hnc. cbn [mbind option_bind].
  exists nc. split; [done|]. split; [done|]. by rewrite Hl.
Qed.

(** X19.  The medium of the second simulator never clears: on a cable as
    long as [cable_length] says, [propagate_signal] returns a cable of
    the same length on which every cell that carried a signal still
    carries one. *)
Theorem busy_cell_stays_busy (self : EthernetSimulator.t) :
  Z.of_nat (length (EthernetSimulator.cable self)) =
    EthernetSimulator.cable_length self →
  ∃ self',
    EthernetSimulator.propagate_signal self = Some self' ∧
    length (EthernetSimulator.cable self') =
      length (EthernetSimulator.cable self) ∧
    ∀ i c, EthernetSimulator.cable self !! i = Some c →
           c ≠ SignalType.IDLE →
           ∃ c', EthernetSimulator.cable self' !! i = Some c' ∧
                 c' ≠ SignalType.IDLE.
Proof.
  intros Hlen.
  destruct (propagate_signal_spec self Hlen) as (nc & -> & Hl & Hcells).
  eexists. split; [done|]. split; [done|]. cbn.
  intros i c Hc Hbusy.
  destruct (Hcells i) as (sig & Hsig & ->);
    [rewrite Hl; by eapply lookup_lt_Some|].
  eexists. split; [done|].
  destruct (heard_spec self (Z.of_nat i) Hlen) as (sig' & Hsig' & Hall & Hown).
  rewrite Hsig in Hsig'. injection Hsig' as <-.
  destruct (driven_spec self (Z.of_nat i) sig) as (more & -> & Hmore & _).
  apply settled_busy; [by apply Forall_app|].
  specialize (Hown c ltac:(lia)). rewrite Nat2Z.id in Hown.
  specialize (Hown Hc Hbusy). by destruct sig.
Qed.

Lemma busy_cell_stays_busy_witness :
  ∃ self',
    EthernetSimulator.propagate_signal
      (EthernetSimulator.mk
         [SignalType.IDLE; SignalType.DATA; SignalType.IDLE; SignalType.JAM]
         4 1 10 0 [] (Statistics.mk 0 0 0 0)) = Some self' ∧
    length (EthernetSimulator.cable self') = 4%nat ∧
    ∀ i c, [SignalType.IDLE; SignalType.DATA; SignalType.IDLE; SignalType.JAM]
             !! i = Some c →
           c ≠ SignalType.IDLE →
           ∃ c', EthernetSimulator.cable self' !! i = Some c' ∧
                 c' ≠ SignalType.IDLE.
Proof.
  apply (busy_cell_stays_busy
           (EthernetSimulator.mk
              [SignalType.IDLE; SignalType.DATA; SignalType.IDLE; SignalType.JAM]
              4 1 10 0 [] (Statistics.mk 0 0 0 0))).
  reflexivity.
Defined.

(** X20.  A node that transmits or jams on a cell that already carries
    a signal, its own of the step before included, turns that cell into
    a collision. *)
Theorem sender_on_busy_cell_collides
    (self : EthernetSimulator.t) (node : EthernetNode.t) (c : SignalType.t) :
  Z.of_nat (length (EthernetSimulator.cable self)) =
    EthernetSimulator.cable_length self →
  node ∈ EthernetSimulator.nodes self →
  EthernetNode.state node = NodeState.TRANSMITTING ∨
  EthernetNode.state node = NodeState.JAMMING →
  0 ≤ EthernetNode.position node →
  EthernetSimulator.cable self !! Z.to_nat (EthernetNode.position node)
    = Some c →
  c ≠ SignalType.IDLE →
  ∃ self',
    EthernetSimulator.propagate_signal self = Some self' ∧
    EthernetSimulator.cable self' !! Z.to_nat (EthernetNode.position node)
      = Some SignalType.COLLISION.
Proof.
  intros Hlen Hin Hstate Hpos Hc Hbusy.
  destruct (propagate_signal_spec self Hlen) as (nc & -> & Hl & Hcells).
  eexists. split; [done|]. cbn.
  destruct (Hcells (Z.to_nat (EthernetNode.position node)))
    as (sig & Hsig & ->); [rewrite Hl; by eapply lookup_lt_Some|].
  f_equal. rewrite Z2Nat.id in * by done.
  destruct (heard_spec self (EthernetNode.position node) Hlen)
    as (sig' & Hsig' & _ & Hown).
  rewrite Hsig in Hsig'. injection Hsig' as <-.
  destruct (driven_spec self (EthernetNode.position node) sig)
    as (more & -> & _ & Hmore).
  apply settled_collision; [by eapply Hown|by eapply Hmore].
Qed.

Lemma sender_on_busy_cell_collides_witness :
  ∃ self',
    EthernetSimulator.propagate_signal
      (EthernetSimulator.mk
         [SignalType.IDLE; SignalType.DATA; SignalType.IDLE] 3 1 10 0
         [EthernetNode.set_state NodeState.TRANSMITTING
            (EthernetNode.init 0 1)]
         (Statistics.mk 0 0 0 0)) = Some self' ∧
    EthernetSimulator.cable self' !! 1%nat = Some SignalType.COLLISION.
Proof.
  apply (sender_on_busy_cell_collides
           (EthernetSimulator.mk
              [SignalType.IDLE; SignalType.DATA; SignalType.IDLE] 3 1 10 0
              [EthernetNode.set_state NodeState.TRANSMITTING
                 (EthernetNode.init 0 1)]
              (Statistics.mk 0 0 0 0))
           (EthernetNode.set_state NodeState.TRANSMITTING
              (EthernetNode.init 0 1))
           SignalType.DATA).
  - reflexivity.
  - apply list_elem_of_here.
  - by left.
  - cbn. lia.
  - reflexivity.
  - done.
Defined.

(** ** The second simulator: the nodes *)

Lemma propagate_signal_heard (s : EthernetSimulator.t) :
  sim_ok s →
  ∃ new_cable,
    EthernetSimulator.propagate_signal s =
      Some (EthernetSimulator.set_cable new_cable s) ∧
    length new_cable = length (EthernetSimulator.cable s) ∧
    Forall (node_heard new_cable) (EthernetSimulator.nodes s).
Proof.
  intros [Hlen Hnodes].
  destruct (propagate_signal_spec s Hlen) as (nc & Hnc & Hl & Hcells).
  exists nc. split; [done|]. split; [done|].
  apply Forall_forall. intros n Hin.
  pose proof (proj1 (Forall_forall _ _) Hnodes n Hin)
    as (Hpos & Hq & Hcc & Hlis & Htr).
  split; [by rewrite Hl|]. split; [done|]. split; [done|]. split; [done|].
  intros Hst. destruct (Htr Hst) as (Htt & Hcur & Hidle).
  split; [done|]. split; [done|].
  destruct (Hcells (Z.to_nat (EthernetNode.position n)))
    as (sig & Hsig & Hcell); [lia|].
  rewrite Z2Nat.id in Hsig, Hcell by lia.
  destruct (heard_spec s (EthernetNode.position n) Hlen)
    as (sig' & Hsig' & Hall & Hown).
  rewrite Hsig in Hsig'. injection Hsig' as <-.
  destruct (driven_spec s (EthernetNode.position n) sig)
    as (more & Hdr & Hmore & Hne).
  assert (Hm : more ≠ []) by (apply (Hne n); auto).
  rewrite Hcell, Hdr. split.
  - intros [= Heq]. revert Heq. apply settled_busy; [by apply Forall_app|].
    by destruct sig, more.
  - intros Hnc'.
    destruct (lookup_lt_is_Some_2 (EthernetSimulator.cable s)
                (Z.to_nat (EthernetNode.position n))) as [c Hc]; [lia|].
    destruct (decide (c = SignalType.IDLE)) as [->|Hbusy]; [by apply Hidle|].
    destruct Hnc'. f_equal.
    apply settled_collision; [|done]. eapply Hown; [lia|done..].
Qed.

Lemma lookup_position (cable : list SignalType.t) (p : Z) :
  0 ≤ p < Z.of_nat (length cable) →
  ∃ c, getitem cable p = Some c ∧ cable !! Z.to_nat p = Some c.
Proof.
  intros Hp. destruct (lookup_lt_is_Some_2 cable (Z.to_nat p)) as [c Hc]; [lia|].
  exists c. split; [|done].
  rewrite <- (Z2Nat.id p) by lia. by apply getitem_nat.
Qed.

Lemma start_spec (cable : list SignalType.t) (n : EthernetNode.t)
    (stats : Statistics.t) :
  0 ≤ EthernetNode.position n < Z.of_nat (length cable) →
  Forall long_frame (EthernetNode.data_to_send n) →
  0 ≤ EthernetNode.collision_count n →
  EthernetNode.data_to_send n ≠ [] →
  ∃ n' stats',
    EthernetSimulator.start n stats = Some (n', stats') ∧
    node_ok cable n' ∧
    EthernetNode.successful_transmissions n' =
      EthernetNode.successful_transmissions n ∧
    Statistics.successful_transmissions stats' =
      Statistics.successful_transmissions stats.
Proof.
  intros Hpos Hq Hcc Hne. unfold EthernetSimulator.start.
  cbn [EthernetNode.set_state EthernetNode.data_to_send].
  destruct (EthernetNode.data_to_send n) as [|f rest] eqn:Hd; [done|].
  apply Forall_cons in Hq as [Hf Hrest].
  destruct f as [frame|]; [|done].
  cbn [EthernetNode.set_current_frame EthernetNode.set_data_to_send
       EthernetNode.current_frame len mbind option_bind].
  eexists _, _. split; [reflexivity|].
  split; [|done].
  split; [done|]. split; [done|]. split; [done|]. split; [done|].
  intros _. cbn. cbn in Hf. split; [lia|]. split; [done|]. intros _. lia.
Qed.

Lemma calculate_backoff_spec (n : EthernetNode.t) (rng : Random) :
  0 ≤ EthernetNode.collision_count n →
  ∃ v rng',
    EthernetNode.calculate_backoff n rng =
      Some (v,
            EthernetNode.set_collision_count
              (Z.min (EthernetNode.collision_count n) 10) n,
            rng') ∧
    0 ≤ v < 2 ^ Z.min (EthernetNode.collision_count n) 10.
Proof.
  intros Hcc. unfold EthernetNode.calculate_backoff.
  assert (Hn : (if decide (EthernetNode.collision_count n > 10)
                then EthernetNode.set_collision_count 10 n else n) =
               EthernetNode.set_collision_count
                 (Z.min (EthernetNode.collision_count n) 10) n).
  { destruct (decide _).
    - by rewrite Z.min_r by lia.
    - rewrite Z.min_l by lia. by destruct n. }
  rewrite Hn. cbn [EthernetNode.collision_count EthernetNode.set_collision_count].
  rewrite decide_False by lia.
  set (m := Z.min (EthernetNode.collision_count n) 10).
  assert (0 < 2 ^ m) by (apply Z.pow_pos_nonneg; lia).
  pose proof (randint_range 0 (2 ^ m - 1) rng ltac:(lia)) as Hr.
  destruct (randint 0 (2 ^ m - 1) rng) as [v rng'].
  exists v, rng'. split; [done|]. cbn in Hr. lia.
Qed.

Lemma update_node_spec (self : EthernetSimulator.t) (n : EthernetNode.t)
    (stats : Statistics.t) (rng : Random) :
  node_heard (EthernetSimulator.cable self) n →
  ∃ n' stats' rng',
    EthernetSimulator.update_node self n stats rng = Some (n', stats', rng') ∧
    node_ok (EthernetSimulator.cable self) n' ∧
    EthernetNode.successful_transmissions n' =
      EthernetNode.successful_transmissions n ∧
    Statistics.successful_transmissions stats' =
      Statistics.successful_transmissions stats.
Proof.
  intros (Hpos & Hq & Hcc & Hlis & Htr).
  destruct (lookup_position _ _ Hpos) as (c & Hg & Hc).
  assert (Hkeep : EthernetNode.state n ≠ NodeState.LISTENING →
                  EthernetNode.state n ≠ NodeState.TRANSMITTING →
                  node_ok (EthernetSimulator.cable self) n).
  { intros H1 H2. split; [done|]. split; [done|]. split; [done|].
    split; intros ?; done. }
  unfold EthernetSimulator.update_node,
    EthernetSimulator.sense_carrier, EthernetSimulator.detect_collision.
  destruct (EthernetNode.state n) eqn:Hst.
  - (* IDLE *)
    destruct (EthernetNode.has_data_to_send n) eqn:Hd.
    + rewrite Hg. cbn [mbind option_bind].
      case_bool_decide as Hfree.
      * destruct (start_spec (EthernetSimulator.cable self) n stats)
          as (n' & stats' & -> & ? & ? & ?); [done..| |].
        { unfold EthernetNode.has_data_to_send in Hd.
          apply bool_decide_eq_true in Hd.
          by destruct (EthernetNode.data_to_send n). }
        cbn [mbind option_bind]. by eexists _, _, _.
      * eexists _, _, _. split; [done|]. split; [|done].
        split; [done|]. split; [done|]. split; [done|]. cbn. split; [|done].
        intros _. unfold EthernetNode.has_data_to_send in Hd.
        apply bool_decide_eq_true in Hd.
        by destruct (EthernetNode.data_to_send n).
    + eexists _, _, _. split; [done|]. split; [|done].
      apply Hkeep; rewrite ?Hst; done.
  - (* LISTENING *)
    rewrite Hg. cbn [mbind option_bind].
    case_bool_decide as Hfree.
    + destruct (start_spec (EthernetSimulator.cable self) n stats)
        as (n' & stats' & -> & ? & ? & ?); [done..|by apply Hlis|].
      cbn [mbind option_bind]. by eexists _, _, _.
    + eexists _, _, _. split; [done|]. split; [|done].
      split; [done|]. split; [done|]. split; [done|].
      split; [by intros _; apply Hlis|]. rewrite ?Hst. done.
  - (* TRANSMITTING *)
    destruct (Htr eq_refl) as (Htt & Hcur & Hbusy & Htwo).
    rewrite Hg. cbn [mbind option_bind].
    case_bool_decide as Hhit.
    + eexists _, _, _. split; [done|]. split; [|done].
      split; [done|]. split; [by apply Forall_cons|]. split; [cbn; lia|].
      cbn. done.
    + assert (H2 : 2 ≤ EthernetNode.transmission_time n).
      { apply Htwo. rewrite Hc. by intros [= ->]. }
      cbn [EthernetNode.transmission_time EthernetNode.set_transmission_time].
      rewrite decide_False by lia.
      eexists _, _, _. split; [done|]. split; [|done].
      split; [done|]. split; [done|]. split; [done|].
      cbn. rewrite ?Hst. split; [done|]. intros _.
      split; [lia|]. split; [done|]. intros Hidle. by destruct Hbusy.
  - (* COLLISION_DETECTED *)
    eexists _, _, _. split; [done|]. split; [|done].
    apply Hkeep; rewrite ?Hst; done.
  - (* BACKOFF *)
    cbn [EthernetNode.backoff_time EthernetNode.set_backoff_time].
    destruct (decide _); eexists _, _, _; (split; [done|]); (split; [|done]);
      (split; [done|]); (split; [done|]); (split; [done|]); cbn;
      rewrite ?Hst; done.
  - (* JAMMING *)
    cbn [EthernetNode.jam_duration EthernetNode.set_jam_duration].
    destruct (decide _).
    + unfold EthernetSimulator.calculate_backoff_time.
      destruct (calculate_backoff_spec
                  (EthernetNode.set_state NodeState.BACKOFF
                     (EthernetNode.set_jam_duration
                        (EthernetNode.jam_duration n - 1) n)) rng)
        as (v & rng' & -> & _); [done|].
      cbn [mbind option_bind].
      eexists _, _, _. split; [done|]. split; [|done].
      split; [done|]. split; [done|]. split; [cbn; lia|]. cbn. done.
    + eexists _, _, _. split; [done|]. split; [|done].
      split; [done|]. split; [done|]. split; [done|]. cbn.
      rewrite ?Hst. done.
Qed.

Lemma update_nodes_spec (self : EthernetSimulator.t)
    (l done : list EthernetNode.t) (stats : Statistics.t) (rng : Random) :
  Forall (node_heard (EthernetSimulator.cable self)) l →
  ∃ l' stats' rng',
    foldl (EthernetSimulator.update_one self) (Some (done, stats, rng)) l =
      Some (done ++ l', stats', rng') ∧
    Forall (node_ok (EthernetSimulator.cable self)) l' ∧
    EthernetNode.successful_transmissions <$> l' =
      EthernetNode.successful_transmissions <$> l ∧
    Statistics.successful_transmissions stats' =
      Statistics.successful_transmissions stats.
Proof.
  revert done stats rng. induction l as [|n l IH]; intros done stats rng Hl.
  - exists [], stats, rng. rewrite app_nil_r. by repeat split.
  - apply Forall_cons in Hl as [Hn Hl]. cbn [foldl].
    unfold EthernetSimulator.update_one at 2. cbn [mbind option_bind].
    destruct (update_node_spec self n stats rng Hn)
      as (n' & stats1 & rng1 & -> & Hn' & Hsn & Hss).
    cbn [mbind option_bind].
    destruct (IH (done ++ [n']) stats1 rng1 Hl)
      as (l' & stats2 & rng2 & -> & Hl' & Hsl & Hss2).
    exists (n' :: l'), stats2, rng2. rewrite <- app_assoc.
    split; [done|]. split; [by apply Forall_cons|].
    split; [|congruence]. cbn [fmap list_fmap]. by f_equal.
Qed.

Lemma simulate_step_spec (s : EthernetSimulator.t) (rng : Random) :
  sim_ok s →
  ∃ s' rng',
    EthernetSimulator.simulate_step s rng = Some (s', rng') ∧
    sim_ok s' ∧ deliveries s' = deliveries s.
Proof.
  intros Hok. pose proof Hok as [Hlen _].
  destruct (propagate_signal_heard s Hok) as (nc & Hnc & Hl & Hheard).
  unfold EthernetSimulator.simulate_step. rewrite Hnc.
  cbn [mbind option_bind]. unfold EthernetSimulator.update_node_states.
  cbn [EthernetSimulator.nodes EthernetSimulator.set_cable
       EthernetSimulator.statistics].
  destruct (update_nodes_spec (EthernetSimulator.set_cable nc s)
              (EthernetSimulator.nodes s) []
              (EthernetSimulator.statistics s) rng Hheard)
    as (l' & stats' & rng' & -> & Hl' & Hsl & Hss).
  cbn [mbind option_bind app].
  eexists _, _. split; [reflexivity|]. split.
  - split; [cbn; lia|]. done.
  - unfold deliveries. cbn. by rewrite Hsl, Hss.
Qed.

Lemma add_data_ok (cable : list SignalType.t) (n : EthernetNode.t)
    (frame : string) :
  2 ≤ Z.of_nat (String.length frame) →
  node_ok cable n → node_ok cable (EthernetNode.add_data frame n).
Proof.
  intros Hf (Hpos & Hq & Hcc & Hlis & Htr).
  split; [done|]. split; [|split; [done|split; [|done]]].
  - cbn. apply Forall_app. split; [done|]. by apply Forall_singleton.
  - cbn. intros _. by destruct (EthernetNode.data_to_send n).
Qed.

Lemma frame_name_long (rest : string) :
  2 ≤ Z.of_nat (String.length ("Frame_" +:+ rest)).
Proof.
  change ("Frame_" +:+ rest)%string
    with (String "F"%char (String "r"%char (String "a"%char
            (String "m"%char (String "e"%char (String "_"%char rest)))))).
  cbn [String.length]. lia.
Qed.

Lemma add_traffic_spec (threshold : Z) (self : EthernetSimulator.t)
    (cable : list SignalType.t) (l done : list EthernetNode.t)
    (rng : Random) :
  Forall (node_ok cable) l →
  ∃ l' rng',
    foldl (EthernetSimulator.add_traffic threshold self) (done, rng) l =
      (done ++ l', rng') ∧
    Forall (node_ok cable) l' ∧
    EthernetNode.successful_transmissions <$> l' =
      EthernetNode.successful_transmissions <$> l.
Proof.
  revert done rng. induction l as [|n l IH]; intros done rng Hl.
  - exists [], rng. rewrite app_nil_r. by repeat split.
  - apply Forall_cons in Hl as [Hn Hl]. cbn [foldl].
    unfold EthernetSimulator.add_traffic at 2.
    destruct (random rng) as [k rng1].
    destruct (_ && _).
    + destruct (randint 10 50 rng1) as [frame_size rng2].
      destruct (IH (done ++ [EthernetNode.add_data
                  ("Frame_" +:+
                   pretty (EthernetSimulator.time_step self) +:+ "_" +:+
                   pretty (EthernetNode.node_id n)) n]) rng2 Hl)
        as (l' & rng' & -> & Hl' & Hsl).
      eexists (_ :: l'), rng'. rewrite <- app_assoc.
      split; [done|]. split; [|cbn [fmap list_fmap]; by f_equal].
      apply Forall_cons. split; [|done]. apply add_data_ok; [|done].
      apply frame_name_long.
    + destruct (IH (done ++ [n]) rng1 Hl) as (l' & rng' & -> & Hl' & Hsl).
      exists (n :: l'), rng'. rewrite <- app_assoc.
      split; [done|]. split; [by apply Forall_cons|].
      cbn [fmap list_fmap]. by f_equal.
Qed.

Lemma add_random_traffic_spec (threshold : Z) (s : EthernetSimulator.t)
    (rng : Random) :
  sim_ok s →
  sim_ok (EthernetSimulator.add_random_traffic threshold s rng).1 ∧
  deliveries (EthernetSimulator.add_random_traffic threshold s rng).1 =
    deliveries s.
Proof.
  intros [Hlen Hnodes]. unfold EthernetSimulator.add_random_traffic.
  destruct (add_traffic_spec threshold s _ _ [] rng Hnodes)
    as (l' & rng' & -> & Hl' & Hsl).
  cbn [app fst]. split; [by split|].
  unfold deliveries. cbn. by rewrite Hsl.
Qed.

Lemma run_steps_spec (threshold : Z) (steps : list Z)
    (s : EthernetSimulator.t) (rng : Random) :
  sim_ok s →
  ∃ s' rng',
    foldl (EthernetSimulator.run_step threshold) (Some (s, rng)) steps =
      Some (s', rng') ∧
    sim_ok s' ∧ deliveries s' = deliveries s.
Proof.
  revert s rng. induction steps as [|step steps IH]; intros s rng Hok.
  - by exists s, rng.
  - cbn [foldl]. unfold EthernetSimulator.run_step at 2.
    cbn [mbind option_bind].
    destruct (add_random_traffic_spec threshold s rng Hok) as [Hok1 Hd1].
    destruct (EthernetSimulator.add_random_traffic threshold s rng)
      as [s1 rng1]. cbn [fst] in *.
    destruct (simulate_step_spec s1 rng1 Hok1) as (s2 & rng2 & -> & Hok2 & Hd2).
    destruct (IH s2 rng2 Hok2) as (s' & rng' & -> & Hok' & Hd').
    exists s', rng'. split; [done|]. split; [done|]. congruence.
Qed.

(** X21.  The second simulator never delivers a frame of two characters
    or more.  From a state in which the nodes sit on the cable and queue
    such frames only, [run_simulation] returns for every number of
    steps, every traffic probability and every generator, and leaves
    every counter of successful transmissions where it was: a sender's
    second step meets its own signal of the first and is taken for a
    collision. *)
Theorem long_frames_are_never_delivered
    (steps threshold : Z) (s : EthernetSimulator.t) (rng : Random) :
  sim_ok s →
  ∃ s' rng',
    EthernetSimulator.run_simulation steps threshold s rng = Some (s', rng') ∧
    sim_ok s' ∧ deliveries s' = deliveries s.
Proof. intros Hok. by apply run_steps_spec. Qed.

Lemma long_frames_are_never_delivered_witness :
  ∃ s' rng',
    EthernetSimulator.run_simulation 50 0
      (EthernetSimulator.mk
         (replicate 30 SignalType.IDLE) 30 1 10 0
         [EthernetNode.add_data "Frame_A" (EthernetNode.init 0 7);
          EthernetNode.add_data "Frame_B" (EthernetNode.init 1 14);
          EthernetNode.add_data "Frame_C" (EthernetNode.init 2 21)]
         (Statistics.mk 0 0 0 0))
      (mkRandom (λ _, 0%nat) 0) = Some (s', rng') ∧
    sim_ok s' ∧ deliveries s' = (0, [0; 0; 0]).
Proof.
  apply (long_frames_are_never_delivered 50 0
           (EthernetSimulator.mk
              (replicate 30 SignalType.IDLE) 30 1 10 0
              [EthernetNode.add_data "Frame_A" (EthernetNode.init 0 7);
               EthernetNode.add_data "Frame_B" (EthernetNode.init 1 14);
               EthernetNode.add_data "Frame_C" (EthernetNode.init 2 21)]
              (Statistics.mk 0 0 0 0))).
  split; [reflexivity|].
  repeat (apply Forall_cons; split;
          [split; [cbn; lia|]; split;
           [apply Forall_singleton; cbn; lia|];
           split; [cbn; lia|]; split; intros [=]|]).
  constructor.
Defined.

(** ** The second simulator: the backoff and the constructor *)

(** X22.  With a collision count that is not negative
    [calculate_backoff] returns a number of slots below two to the
    power of that count, and never more than 1023: the count is cut
    down to ten first, and stays so. *)
Theorem backoff_is_bounded (node : EthernetNode.t) (rng : Random) :
  0 ≤ EthernetNode.collision_count node →
  ∃ v node' rng',
    EthernetNode.calculate_backoff node rng = Some (v, node', rng') ∧
    0 ≤ v < 2 ^ EthernetNode.collision_count node ∧ v ≤ 1023 ∧
    EthernetNode.collision_count node' =
      Z.min (EthernetNode.collision_count node) 10.
Proof.
  intros Hcc.
  destruct (calculate_backoff_spec node rng Hcc) as (v & rng' & -> & Hv).
  eexists _, _, _. split; [done|].
  assert (2 ^ Z.min (EthernetNode.collision_count node) 10 ≤
          2 ^ EthernetNode.collision_count node)
    by (apply Z.pow_le_mono_r; lia).
  assert (2 ^ Z.min (EthernetNode.collision_count node) 10 ≤ 2 ^ 10)
    by (apply Z.pow_le_mono_r; lia).
  change (2 ^ 10) with 1024 in *.
  split; [lia|]. split; [lia|]. done.
Qed.

Lemma backoff_is_bounded_witness :
  ∃ v node' rng',
    EthernetNode.calculate_backoff
      (EthernetNode.set_collision_count 12 (EthernetNode.init 0 7))
      (mkRandom (λ _, 5000%nat) 0) = Some (v, node', rng') ∧
    0 ≤ v < 2 ^ 12 ∧ v ≤ 1023 ∧
    EthernetNode.collision_count node' = 10.
Proof.
  apply (backoff_is_bounded
           (EthernetNode.set_collision_count 12 (EthernetNode.init 0 7))).
  cbn. lia.
Defined.

Lemma init_nodes (positions : list Z) (m : nat) :
  (m ≤ length positions)%nat →
  ∃ nodes,
    foldl (EthernetSimulator.place positions) (Some [])
          (Z.of_nat <$> seq 0 m) = Some nodes ∧
    length nodes = m ∧
    ∀ k node, nodes !! k = Some node →
      ∃ p, positions !! k = Some p ∧
           node = EthernetNode.init (Z.of_nat k) p.
Proof.
  induction m as [|m IH]; intros Hm.
  - exists []. split; [done|]. split; [done|]. intros k node [=].
  - destruct IH as (nodes & Hn & Hl & Hk); [lia|].
    rewrite seq_S, fmap_app, foldl_app, Hn. cbn [fmap list_fmap foldl plus].
    unfold EthernetSimulator.place. cbn [mbind option_bind].
    destruct (lookup_lt_is_Some_2 positions m) as [p Hp]; [lia|].
    rewrite (getitem_nat _ _ _ Hp). cbn [mbind option_bind].
    eexists. split; [done|]. split; [rewrite length_app; cbn; lia|].
    intros k node Hnode.
    destruct (decide (k < m)%nat) as [Hlt|Hge].
    + rewrite lookup_app_l in Hnode by lia. by apply Hk.
    + rewrite lookup_app_r in Hnode by lia.
      destruct (k - length nodes)%nat as [|j] eqn:Hj; [|done].
      injection Hnode as <-. assert (k = m) as -> by lia. by exists p.
Qed.

(** X23.  On a cable of one cell or more the constructor returns, for
    any number of nodes, the simulator it was asked for: a cable of
    [cable_length] idle cells, the delay and the slot time as given, the
    clock and the four statistics at zero, and the nodes [0 .. num_nodes
    - 1], node [i] at position [(i + 1) * (cable_length // (num_nodes +
    1))], which lies on the cable, idle, with an empty queue, no frame
    and every counter at zero.  That state is of the kind the steps
    keep. *)
Theorem constructor_places_nodes_on_cable
    (cable_length num_nodes propagation_delay slot_time : Z) :
  1 ≤ cable_length →
  ∃ s,
    EthernetSimulator.init cable_length num_nodes propagation_delay slot_time
      = Some s ∧
    s = EthernetSimulator.mk
          (replicate (Z.to_nat cable_length) SignalType.IDLE)
          cable_length propagation_delay slot_time 0
          ((λ i, EthernetNode.mk i
                   ((i + 1) * (cable_length `div` (num_nodes + 1)))
                   NodeState.IDLE [] None 0 0 0 0 0 0)
             <$> seqZ 0 num_nodes)
          (Statistics.mk 0 0 0 0) ∧
    Forall (λ node, 0 ≤ EthernetNode.position node < cable_length)
           (EthernetSimulator.nodes s) ∧
    sim_ok s ∧
    length (EthernetSimulator.nodes s) = Z.to_nat num_nodes ∧
    deliveries s = (0, replicate (Z.to_nat num_nodes) 0).
Proof.
  intros HL. unfold EthernetSimulator.init.
  set (q := cable_length `div` (num_nodes + 1)).
  set (positions := (λ i, i * q) <$> seqZ 1 num_nodes).
  assert (Hlp : length positions = Z.to_nat num_nodes)
    by (unfold positions; by rewrite length_fmap, length_seqZ).
  destruct (init_nodes positions (Z.to_nat num_nodes)) as (nodes & Hn & Hl & Hk);
    [lia|].
  assert (Hseq : seqZ 0 num_nodes = Z.of_nat <$> seq 0 (Z.to_nat num_nodes)).
  { destruct (decide (0 ≤ num_nodes)).
    - rewrite <- seqZ_nat. by rewrite Z2Nat.id.
    - unfold seqZ. replace (Z.to_nat num_nodes) with 0%nat by lia. done. }
  rewrite Hseq, Hn. cbn [mbind option_bind].
  eexists. split; [done|].
  assert (Hinit : ∀ k node, nodes !! k = Some node →
            node = EthernetNode.init (Z.of_nat k) ((Z.of_nat k + 1) * q) ∧
            0 ≤ (Z.of_nat k + 1) * q < cable_length).
  { intros k node Hnode. destruct (Hk k node Hnode) as (p & Hp & ->).
    unfold positions in Hp. rewrite list_lookup_fmap in Hp.
    destruct (seqZ 1 num_nodes !! k) as [i|] eqn:Hi; [|done].
    apply lookup_seqZ in Hi as [-> Hlt]. injection Hp as <-.
    replace (1 + Z.of_nat k) with (Z.of_nat k + 1) by lia.
    split; [done|].
    assert (0 < num_nodes + 1) by lia.
    assert (0 ≤ q) by (apply Z.div_pos; lia).
    pose proof (Z.mul_div_le cable_length (num_nodes + 1) ltac:(lia)) as Hq.
    fold q in Hq. nia. }
  assert (Hnodes : nodes =
            (λ i, EthernetNode.mk i ((i + 1) * q)
                    NodeState.IDLE [] None 0 0 0 0 0 0)
              <$> (Z.of_nat <$> seq 0 (Z.to_nat num_nodes))).
  { apply list_eq. intros k. rewrite !list_lookup_fmap.
    destruct (decide (k < Z.to_nat num_nodes)%nat) as [Hlt|Hge].
    - rewrite lookup_seq_lt by done. cbn [fmap option_fmap option_map plus].
      destruct (lookup_lt_is_Some_2 nodes k) as [node Hnode]; [lia|].
      rewrite Hnode. by destruct (Hinit k node Hnode) as [-> _].
    - rewrite (lookup_ge_None_2 nodes) by lia.
      by rewrite (lookup_ge_None_2 (seq 0 (Z.to_nat num_nodes)))
        by (rewrite length_seq; lia). }
  split; [by rewrite <- Hnodes|]. cbn [EthernetSimulator.nodes].
  assert (Hpos : Forall (λ node, 0 ≤ EthernetNode.position node < cable_length)
                        nodes).
  { apply Forall_lookup. intros k node Hnode.
    by destruct (Hinit k node Hnode) as [-> Hp]. }
  split; [done|]. split; [|split; [done|]].
  - split; [cbn; rewrite length_replicate; lia|]. cbn.
    apply Forall_lookup. intros k node Hnode.
    destruct (Hinit k node Hnode) as [-> Hp].
    split; [cbn; rewrite length_replicate; lia|].
    split; [constructor|]. split; [done|]. split; intros [=].
  - unfold deliveries. cbn. f_equal.
    apply list_eq. intros k. rewrite list_lookup_fmap.
    destruct (nodes !! k) as [node|] eqn:Hnk.
    + destruct (Hinit k node Hnk) as [-> _]. cbn. symmetry.
      apply lookup_replicate_2. apply lookup_lt_Some in Hnk. lia.
    + cbn. symmetry. apply lookup_ge_None.
      rewrite length_replicate. apply lookup_ge_None in Hnk. lia.
Qed.

Lemma constructor_places_nodes_on_cable_witness :
  ∃ s,
    EthernetSimulator.init 100 4 1 10 = Some s ∧
    s = EthernetSimulator.mk
          (replicate 100 SignalType.IDLE) 100 1 10 0
          [EthernetNode.mk 0 20 NodeState.IDLE [] None 0 0 0 0 0 0;
           EthernetNode.mk 1 40 NodeState.IDLE [] None 0 0 0 0 0 0;
           EthernetNode.mk 2 60 NodeState.IDLE [] None 0 0 0 0 0 0;
           EthernetNode.mk 3 80 NodeState.IDLE [] None 0 0 0 0 0 0]
          (Statistics.mk 0 0 0 0) ∧
    Forall (λ node, 0 ≤ EthernetNode.position node < 100)
           (EthernetSimulator.nodes s) ∧
    sim_ok s ∧
    length (EthernetSimulator.nodes s) = 4%nat ∧
    deliveries s = (0, [0; 0; 0; 0]).
Proof. apply (constructor_places_nodes_on_cable 100 4 1 10). lia. Defined.

(** ** One call of [propagate], exactly *)

(** X24.  What one call [cable[i].propagate(cable, new_cable)] does, for
    any state of [new_cable] of the length of the medium.  It returns
    normally and changes three cells at most.  Cell [i] receives on its
    right side what its left neighbour sends rightwards and on its left
    side what its right neighbour sends leftwards, the collision marker
    in place of either when cell [i] sends the other way itself, and is
    then collapsed to the marker on both sides if both are present.  The
    left neighbour receives on its left side the marker when both
    signals are present and the left-bound signal of cell [i] when only
    that one is; the right neighbour likewise on its right side.  A side
    that receives nothing keeps what [new_cable] held, and every other
    cell of [new_cable] is left as it was. *)
Theorem propagate_call_exact
    (cable new_cable : list CableCell.t) (i : nat) (self : CableCell.t) :
  medium cable →
  length new_cable = length cable →
  cable !! i = Some self →
  ∃ nc,
    CableCell.propagate self cable new_cable = Some nc ∧
    length nc = length new_cable ∧
    ∀ j c, new_cable !! j = Some c →
      nc !! j =
      Some (if decide (j = i) then
              let l := over (inn (rightward cable i) (leftward cable (S i)))
                            (CableCell.left c) in
              let r := over (inn (leftward cable i) (from_left cable i))
                            (CableCell.right c) in
              if present l && present r
              then CableCell.mk (CableCell.pos c) collision collision
              else CableCell.mk (CableCell.pos c) l r
            else if decide (S j = i) then
              CableCell.mk (CableCell.pos c)
                (over (out (leftward cable i) (rightward cable j))
                      (CableCell.left c))
                (CableCell.right c)
            else if decide (j = S i) then
              CableCell.mk (CableCell.pos c) (CableCell.left c)
                (over (out (rightward cable i) (leftward cable j))
                      (CableCell.right c))
            else c).
Proof.
  intros [Hlen Hpos]%medium_spec Hnew Hself.
  rewrite (propagate_effect cable i self Hlen Hself (Hpos _ _ Hself)) by done.
  eexists. split; [done|]. split; [by rewrite length_imap|].
  intros j c Hc. rewrite list_lookup_imap, Hc.
  cbn [fmap option_fmap option_map]. f_equal. unfold call_effect.
  destruct (decide (j = i)) as [->|Hji].
  - generalize (inn (rightward cable i) (leftward cable (S i))).
    generalize (inn (leftward cable i) (from_left cable i)).
    intros x y. destruct c as [p [l|] [r|]], x, y; reflexivity.
  - destruct (decide (S j = i)) as [Hl|Hl].
    + generalize (out (leftward cable i) (rightward cable j)).
      intros x. destruct c as [p l r], x; reflexivity.
    + destruct (decide (j = S i)) as [Hr|Hr]; [|done].
      generalize (out (rightward cable i) (leftward cable j)).
      intros x. destruct c as [p l r], x; reflexivity.
Qed.

Lemma propagate_call_exact_witness :
  (∃ nc,
     CableCell.propagate (CableCell.init 5) converging new_medium = Some nc ∧
     length nc = 20%nat ∧
     nc !! 5%nat = Some (CableCell.mk 5 collision collision) ∧
     nc !! 4%nat = Some (CableCell.init 4) ∧
     nc !! 6%nat = Some (CableCell.init 6)) ∧
  (∃ nc,
     CableCell.propagate (CableCell.init 5)
       (alter (CableCell.set_right (Some "A"%string)) 4%nat new_medium)
       new_medium = Some nc ∧
     length nc = 20%nat ∧
     nc !! 5%nat = Some (CableCell.mk 5 None (Some "A"%string))).
Proof.
  split.
  - destruct (propagate_call_exact converging new_medium 5 (CableCell.init 5))
      as (nc & Hp & Hl & Hc); [reflexivity|reflexivity|reflexivity|].
    exists nc. split; [exact Hp|]. split; [exact Hl|].
    split; [|split].
    + rewrite (Hc 5%nat (CableCell.init 5)) by reflexivity. reflexivity.
    + rewrite (Hc 4%nat (CableCell.init 4)) by reflexivity. reflexivity.
    + rewrite (Hc 6%nat (CableCell.init 6)) by reflexivity. reflexivity.
  - destruct (propagate_call_exact
                (alter (CableCell.set_right (Some "A"%string)) 4%nat new_medium)
                new_medium 5 (CableCell.init 5))
      as (nc & Hp & Hl & Hc); [reflexivity|reflexivity|reflexivity|].
    exists nc. split; [exact Hp|]. split; [exact Hl|].
    rewrite (Hc 5%nat (CableCell.init 5)) by reflexivity. reflexivity.
Defined.
